(** * The graph engine's tool surface: validation, context, open, tree, backups

    A shallow embedding of the TypeScript sources

      - [validate.ts]: the request-boundary helpers and the two error
        classes;
      - [src/tools/context.ts]: the [context] tool, followed in the same
        file by the [open] tool and by the later revision of the [tree]
        tool, the one that reports progress;
      - [src/tools/tree.ts]: the earlier revision of the [tree] tool;

    over a relational store of nodes and edges, and of the backup life cycle
    of the store file, followed by the properties the design document states
    about them. *)

From Stdlib Require Import List String Ascii Bool Arith ZArith QArith Qround Lia.
From Stdlib Require Import DecimalString Permutation Sorted.
Import ListNotations.

#[local] Set Warnings "-register-all".

Close Scope Q_scope.
Open Scope Z_scope.
Open Scope list_scope.
Open Scope string_scope.

(* ===================================================================== *)
(** ** JavaScript values as they reach the request boundary *)
(* ===================================================================== *)

(** A JS [number]: the IEEE special values are kept apart, every finite
    number is a rational.  The handlers only compare numbers with small
    integer literals and count upwards from [0], which is exact. *)
Inductive number : Type :=
| NaN
| PosInf
| NegInf
| Fin (q : Q).

(** [unknown] request data: what [JSON.parse] can produce, plus [undefined]
    for an absent property. *)
Inductive value : Type :=
| VUndefined
| VNull
| VBool (b : bool)
| VNumber (n : number)
| VString (s : string)
| VArray (items : list value)
| VObject (fields : list (string * value)).

(** [a < b] on numbers; every comparison with [NaN] is false. *)
Definition num_ltb (a b : number) : bool :=
  match a, b with
  | NaN, _ | _, NaN => false
  | PosInf, _ => false
  | _, PosInf => true
  | _, NegInf => false
  | NegInf, Fin _ => true
  | Fin p, Fin q => match (p ?= q)%Q with Lt => true | _ => false end
  end.

(** [isNaN(value)] for a value already known to be a number. *)
Definition isNaN (n : number) : bool :=
  match n with NaN => true | _ => false end.

(** [obj?.key]: [undefined] when [obj] is nullish or has no such property. *)
Fixpoint lookupField (key : string) (fields : list (string * value)) : value :=
  match fields with
  | [] => VUndefined
  | (k, v) :: rest => if String.eqb k key then v else lookupField key rest
  end.

Definition getProp (obj : value) (key : string) : value :=
  match obj with
  | VObject fields => lookupField key fields
  | _ => VUndefined
  end.

(** [String.prototype.trim] over 8-bit code units: the white space and line
    terminator characters below U+0100. *)
Definition isWhiteSpace (c : ascii) : bool :=
  existsb (Nat.eqb (nat_of_ascii c)) [9; 10; 11; 12; 13; 32; 160]%nat.

Fixpoint trimStart (s : string) : string :=
  match s with
  | EmptyString => EmptyString
  | String c rest => if isWhiteSpace c then trimStart rest else s
  end.

Fixpoint trimEnd (s : string) : string :=
  match s with
  | EmptyString => EmptyString
  | String c rest =>
      match trimEnd rest with
      | EmptyString => if isWhiteSpace c then EmptyString else String c EmptyString
      | kept => String c kept
      end
  end.

Definition trim (s : string) : string := trimEnd (trimStart s).

(** [sub] occurs in [s]. *)
Definition contains (sub s : string) : Prop :=
  exists pre post, s = pre ++ sub ++ post.

(* ===================================================================== *)
(** ** Errors and the outcome of a call *)
(* ===================================================================== *)

(** The two error classes of [validate.ts].  [ValidationError] fixes its
    [code] field to ["validation_error"]; [EngineError] takes it from the
    constructor. *)
Inductive error : Type :=
| ValidationError (message : string)
| EngineError (code : string) (message : string).

Definition code (e : error) : string :=
  match e with
  | ValidationError _ => "validation_error"
  | EngineError c _ => c
  end.

Definition message (e : error) : string :=
  match e with
  | ValidationError m => m
  | EngineError _ m => m
  end.

Definition name (e : error) : string :=
  match e with
  | ValidationError _ => "ValidationError"
  | EngineError _ _ => "EngineError"
  end.

(** What a call does: return, throw, or (in the model only) exhaust the
    recursion budget handed to a depth-bounded walk. *)
Inductive outcome (A : Type) : Type :=
| Ok (a : A)
| Throw (e : error)
| OutOfFuel.

Arguments Ok {A} a.
Arguments Throw {A} e.
Arguments OutOfFuel {A}.

Definition bind {A B : Type} (m : outcome A) (k : A -> outcome B) : outcome B :=
  match m with
  | Ok a => k a
  | Throw e => Throw e
  | OutOfFuel => OutOfFuel
  end.

Declare Scope outcome_scope.
Delimit Scope outcome_scope with outcome.
Notation "x <- m ;; k" := (bind m (fun x => k))
  (at level 61, m at next level, right associativity) : outcome_scope.
Notation "' p <- m ;; k" := (bind m (fun x => match x with p => k end))
  (at level 61, p pattern, m at next level, right associativity) : outcome_scope.
Open Scope outcome_scope.

(** [xs.map(f)] where [f] may throw: left to right, stopping at the first
    exception. *)
Fixpoint mapM {A B : Type} (f : A -> outcome B) (xs : list A) : outcome (list B) :=
  match xs with
  | [] => Ok []
  | x :: rest =>
      y <- f x ;;
      ys <- mapM f rest ;;
      Ok (y :: ys)
  end.

(** [a ?? b] *)
Definition orElse {A : Type} (a : option A) (b : A) : A :=
  match a with
  | Some x => x
  | None => b
  end.

(* ===================================================================== *)
(** ** validate.ts *)
(* ===================================================================== *)

(** The host's conversion of a number inside a template literal. *)
Class Runtime : Type := {
  showNumber : number -> string
}.

Section Validate.
Context {RT : Runtime}.

Definition requireString (v : value) (field : string) : outcome string :=
  match v with
  | VString s =>
      if (String.length (trim s) =? 0)%nat
      then Throw (ValidationError (field ++ " is required and must be a non-empty string"))
      else Ok (trim s)
  | _ => Throw (ValidationError (field ++ " is required and must be a non-empty string"))
  end.

Definition optionalString (v : value) (field : string) : outcome (option string) :=
  match v with
  | VUndefined | VNull => Ok None
  | VString s => Ok (Some s)
  | _ => Throw (ValidationError (field ++ " must be a string"))
  end.

Definition requireArray (v : value) (field : string) : outcome (list value) :=
  match v with
  | VArray items =>
      if (List.length items =? 0)%nat
      then Throw (ValidationError (field ++ " is required and must be a non-empty array"))
      else Ok items
  | _ => Throw (ValidationError (field ++ " is required and must be a non-empty array"))
  end.

Definition optionalArray (v : value) (field : string) : outcome (option (list value)) :=
  match v with
  | VUndefined | VNull => Ok None
  | VArray items => Ok (Some items)
  | _ => Throw (ValidationError (field ++ " must be an array"))
  end.

Definition optionalNumber (v : value) (field : string) (min max : option number)
  : outcome (option number) :=
  match v with
  | VUndefined | VNull => Ok None
  | VNumber n =>
      if isNaN n then Throw (ValidationError (field ++ " must be a number"))
      else
        let checkMax :=
          match max with
          | Some hi =>
              if num_ltb hi n
              then Throw (ValidationError (field ++ " must be <= " ++ showNumber hi))
              else Ok (Some n)
          | None => Ok (Some n)
          end in
        match min with
        | Some lo =>
            if num_ltb n lo
            then Throw (ValidationError (field ++ " must be >= " ++ showNumber lo))
            else checkMax
        | None => checkMax
        end
  | _ => Throw (ValidationError (field ++ " must be a number"))
  end.

Definition optionalBoolean (v : value) (field : string) : outcome (option bool) :=
  match v with
  | VUndefined | VNull => Ok None
  | VBool b => Ok (Some b)
  | _ => Throw (ValidationError (field ++ " must be a boolean"))
  end.

Definition requireObject (v : value) (field : string)
  : outcome (list (string * value)) :=
  match v with
  | VObject fields => Ok fields
  | _ => Throw (ValidationError (field ++ " is required and must be an object"))
  end.

End Validate.

(* ===================================================================== *)
(** ** The persisted graph: a nodes relation and an edges relation *)
(* ===================================================================== *)

(** The columns of a node that the tools below read or set.  [parent = None]
    marks a root. *)
Record Node : Type := mkNode {
  id : string;
  project : string;
  parent : option string;
  summary : string;
  resolved : bool;
  state : value;
  properties : list (string * value);
  discovery : option string;
  created_by : string
}.

Record Edge : Type := mkEdge {
  from_node : string;
  to_node : string;
  type : string
}.

(** Both relations in insertion order. *)
Record Store : Type := mkStore {
  nodes : list Node;
  edges : list Edge
}.

Definition optionEqb (a : option string) (b : string) : bool :=
  match a with
  | Some x => String.eqb x b
  | None => false
  end.

Definition isNone {A : Type} (a : option A) : bool :=
  match a with
  | Some _ => false
  | None => true
  end.

(** Modelled from the spec: [nodes.ts] is not among the sources.  "get node":
    the stored node with this id, if any. *)
Definition getNode (s : Store) (nodeId : string) : option Node :=
  find (fun n => String.eqb (id n) nodeId) (nodes s).

(** Modelled from the spec: [nodes.ts] is not among the sources.  "get node
    (fails with NotFound if absent)". *)
Definition getNodeOrThrow (s : Store) (nodeId : string) : outcome Node :=
  match getNode s nodeId with
  | Some n => Ok n
  | None => Throw (EngineError "node_not_found" ("Node not found: " ++ nodeId))
  end.

(** Modelled from the spec: [nodes.ts] is not among the sources.  "list
    children of a node (parent-ordered, insertion order)". *)
Definition getChildren (s : Store) (nodeId : string) : list Node :=
  filter (fun n => optionEqb (parent n) nodeId) (nodes s).

(** Modelled from the spec: [nodes.ts] is not among the sources.  The root of
    a project is its node with no parent. *)
Definition getProjectRoot (s : Store) (p : string) : option Node :=
  find (fun n => String.eqb (project n) p && isNone (parent n)) (nodes s).

Record AncestorInfo : Type := mkAncestorInfo {
  anc_id : string;
  anc_summary : string;
  anc_resolved : bool
}.

(** The chain of parents above [nodeId], nearest first.  No chain without a
    repetition is longer than the nodes relation, which bounds the climb. *)
Fixpoint climb (s : Store) (fuel : nat) (nodeId : string) : list Node :=
  match fuel with
  | O => []
  | S fuel' =>
      match getNode s nodeId with
      | Some n =>
          match parent n with
          | Some p =>
              match getNode s p with
              | Some pn => pn :: climb s fuel' p
              | None => []
              end
          | None => []
          end
      | None => []
      end
  end.

(** Modelled from the spec: [nodes.ts] is not among the sources.  "list
    ancestors of a node (root-to-immediate-parent order)". *)
Definition getAncestors (s : Store) (nodeId : string) : list AncestorInfo :=
  map (fun n => mkAncestorInfo (id n) (summary n) (resolved n))
      (rev (climb s (List.length (nodes s)) nodeId)).

(** [target] is [nodeId] itself or lies above it on the parent chain. *)
Fixpoint reaches (s : Store) (fuel : nat) (target nodeId : string) : bool :=
  if String.eqb nodeId target then true
  else
    match fuel with
    | O => false
    | S fuel' =>
        match getNode s nodeId with
        | Some n =>
            match parent n with
            | Some p => reaches s fuel' target p
            | None => false
            end
        | None => false
        end
    end.

(** The stored nodes of the subtree rooted at [nodeId]: the node and all its
    descendants. *)
Definition subtreeNodes (s : Store) (nodeId : string) : list Node :=
  filter (fun n => reaches s (List.length (nodes s)) nodeId (id n)) (nodes s).

Record Progress : Type := mkProgress {
  p_resolved : Z;
  p_total : Z
}.

(** The stored node [n] lies strictly below [nodeId]: its parent is
    [nodeId] or lies below it. *)
Definition isDescendant (s : Store) (nodeId : string) (n : Node) : bool :=
  match parent n with
  | Some p => reaches s (List.length (nodes s)) nodeId p
  | None => false
  end.

(** The descendant set of [nodeId]: the stored nodes strictly below it. *)
Definition descendants (s : Store) (nodeId : string) : list Node :=
  filter (isDescendant s nodeId) (nodes s).


(** Modelled from the spec: [edges.ts] is not among the sources.  The edges
    of one type leaving a node. *)
Definition getEdgesFrom (s : Store) (nodeId : string) (ty : string) : list Edge :=
  filter (fun e => String.eqb (from_node e) nodeId && String.eqb (type e) ty) (edges s).

(** Modelled from the spec: [edges.ts] is not among the sources.  The edges
    of one type entering a node. *)
Definition getEdgesTo (s : Store) (nodeId : string) (ty : string) : list Edge :=
  filter (fun e => String.eqb (to_node e) nodeId && String.eqb (type e) ty) (edges s).

(** One row of the project listing, as [OpenResult] declares it. *)
Record ProjectEntry : Type := mkProjectEntry {
  pe_project : string;
  pe_id : string;
  pe_summary : string;
  pe_total : Z;
  pe_resolved : Z;
  pe_unresolved : Z;
  pe_updated_at : string
}.

(** The per-project summary, as [OpenResult] declares it. *)
Record ProjectSummary : Type := mkProjectSummary {
  ps_total : Z;
  ps_resolved : Z;
  ps_unresolved : Z;
  ps_blocked : Z;
  ps_actionable : Z
}.

(** The remaining read-only queries of [nodes.ts] and its identifier
    allocation.  The tools only pass their results on, so they stay
    abstract; [getSubtreeProgress] is the aggregate query [buildTree] of
    [tools/context.ts] calls for a node whose children it does not render. *)
Class NodeQueries : Type := {
  listProjects : Store -> list ProjectEntry;
  getProjectSummary : Store -> string -> ProjectSummary;
  getSubtreeProgress : Store -> string -> Progress;
  newId : Store -> string
}.


Record CreateNodeInput : Type := mkCreateNodeInput {
  cn_project : string;
  cn_parent : option string;
  cn_summary : string;
  cn_discovery : option string;
  cn_agent : string
}.

(** Modelled from the spec: [nodes.ts] is not among the sources.  "create
    node": one unresolved node with a fresh identifier is appended to the
    nodes relation and returned. *)
Definition createNode {NQ : NodeQueries} (s : Store) (input : CreateNodeInput)
  : Node * Store :=
  let node :=
    {| id := newId s;
       project := cn_project input;
       parent := cn_parent input;
       summary := cn_summary input;
       resolved := false;
       state := VNull;
       properties := [];
       discovery := cn_discovery input;
       created_by := cn_agent input |} in
  (node, {| nodes := (nodes s ++ [node])%list; edges := edges s |}).

(** The recursion budget of a walk that stops descending at [maxDepth]:
    levels [0 .. ceiling maxDepth] are visited. *)
Definition fuelFor (maxDepth : number) : nat :=
  match maxDepth with
  | Fin q => S (Z.to_nat (Qceiling q))
  | _ => O
  end.

(** [currentDepth < maxDepth] with an integral level counter. *)
Definition belowDepth (currentDepth : nat) (maxDepth : number) : bool :=
  num_ltb (Fin (inject_Z (Z.of_nat currentDepth))) maxDepth.

(* ===================================================================== *)
(** ** tools/context.ts *)
(* ===================================================================== *)

Inductive NodeTree : Type := mkNodeTree {
  nt_id : string;
  nt_summary : string;
  nt_resolved : bool;
  nt_state : value;
  nt_children : option (list NodeTree);
  nt_child_count : option nat
}.

Record Dependency : Type := mkDependency {
  dep_node : option Node;
  satisfied : bool
}.

Record ContextResult : Type := mkContextResult {
  cr_node : Node;
  cr_ancestors : list AncestorInfo;
  cr_children : NodeTree;
  cr_depends_on : list Dependency;
  cr_depended_by : list Dependency
}.

Fixpoint buildNodeTree (fuel : nat) (s : Store) (nodeId : string)
    (currentDepth : nat) (maxDepth : number) : outcome NodeTree :=
  match fuel with
  | O => OutOfFuel
  | S fuel' =>
      node <- getNodeOrThrow s nodeId ;;
      let children := getChildren s nodeId in
      let tree :=
        {| nt_id := id node;
           nt_summary := summary node;
           nt_resolved := resolved node;
           nt_state := state node;
           nt_children := None;
           nt_child_count := None |} in
      if (List.length children =? 0)%nat then Ok tree
      else if belowDepth currentDepth maxDepth then
        built <- mapM (fun child =>
                         buildNodeTree fuel' s (id child) (currentDepth + 1) maxDepth)
                      children ;;
        Ok {| nt_id := nt_id tree;
              nt_summary := nt_summary tree;
              nt_resolved := nt_resolved tree;
              nt_state := nt_state tree;
              nt_children := Some built;
              nt_child_count := None |}
      else
        Ok {| nt_id := nt_id tree;
              nt_summary := nt_summary tree;
              nt_resolved := nt_resolved tree;
              nt_state := nt_state tree;
              nt_children := None;
              nt_child_count := Some (List.length children) |}
  end.

Section Context.
Context {RT : Runtime}.

Definition handleContext (s : Store) (input : value) : outcome ContextResult :=
  nodeId <- requireString (getProp input "node_id") "node_id" ;;
  d <- optionalNumber (getProp input "depth") "depth"
         (Some (Fin 0)) (Some (Fin 10)) ;;
  let depth := orElse d (Fin 2) in
  node <- getNodeOrThrow s nodeId ;;
  let ancestors := getAncestors s nodeId in
  children <- buildNodeTree (fuelFor depth) s nodeId 0 depth ;;
  let depsOut := getEdgesFrom s nodeId "depends_on" in
  let depsIn := getEdgesTo s nodeId "depends_on" in
  let depends_on :=
    map (fun edge =>
           let target := getNode s (to_node edge) in
           {| dep_node := target;
              satisfied := orElse (option_map resolved target) false |})
        depsOut in
  let depended_by :=
    map (fun edge =>
           let source := getNode s (from_node edge) in
           {| dep_node := source;
              satisfied := resolved node |})
        depsIn in
  Ok {| cr_node := node;
        cr_ancestors := ancestors;
        cr_children := children;
        cr_depends_on := depends_on;
        cr_depended_by := depended_by |}.

End Context.

(* ===================================================================== *)
(** ** tools/open.ts *)
(* ===================================================================== *)

Inductive OpenResult : Type :=
| ProjectList (projects : list ProjectEntry)
| Opened (project : string) (root : Node) (summary : ProjectSummary).

Section Open.
Context {NQ : NodeQueries}.

(** The string a condition [if (project)] lets through: [!project] holds
    for an absent project and for the empty string. *)
Definition truthy (o : option string) : option string :=
  match o with
  | Some p => if (String.length p =? 0)%nat then None else Some p
  | None => None
  end.

Definition handleOpen (s : Store) (input : value) (agent : string)
  : outcome (OpenResult * Store) :=
  project <- optionalString (getProp input "project") "project" ;;
  goal <- optionalString (getProp input "goal") "goal" ;;
  match truthy project with
  | None => Ok (ProjectList (listProjects s), s)
  | Some project =>
      let '(root, s') :=
        match getProjectRoot s project with
        | Some root => (root, s)
        | None =>
            createNode s {| cn_project := project;
                            cn_parent := None;
                            cn_summary := orElse goal project;
                            cn_discovery := Some "pending";
                            cn_agent := agent |}
        end in
      let summary := getProjectSummary s' project in
      Ok (Opened project root summary, s')
  end.

End Open.

(* ===================================================================== *)
(** ** tools/tree.ts *)
(* ===================================================================== *)

(** The counters object [{ total, resolved }] that a walk updates in place;
    here it is passed in and handed back. *)
Record Stats : Type := mkStats {
  st_total : Z;
  st_resolved : Z
}.

Record TreeStats : Type := mkTreeStats {
  ts_total : Z;
  ts_resolved : Z;
  ts_unresolved : Z
}.

(** [stats.total++; if (node.resolved) stats.resolved++;] *)
Definition countNode (node : Node) (stats : Stats) : Stats :=
  let stats := {| st_total := st_total stats + 1; st_resolved := st_resolved stats |} in
  if resolved node
  then {| st_total := st_total stats; st_resolved := st_resolved stats + 1 |}
  else stats.

(** [xs.map(f)] where [f] updates the counters and may throw. *)
Fixpoint mapWithStats {A B : Type} (f : A -> Stats -> outcome (B * Stats))
    (xs : list A) (stats : Stats) : outcome (list B * Stats) :=
  match xs with
  | [] => Ok ([], stats)
  | x :: rest =>
      '(y, stats1) <- f x stats ;;
      '(ys, stats2) <- mapWithStats f rest stats1 ;;
      Ok (y :: ys, stats2)
  end.

(** The revision in [src/tools/tree.ts]. *)
Module TreePlain.

Inductive TreeNode : Type := mkTreeNode {
  tn_id : string;
  tn_summary : string;
  tn_resolved : bool;
  tn_properties : list (string * value);
  tn_children : option (list TreeNode);
  tn_child_count : option nat
}.

Record TreeResult : Type := mkTreeResult {
  tr_project : string;
  tr_tree : TreeNode;
  tr_stats : TreeStats
}.

Fixpoint buildTree (fuel : nat) (s : Store) (node : Node)
    (currentDepth : nat) (maxDepth : number) (stats : Stats)
  : outcome (TreeNode * Stats) :=
  match fuel with
  | O => OutOfFuel
  | S fuel' =>
      let stats := countNode node stats in
      let children := getChildren s (id node) in
      let treeNode :=
        {| tn_id := id node;
           tn_summary := summary node;
           tn_resolved := resolved node;
           tn_properties := properties node;
           tn_children := None;
           tn_child_count := None |} in
      if (List.length children =? 0)%nat then Ok (treeNode, stats)
      else if belowDepth currentDepth maxDepth then
        '(built, stats) <-
          mapWithStats (fun child =>
                          buildTree fuel' s child (currentDepth + 1) maxDepth)
                       children stats ;;
        Ok ({| tn_id := tn_id treeNode;
               tn_summary := tn_summary treeNode;
               tn_resolved := tn_resolved treeNode;
               tn_properties := tn_properties treeNode;
               tn_children := Some built;
               tn_child_count := None |}, stats)
      else
        Ok ({| tn_id := tn_id treeNode;
               tn_summary := tn_summary treeNode;
               tn_resolved := tn_resolved treeNode;
               tn_properties := tn_properties treeNode;
               tn_children := None;
               tn_child_count := Some (List.length children) |}, stats)
  end.

Section Handler.
Context {RT : Runtime}.

Definition handleTree (s : Store) (input : value) : outcome TreeResult :=
  project <- requireString (getProp input "project") "project" ;;
  d <- optionalNumber (getProp input "depth") "depth"
         (Some (Fin 1)) (Some (Fin 20)) ;;
  let depth := orElse d (Fin 10) in
  match getProjectRoot s project with
  | None =>
      Throw (EngineError "project_not_found" ("Project not found: " ++ project))
  | Some root =>
      let stats := {| st_total := 0; st_resolved := 0 |} in
      '(tree, stats) <- buildTree (fuelFor depth) s root 0 depth stats ;;
      Ok {| tr_project := project;
            tr_tree := tree;
            tr_stats := {| ts_total := st_total stats;
                           ts_resolved := st_resolved stats;
                           ts_unresolved := st_total stats - st_resolved stats |} |}
  end.

End Handler.

End TreePlain.

(** The revision that follows the [open] tool in [src/tools/context.ts]: it
    attaches a progress count to every node that has children. *)
Module TreeProgress.

Inductive TreeNode : Type := mkTreeNode {
  tn_id : string;
  tn_summary : string;
  tn_resolved : bool;
  tn_properties : list (string * value);
  tn_progress : option Progress;
  tn_children : option (list TreeNode);
  tn_child_count : option nat
}.

Record TreeResult : Type := mkTreeResult {
  tr_project : string;
  tr_tree : TreeNode;
  tr_stats : TreeStats
}.

Record Built : Type := mkBuilt {
  treeNode : TreeNode;
  subtotal : Z;
  subresolved : Z
}.

(** The loop [for (const child of children) { ... }] of [buildTree]: [body]
    is the recursive call; the children built so far and the two running
    sums are the loop's variables. *)
Fixpoint forChildren (body : Node -> Stats -> outcome (Built * Stats))
    (children : list Node) (built : list TreeNode) (subtotal' subresolved' : Z)
    (stats : Stats) : outcome (list TreeNode * Z * Z * Stats) :=
  match children with
  | [] => Ok (built, subtotal', subresolved', stats)
  | child :: rest =>
      '(result, stats) <- body child stats ;;
      forChildren body rest
        (built ++ [treeNode result])%list
        (subtotal' + subtotal result)
        (subresolved' + subresolved result)
        stats
  end.

Section Handler.
Context {RT : Runtime} {NQ : NodeQueries}.

Fixpoint buildTree (fuel : nat) (s : Store) (node : Node)
    (currentDepth : nat) (maxDepth : number) (stats : Stats)
  : outcome (Built * Stats) :=
  match fuel with
  | O => OutOfFuel
  | S fuel' =>
      let stats := countNode node stats in
      let children := getChildren s (id node) in
      let leaf :=
        {| tn_id := id node;
           tn_summary := summary node;
           tn_resolved := resolved node;
           tn_properties := properties node;
           tn_progress := None;
           tn_children := None;
           tn_child_count := None |} in
      let subtotal0 := 1 in
      let subresolved0 := if resolved node then 1 else 0 in
      if (List.length children =? 0)%nat
      then Ok ({| treeNode := leaf; subtotal := subtotal0; subresolved := subresolved0 |},
               stats)
      else if belowDepth currentDepth maxDepth then
        '(built, subtotal1, subresolved1, stats) <-
          forChildren (fun child =>
                         buildTree fuel' s child (currentDepth + 1) maxDepth)
                      children [] subtotal0 subresolved0 stats ;;
        Ok ({| treeNode :=
                 {| tn_id := tn_id leaf;
                    tn_summary := tn_summary leaf;
                    tn_resolved := tn_resolved leaf;
                    tn_properties := tn_properties leaf;
                    tn_progress := Some {| p_resolved := subresolved1;
                                           p_total := subtotal1 |};
                    tn_children := Some built;
                    tn_child_count := None |};
               subtotal := subtotal1;
               subresolved := subresolved1 |}, stats)
      else
        let progress := getSubtreeProgress s (id node) in
        Ok ({| treeNode :=
                 {| tn_id := tn_id leaf;
                    tn_summary := tn_summary leaf;
                    tn_resolved := tn_resolved leaf;
                    tn_properties := tn_properties leaf;
                    tn_progress := Some {| p_resolved := p_resolved progress;
                                           p_total := p_total progress |};
                    tn_children := None;
                    tn_child_count := Some (List.length children) |};
               subtotal := p_total progress;
               subresolved := p_resolved progress |}, stats)
  end.

(** [names.join(", ")] *)
Definition join (sep : string) (names : list string) : string :=
  String.concat sep names.

Definition handleTree (s : Store) (input : value) : outcome TreeResult :=
  project <- requireString (getProp input "project") "project" ;;
  d <- optionalNumber (getProp input "depth") "depth"
         (Some (Fin 1)) (Some (Fin 20)) ;;
  let depth := orElse d (Fin 10) in
  match getProjectRoot s project with
  | None =>
      let available := listProjects s in
      let names := map pe_project available in
      let suffix :=
        if (0 <? List.length names)%nat
        then " Available projects: " ++ join ", " names
        else " No projects exist yet." in
      Throw (EngineError "project_not_found"
               ("Project not found: " ++ project ++ "." ++ suffix))
  | Some root =>
      let stats := {| st_total := 0; st_resolved := 0 |} in
      '(result, stats) <- buildTree (fuelFor depth) s root 0 depth stats ;;
      Ok {| tr_project := project;
            tr_tree := treeNode result;
            tr_stats := {| ts_total := st_total stats;
                           ts_resolved := st_resolved stats;
                           ts_unresolved := st_total stats - st_resolved stats |} |}
  end.

End Handler.

End TreeProgress.

(* ===================================================================== *)
(** ** db.ts: backups of the store file *)
(* ===================================================================== *)

Module Backup.

(** [n] elements from the end of [l], or all of [l] when it has fewer. *)
Definition lastN {A : Type} (n : nat) (l : list A) : list A :=
  skipn (List.length l - n) l.

Definition isDigit (c : ascii) : bool :=
  let n := nat_of_ascii c in
  ((48 <=? n) && (n <=? 57))%nat.

Fixpoint parseDigits (s : string) (acc : nat) : option nat :=
  match s with
  | EmptyString => Some acc
  | String c rest =>
      if isDigit c
      then parseDigits rest (10 * acc + (nat_of_ascii c - 48))%nat
      else None
  end.

(** A target written as a decimal number. *)
Definition parseIndex (target : string) : option nat :=
  match target with
  | EmptyString => None
  | _ => parseDigits target 0%nat
  end.

(** The decimal numeral of [n], built from its last digit. *)
Definition digit (d : nat) : ascii := ascii_of_nat (48 + d).

Fixpoint decimalDigits (fuel n : nat) (acc : string) : string :=
  match fuel with
  | O => acc
  | S fuel' =>
      let acc' := String (digit (n mod 10)) acc in
      if (n <? 10)%nat then acc' else decimalDigits fuel' (n / 10) acc'
  end.

Definition decimal (n : nat) : string := decimalDigits (S n) n EmptyString.

(** Some character of the target is not a decimal digit, as in every file
    name ending in [.db]. *)
Fixpoint hasNonDigit (s : string) : bool :=
  match s with
  | EmptyString => false
  | String c rest => negb (isDigit c) || hasNonDigit rest
  end.

Section WithImage.

(** The contents of the store file. *)
Variable Image : Type.

(** The file name made from a timestamp and a tag. *)
Variable backupName : string -> string -> string.

Record BackupFile : Type := mkBackupFile {
  filename : string;
  tag : string;
  contents : Image
}.

(** Modelled from the spec: [db.ts] is not among the sources (only its tests
    and its command-line caller are).  The path the store was opened on, the
    live image, and the backups directory in creation order (oldest
    first). *)
Record Db : Type := mkDb {
  dbPath : string;
  live : Image;
  backups : list BackupFile
}.

Definition inMemory (db : Db) : bool := String.eqb (dbPath db) ":memory:".

Definition MAX_BACKUPS : nat := 10.

(** Modelled from the spec: [db.ts] is not among the sources.  "retention
    pruning keeps only the most recent 10 backups (by creation order)
    regardless of tag, deleting older ones". *)
Definition pruneBackups (files : list BackupFile) : list BackupFile :=
  lastN MAX_BACKUPS files.

(** Modelled from the spec: [db.ts] is not among the sources.  "a purely
    in-memory store ... returns no backup destination"; otherwise the live
    image is copied to a file named by timestamp and tag, and "after any
    backup" the directory is pruned. *)
Definition backupDb (db : Db) (now : string) (tag' : string) : option string * Db :=
  if inMemory db then (None, db)
  else
    let dest := backupName now tag' in
    let file := {| filename := dest; tag := tag'; contents := live db |} in
    (Some dest,
     {| dbPath := dbPath db;
        live := live db;
        backups := pruneBackups (backups db ++ [file])%list |}).

(** Modelled from the spec: [db.ts] is not among the sources.  "list
    (newest-first ...)"; an in-memory store has no backups directory. *)
Definition listBackups (db : Db) : list BackupFile :=
  if inMemory db then [] else rev (backups db).

(** Modelled from the spec: [db.ts] is not among the sources.  "Restore
    accepts either an exact backup filename or a 1-based recency index
    (1 = most recent)". *)
Definition resolveTarget (db : Db) (target : string) : option BackupFile :=
  let byName := find (fun b => String.eqb (filename b) target) (listBackups db) in
  match parseIndex target with
  | Some (S k) =>
      match nth_error (listBackups db) k with
      | Some b => Some b
      | None => byName
      end
  | _ => byName
  end.

Definition BackupNotFound (target : string) : error :=
  EngineError "backup_not_found" ("Backup not found: " ++ target).

(** Modelled from the spec: [db.ts] is not among the sources.  "it fails
    with BackupNotFound if the target does not resolve, and otherwise
    replaces the live store image".  The outcome is the restored file's
    name. *)
Definition restoreDb (db : Db) (target : string) : outcome string * Db :=
  match resolveTarget db target with
  | Some b =>
      (Ok (filename b),
       {| dbPath := dbPath db; live := contents b; backups := backups db |})
  | None => (Throw (BackupNotFound target), db)
  end.

(** What happens to a store file over time: committed writes replace the
    live image, backups are taken, backups are restored. *)
Inductive request : Type :=
| Commit (img : Image)
| CreateBackup (now : string) (tag' : string)
| RestoreBackup (target : string).

Definition step (db : Db) (r : request) : Db :=
  match r with
  | Commit img => {| dbPath := dbPath db; live := img; backups := backups db |}
  | CreateBackup now tag' => snd (backupDb db now tag')
  | RestoreBackup target => snd (restoreDb db target)
  end.

Fixpoint run (db : Db) (rs : list request) : Db :=
  match rs with
  | [] => db
  | r :: rest => run (step db r) rest
  end.

(** The backup files written by a request, and by a run of requests, in
    creation order. *)
Definition created (db : Db) (r : request) : list BackupFile :=
  match r with
  | CreateBackup now tag' =>
      if inMemory db then []
      else [{| filename := backupName now tag'; tag := tag'; contents := live db |}]
  | _ => []
  end.

Fixpoint createdBy (db : Db) (rs : list request) : list BackupFile :=
  match rs with
  | [] => []
  | r :: rest => (created db r ++ createdBy (step db r) rest)%list
  end.

Definition isCreate (r : request) : bool :=
  match r with
  | CreateBackup _ _ => true
  | _ => false
  end.

End WithImage.

Arguments filename {Image} _.
Arguments tag {Image} _.
Arguments contents {Image} _.
Arguments dbPath {Image} _.
Arguments live {Image} _.
Arguments backups {Image} _.
Arguments mkDb {Image} _ _ _.
Arguments mkBackupFile {Image} _ _ _.
Arguments inMemory {Image} _.
Arguments pruneBackups {Image} _.
Arguments listBackups {Image} _.
Arguments resolveTarget {Image} _ _.
Arguments backupDb {Image} backupName db now tag'.
Arguments restoreDb {Image} db target.
Arguments step {Image} backupName db r.
Arguments run {Image} backupName db rs.
Arguments created {Image} backupName db r.
Arguments createdBy {Image} backupName db rs.
Arguments Commit {Image} _.
Arguments CreateBackup {Image} _ _.
Arguments RestoreBackup {Image} _.
Arguments isCreate {Image} _.

End Backup.

(* ===================================================================== *)
(** ** Vocabulary for the statements *)
(* ===================================================================== *)

(** [nodeAt t k t']: the rendered node [t'] sits [k] levels below the top of
    the rendered tree [t]. *)
Inductive nodeAt : NodeTree -> nat -> NodeTree -> Prop :=
| nodeAt_top : forall t, nodeAt t 0 t
| nodeAt_child : forall t kids c k t',
    nt_children t = Some kids -> In c kids -> nodeAt c k t' ->
    nodeAt t (S k) t'.

(** The same for the trees of the [tree] tool. *)
Inductive treeNodeAt : TreeProgress.TreeNode -> nat -> TreeProgress.TreeNode -> Prop :=
| treeNodeAt_top : forall t, treeNodeAt t 0 t
| treeNodeAt_child : forall t kids c k t',
    TreeProgress.tn_children t = Some kids -> In c kids -> treeNodeAt c k t' ->
    treeNodeAt t (S k) t'.

(** A rendered node as the older revision would show it: the progress
    annotation is dropped, everything else is kept. *)
Fixpoint eraseProgress (t : TreeProgress.TreeNode) : TreePlain.TreeNode :=
  match t with
  | TreeProgress.mkTreeNode i sm r props _ kids count =>
      TreePlain.mkTreeNode i sm r props
        (match kids with
         | Some l => Some (map eraseProgress l)
         | None => None
         end)
        count
  end.

Definition eraseResult (r : TreeProgress.TreeResult) : TreePlain.TreeResult :=
  {| TreePlain.tr_project := TreeProgress.tr_project r;
     TreePlain.tr_tree := eraseProgress (TreeProgress.tr_tree r);
     TreePlain.tr_stats := TreeProgress.tr_stats r |}.

(** The boundary checks of a handler, in the order it makes them. *)
Inductive helper : Type :=
| RequireString
| OptionalString
| RequireArray
| OptionalArray
| OptionalNumber (min max : option number)
| OptionalBoolean
| RequireObject.

Definition thrown {A : Type} (m : outcome A) : option error :=
  match m with
  | Throw e => Some e
  | _ => None
  end.

(** The error with which helper [h] rejects [v] for the field [field]. *)
Definition rejects {RT : Runtime} (h : helper) (v : value) (field : string)
  : option error :=
  match h with
  | RequireString => thrown (requireString v field)
  | OptionalString => thrown (optionalString v field)
  | RequireArray => thrown (requireArray v field)
  | OptionalArray => thrown (optionalArray v field)
  | OptionalNumber min max => thrown (optionalNumber v field min max)
  | OptionalBoolean => thrown (optionalBoolean v field)
  | RequireObject => thrown (requireObject v field)
  end.

Fixpoint firstRejection {RT : Runtime} (checks : list (helper * value * string))
  : option error :=
  match checks with
  | [] => None
  | (h, v, field) :: rest =>
      match rejects h v field with
      | Some e => Some e
      | None => firstRejection rest
      end
  end.

Definition contextChecks (input : value) : list (helper * value * string) :=
  [ (RequireString, getProp input "node_id", "node_id");
    (OptionalNumber (Some (Fin 0)) (Some (Fin 10)), getProp input "depth", "depth") ].

Definition openChecks (input : value) : list (helper * value * string) :=
  [ (OptionalString, getProp input "project", "project");
    (OptionalString, getProp input "goal", "goal") ].

Definition treeChecks (input : value) : list (helper * value * string) :=
  [ (RequireString, getProp input "project", "project");
    (OptionalNumber (Some (Fin 1)) (Some (Fin 20)), getProp input "depth", "depth") ].

(** What the [context] tool shows of a stored node at level [level] of a
    tree cut at [maxDepth]: the node's own columns; below the cut its
    children, at or beyond it their number, and neither when it has none. *)
Definition rendered (s : Store) (maxDepth : number) (level : nat) (t : NodeTree)
  : Prop :=
  exists n,
    getNode s (nt_id t) = Some n /\
    nt_summary t = summary n /\
    nt_resolved t = resolved n /\
    nt_state t = state n /\
    match getChildren s (nt_id t) with
    | [] => nt_children t = None /\ nt_child_count t = None
    | kids =>
        if belowDepth level maxDepth
        then nt_child_count t = None /\
             exists built, nt_children t = Some built /\ map nt_id built = map id kids
        else nt_children t = None /\ nt_child_count t = Some (List.length kids)
    end.

(** [hops s k i]: the node id reached from [i] after [k] steps along parent
    references, if the chain is that long. *)
Fixpoint hops (s : Store) (k : nat) (nodeId : string) : option string :=
  match k with
  | O => Some nodeId
  | S k' =>
      match getNode s nodeId with
      | Some n =>
          match parent n with
          | Some p => hops s k' p
          | None => None
          end
      | None => None
      end
  end.

(** The ids met on the first [k] steps of that chain, [nodeId] first. *)
Fixpoint trail (s : Store) (k : nat) (nodeId : string) : list string :=
  match k with
  | O => []
  | S k' =>
      nodeId ::
      match getNode s nodeId with
      | Some n =>
          match parent n with
          | Some p => trail s k' p
          | None => []
          end
      | None => []
      end
  end.

(** [descendsFrom s top i]: [i] is [top] or a descendant of [top] in the
    parent relation of [s]. *)
Inductive descendsFrom (s : Store) (top : string) : string -> Prop :=
| descends_self : descendsFrom s top top
| descends_child : forall i n p,
    getNode s i = Some n -> parent n = Some p -> descendsFrom s top p ->
    descendsFrom s top i.

(* ===================================================================== *)
(** ** A small graph to run the tools on *)
(* ===================================================================== *)

Module Demo.

Definition showZ (z : Z) : string := NilZero.string_of_int (Z.to_int z).

(** Prints integral numbers in decimal and other fractions as a quotient. *)
Definition runtime : Runtime :=
  {| showNumber := fun n =>
       match n with
       | NaN => "NaN"
       | PosInf => "Infinity"
       | NegInf => "-Infinity"
       | Fin q =>
           if Pos.eqb (Qden q) 1 then showZ (Qnum q)
           else showZ (Qnum q) ++ "/" ++ showZ (Zpos (Qden q))
       end |}.

Definition countIn (s : Store) (p : string) (keep : Node -> bool) : Z :=
  Z.of_nat (List.length (filter (fun n => String.eqb (project n) p && keep n) (nodes s))).

(** One way to answer the queries the tools pass through.  The subtree
    progress counts the node with its descendants, as the running count of
    [buildTree] does for a node it renders. *)
Definition queries : NodeQueries :=
  {| listProjects := fun s =>
       map (fun r =>
              {| pe_project := project r;
                 pe_id := id r;
                 pe_summary := summary r;
                 pe_total := countIn s (project r) (fun _ => true);
                 pe_resolved := countIn s (project r) resolved;
                 pe_unresolved := countIn s (project r) (fun n => negb (resolved n));
                 pe_updated_at := "" |})
           (filter (fun n => isNone (parent n)) (nodes s));
     getProjectSummary := fun s p =>
       {| ps_total := countIn s p (fun _ => true);
          ps_resolved := countIn s p resolved;
          ps_unresolved := countIn s p (fun n => negb (resolved n));
          ps_blocked := 0;
          ps_actionable := 0 |};
     getSubtreeProgress := fun s nodeId =>
       {| p_resolved :=
            Z.of_nat (List.length (filter resolved (subtreeNodes s nodeId)));
          p_total := Z.of_nat (List.length (subtreeNodes s nodeId)) |};
     newId := fun s => "n" ++ showZ (Z.of_nat (List.length (nodes s))) |}.


Definition node (i : string) (up : option string) (done : bool) : Node :=
  {| id := i;
     project := "demo";
     parent := up;
     summary := "task " ++ i;
     resolved := done;
     state := VNull;
     properties := [];
     discovery := None;
     created_by := "agent" |}.

(** root r; r has children a and b; a has child c; c has child d.
    b depends on a, a depends on c. *)
Definition store : Store :=
  {| nodes := [ node "r" None false;
                node "a" (Some "r") false;
                node "b" (Some "r") false;
                node "c" (Some "a") true;
                node "d" (Some "c") true ];
     edges := [ {| from_node := "b"; to_node := "a"; type := "depends_on" |};
                {| from_node := "a"; to_node := "c"; type := "depends_on" |};
                {| from_node := "b"; to_node := "d"; type := "relates_to" |} ] |}.


Definition contextInput (nodeId : string) (depth : Q) : value :=
  VObject [("node_id", VString nodeId); ("depth", VNumber (Fin depth))].

Definition treeInput (p : string) (depth : Q) : value :=
  VObject [("project", VString p); ("depth", VNumber (Fin depth))].

Definition db (path : string) (files : list (Backup.BackupFile string))
  : Backup.Db string :=
  Backup.mkDb path "live image" files.

(** [graph-<timestamp>-<tag>.db] *)
Definition backupName (now tag : string) : string :=
  "graph-" ++ now ++ "-" ++ tag ++ ".db".

Definition twelve : list (Backup.request string) :=
  map (fun i => Backup.CreateBackup ("t" ++ showZ i) ("test-" ++ showZ i))
      [0; 1; 2; 3; 4; 5; 6; 7; 8; 9; 10; 11].

End Demo.

(* ===================================================================== *)
(** ** Further vocabulary: rendered trees and project roots *)
(* ===================================================================== *)

(** The nodes a [tree] answer shows, parents before children. *)
Fixpoint shownNodes (t : TreePlain.TreeNode) : list TreePlain.TreeNode :=
  match t with
  | TreePlain.mkTreeNode _ _ _ _ kids _ =>
      t :: match kids with
           | Some l => flat_map shownNodes l
           | None => []
           end
  end.

(** What a rendered node contributes to its parent's progress: its own
    progress when it carries one, and itself alone when it is a leaf. *)
Definition subtotalOf (t : TreeProgress.TreeNode) : Z :=
  match TreeProgress.tn_progress t with
  | Some p => p_total p
  | None => 1
  end.

Definition subresolvedOf (t : TreeProgress.TreeNode) : Z :=
  match TreeProgress.tn_progress t with
  | Some p => p_resolved p
  | None => if TreeProgress.tn_resolved t then 1 else 0
  end.

Definition sumZ (l : list Z) : Z := fold_right Z.add 0 l.

(** The stored roots of a project. *)
Definition rootsOf (s : Store) (p : string) : list Node :=
  filter (fun n => String.eqb (project n) p && isNone (parent n)) (nodes s).

(** A request object with a node id and possibly a depth. *)
Definition contextRequest (nodeId : value) (depth : value) : value :=
  VObject [("node_id", nodeId); ("depth", depth)].

Definition treeRequest (p : value) (depth : value) : value :=
  VObject [("project", p); ("depth", depth)].

(** White space at the two ends of a string. *)
Definition startsWithWhiteSpace (s : string) : bool :=
  match s with
  | EmptyString => false
  | String c _ => isWhiteSpace c
  end.

Fixpoint endsWithWhiteSpace (s : string) : bool :=
  match s with
  | EmptyString => false
  | String c EmptyString => isWhiteSpace c
  | String _ rest => endsWithWhiteSpace rest
  end.

(* ===================================================================== *)
(** ** license.ts, activate.ts, tools/agent-config.ts *)
(* ===================================================================== *)

(** [s.startsWith(p)] *)
Fixpoint startsWith (s p : string) : bool :=
  match p with
  | EmptyString => true
  | String c p' =>
      match s with
      | EmptyString => false
      | String d s' => Ascii.eqb c d && startsWith s' p'
      end
  end.

(** [s.slice(n)] for [0 <= n]. *)
Fixpoint sliceFrom (n : nat) (s : string) : string :=
  match n with
  | O => s
  | S n' =>
      match s with
      | EmptyString => EmptyString
      | String _ s' => sliceFrom n' s'
      end
  end.

(** [s.split(sep)] for a one-character separator; never an empty array. *)
Fixpoint splitOn (sep : ascii) (s : string) : list string :=
  match s with
  | EmptyString => [EmptyString]
  | String c rest =>
      if Ascii.eqb c sep then EmptyString :: splitOn sep rest
      else
        match splitOn sep rest with
        | part :: parts => String c part :: parts
        | [] => [String c EmptyString]
        end
  end.

Fixpoint hasChar (c : ascii) (s : string) : bool :=
  match s with
  | EmptyString => false
  | String d rest => Ascii.eqb d c || hasChar c rest
  end.

Definition KEY_PREFIX : string := "graph_".

Definition dot : ascii := "."%char.

(** [key.startsWith(KEY_PREFIX) ? key.slice(KEY_PREFIX.length) : key] *)
Definition stripPrefix (key : string) : string :=
  if startsWith key KEY_PREFIX then sliceFrom (String.length KEY_PREFIX) key else key.

(** activate.ts *)
Definition validateKeyFormat (key : string) : bool :=
  let raw := stripPrefix key in
  let parts := splitOn dot raw in
  (List.length parts =? 3)%nat && forallb (fun p => (0 <? String.length p)%nat) parts.

Inductive Tier : Type := Free | Pro.

Record LicenseInfo : Type := mkLicenseInfo {
  li_tier : Tier;
  li_exp : value;
  li_sub : value
}.

(** The process environment and the files the code reads.  What is at a
    path: nothing, a file that can be read, or something that is there and
    cannot be read as a file (a directory, a file without read permission). *)
Inductive FileState : Type :=
| Missing
| File (content : string)
| Unreadable.

Record Env : Type := mkEnv {
  GRAPH_LICENSE_PUBLIC_KEY : option string;
  GRAPH_LICENSE : option string;
  dateNow : Z;
  files : string -> FileState
}.

(** What the host provides to the license code: Ed25519 verification of the
    signed data under the configured public key, the decoding of the
    payload ([JSON.parse] of the base64url text), the conversion of a string
    or object to a number, the date part of an ISO timestamp, the two
    license paths, the directory of the global one ([join(homedir(),
    ".graph")]), and the agent prompt text.  [None] stands for a thrown
    exception.

    The host also answers the two calls that change the file system, in the
    state they are made in.  [mkdir env dir], for [mkdirSync(dir,
    {recursive: true})]: the directories that come into being (the directory
    and its missing ancestors, or those made before the call failed) and
    whether the call returns.  [failedWrite env path content], for
    [writeFileSync(path, content, "utf8")]: [None] when the call returns,
    and, when it throws, what it leaves at the path. *)
Class LicenseHost : Type := {
  verifySignature : string -> string -> string -> option bool;
  decodePayload : string -> option value;
  coerceToNumber : value -> number;
  isoDate : Q -> string;
  globalLicensePath : string;
  globalLicenseDir : string;
  localLicensePath : string -> string;
  AGENT_PROMPT : string;
  mkdir : Env -> string -> list string * bool;
  failedWrite : Env -> string -> string -> option FileState
}.

(** The machine with [st] at [path]. *)
Definition setFile (env : Env) (path : string) (st : FileState) : Env :=
  {| GRAPH_LICENSE_PUBLIC_KEY := GRAPH_LICENSE_PUBLIC_KEY env;
     GRAPH_LICENSE := GRAPH_LICENSE env;
     dateNow := dateNow env;
     files := fun p => if String.eqb p path then st else files env p |}.

(** [mkdirSync(dir, {recursive: true})]: the machine afterwards, and whether
    the call returned.  A new directory shows where nothing was. *)
Definition mkdirSync {LH : LicenseHost} (env : Env) (dir : string) : Env * bool :=
  ({| GRAPH_LICENSE_PUBLIC_KEY := GRAPH_LICENSE_PUBLIC_KEY env;
      GRAPH_LICENSE := GRAPH_LICENSE env;
      dateNow := dateNow env;
      files := fun p =>
        match files env p with
        | Missing =>
            if existsb (String.eqb p) (fst (mkdir env dir)) then Unreadable
            else Missing
        | st => st
        end |},
   snd (mkdir env dir)).

(** [writeFileSync(path, content, "utf8")]: the machine afterwards, and
    whether the call returned. *)
Definition writeFileSync {LH : LicenseHost} (env : Env) (path content : string)
  : Env * bool :=
  match failedWrite env path content with
  | None => (setFile env path (File content), true)
  | Some remains => (setFile env path remains, false)
  end.

(** [ToBoolean] *)
Definition truthyValue (v : value) : bool :=
  match v with
  | VUndefined | VNull => false
  | VBool b => b
  | VNumber NaN => false
  | VNumber (Fin q) => negb (Qeq_bool q 0)
  | VNumber _ => true
  | VString s => negb (String.length s =? 0)%nat
  | VArray _ | VObject _ => true
  end.

(** [ToNumber] *)
Definition toNumber {LH : LicenseHost} (v : value) : number :=
  match v with
  | VUndefined => NaN
  | VNull => Fin 0
  | VBool true => Fin 1
  | VBool false => Fin 0
  | VNumber n => n
  | _ => coerceToNumber v
  end.

(** [obj.key] without optional chaining: a [TypeError] on [null] and
    [undefined], [undefined] on the other values that are not objects. *)
Definition member (obj : value) (key : string) : option value :=
  match obj with
  | VUndefined | VNull => None
  | VObject fields => Some (lookupField key fields)
  | _ => Some VUndefined
  end.

(** [v === text] for a string literal [text]. *)
Definition isString (v : value) (text : string) : bool :=
  match v with
  | VString s => String.eqb s text
  | _ => false
  end.

Definition existsSync (env : Env) (path : string) : bool :=
  match files env path with
  | Missing => false
  | _ => true
  end.

(** [process.env.GRAPH_LICENSE_PUBLIC_KEY ?? ""] *)
Definition PUBLIC_KEY (env : Env) : string := orElse (GRAPH_LICENSE_PUBLIC_KEY env) "".

(** The same machine when [Date.now()] answers [later]. *)
Definition atTime (env : Env) (later : Z) : Env :=
  {| GRAPH_LICENSE_PUBLIC_KEY := GRAPH_LICENSE_PUBLIC_KEY env;
     GRAPH_LICENSE := GRAPH_LICENSE env;
     dateNow := later;
     files := files env |}.

Section License.
Context {LH : LicenseHost}.

Definition verifyLicenseKey (env : Env) (key : option string) : option LicenseInfo :=
  match truthy key with
  | None => None
  | Some key =>
      if (String.length (PUBLIC_KEY env) =? 0)%nat then None
      else
        let raw := stripPrefix key in
        match splitOn dot raw with
        | [headerB64; payloadB64; signatureB64] =>
            match verifySignature (headerB64 ++ "." ++ payloadB64)
                                  (PUBLIC_KEY env) signatureB64 with
            | Some true =>
                match decodePayload payloadB64 with
                | Some payload =>
                    let now := (dateNow env / 1000)%Z in
                    match member payload "exp", member payload "tier",
                          member payload "sub" with
                    | Some exp, Some tier, Some sub =>
                        if truthyValue exp && num_ltb (toNumber exp) (Fin (inject_Z now))
                        then None
                        else
                          Some {| li_tier := if isString tier "pro" then Pro else Free;
                                  li_exp := exp;
                                  li_sub := sub |}
                    | _, _, _ => None
                    end
                | None => None
                end
            | _ => None
            end
        | _ => None
        end
  end.

Definition readLicenseKey (env : Env) (dbPath : option string) : option string :=
  match truthy (GRAPH_LICENSE env) with
  | Some envKey => Some (trim envKey)
  | None =>
      match files env globalLicensePath with
      | File content => Some (trim content)
      | Unreadable => None
      | Missing =>
          match truthy dbPath with
          | Some path =>
              match files env (localLicensePath path) with
              | File content => Some (trim content)
              | _ => None
              end
          | None => None
          end
      end
  end.

Definition getLicenseTier (env : Env) (dbPath : option string) : Tier :=
  match verifyLicenseKey env (readLicenseKey env dbPath) with
  | Some info => li_tier info
  | None => Free
  end.

Record AgentConfigResult : Type := mkAgentConfigResult {
  agent_file : string;
  install_path : string;
  instructions : string
}.

Definition handleAgentConfig (env : Env) (dbPath : option string)
  : outcome AgentConfigResult :=
  match getLicenseTier env dbPath with
  | Pro =>
      Ok {| agent_file := AGENT_PROMPT;
            install_path := ".claude/agents/graph.md";
            instructions :=
              "Save the agent_file content to .claude/agents/graph.md in your project root. "
              ++ "Claude Code will automatically discover it and use it when tasks match the agent description." |}
  | Free =>
      Throw (EngineError "free_tier_limit"
               "The graph-optimized agent configuration is a pro feature. Activate a license key to unlock it.")
  end.

(** The lines [activate] prints, by template. *)
Inductive Line : Type :=
| UsageLine
| InvalidFormatLine
| VerifiedLine (tier : Tier) (expDate : string)
| VerificationFailedLine
| SavedLine (path : string)
| StoredUnverifiedLine.

(** How a run of the command ends: it returns, [process.exit(code)] stops
    it, or an exception escapes (the [RangeError] of an invalid date, or what
    [mkdirSync] or [writeFileSync] throws). *)
Inductive Ending : Type :=
| Returned
| Exited (exitCode : Z)
| Crashed.

Record Run : Type := mkRun {
  env_after : Env;
  stdout : list Line;
  stderr : list Line;
  ending : Ending
}.

(** [new Date(exp * 1000).toISOString().split("T")[0]]: the date part, or
    [None] for the [RangeError] of an invalid date (a time value that is not
    a number or lies outside the 8.64e15 ms either side of the epoch). *)
Definition expiryDate (exp : value) : option string :=
  match toNumber exp with
  | Fin q =>
      let ms := (q * 1000)%Q in
      if Qle_bool (- 8640000000000000) ms && Qle_bool ms 8640000000000000
      then Some (isoDate ms)
      else None
  | _ => None
  end.

Definition activate (env : Env) (key : option string) : Run :=
  match truthy key with
  | None =>
      {| env_after := env; stdout := []; stderr := [UsageLine]; ending := Exited 1 |}
  | Some key =>
      if negb (validateKeyFormat key)
      then {| env_after := env; stdout := []; stderr := [InvalidFormatLine];
              ending := Exited 1 |}
      else
        let info := verifyLicenseKey env (Some key) in
        let store (out : list Line) :=
          let made := mkdirSync env globalLicenseDir in
          if snd made then
            let written := writeFileSync (fst made) globalLicensePath key in
            if snd written then
              {| env_after := fst written;
                 stdout := (out ++ [SavedLine globalLicensePath]
                            ++ (if isNone info then [StoredUnverifiedLine] else []))%list;
                 stderr := [];
                 ending := Returned |}
            else
              {| env_after := fst written; stdout := out; stderr := [];
                 ending := Crashed |}
          else
            {| env_after := fst made; stdout := out; stderr := [];
               ending := Crashed |} in
        match info with
        | Some i =>
            match expiryDate (li_exp i) with
            | Some expDate => store [VerifiedLine (li_tier i) expDate]
            | None =>
                {| env_after := env; stdout := []; stderr := []; ending := Crashed |}
            end
        | None =>
            if isNone (truthy (GRAPH_LICENSE_PUBLIC_KEY env))
            then store []
            else {| env_after := env; stdout := [];
                    stderr := [VerificationFailedLine]; ending := Exited 1 |}
        end
  end.

(** The key passes the checks of [activate] that come before the file
    system is touched; [out] is what has been printed by then. *)
Definition passes (env : Env) (k : string) (out : list Line) : Prop :=
  validateKeyFormat k = true /\
  ((exists i d,
       verifyLicenseKey env (Some k) = Some i /\ expiryDate (li_exp i) = Some d /\
       out = [VerifiedLine (li_tier i) d]) \/
   (verifyLicenseKey env (Some k) = None /\
    truthy (GRAPH_LICENSE_PUBLIC_KEY env) = None /\ out = [])).

End License.

(** A host for running the license code on examples: the signature ["sig"]
    verifies over any data under the key ["PUB"], and the payload text
    ["pro"] decodes to a pro license expiring at second 2000.  A directory
    is made together with the missing directories above it, unless a file
    is in the place of one of them; a file is written when the directories
    above it are there and no directory is in its place, and a write that
    fails changes nothing. *)
Module DemoLicense.

(** The directories above a path, outermost first: [/a] and [/a/b] for
    [/a/b/c]. *)
Fixpoint parentsFrom (before rest : string) : list string :=
  match rest with
  | EmptyString => []
  | String c rest' =>
      let more := parentsFrom (before ++ String c EmptyString) rest' in
      if Ascii.eqb c "/" && negb (String.eqb before EmptyString)
      then before :: more else more
  end.

Definition parents (path : string) : list string := parentsFrom EmptyString path.

Definition isFile (env : Env) (path : string) : bool :=
  match files env path with File _ => true | _ => false end.

Definition isMissing (env : Env) (path : string) : bool :=
  match files env path with Missing => true | _ => false end.

Definition isDirectory (env : Env) (path : string) : bool :=
  match files env path with Unreadable => true | _ => false end.

Definition host : LicenseHost :=
  {| verifySignature := fun _ publicKey signature =>
       if String.eqb publicKey "PUB" then Some (String.eqb signature "sig") else None;
     decodePayload := fun text =>
       if String.eqb text "pro"
       then Some (VObject [("tier", VString "pro"); ("exp", VNumber (Fin 2000));
                           ("sub", VString "someone")])
       else if String.eqb text "free"
       then Some (VObject [("tier", VString "free")])
       else None;
     coerceToNumber := fun _ => NaN;
     isoDate := fun _ => "1970-01-24";
     globalLicensePath := "/home/u/.graph/license";
     globalLicenseDir := "/home/u/.graph";
     localLicensePath := fun dbPath => dbPath ++ ".dir/license";
     AGENT_PROMPT := "prompt";
     mkdir := fun env dir =>
       let chain := (parents dir ++ [dir])%list in
       if existsb (isFile env) chain then ([], false)
       else (filter (isMissing env) chain, true);
     failedWrite := fun env path _ =>
       if isDirectory env path
          || negb (forallb (isDirectory env) (parents path))
       then Some (files env path)
       else None |}.

Definition noFiles : string -> FileState := fun _ => Missing.

(** A machine with the public key configured, at second 1000. *)
Definition env : Env :=
  {| GRAPH_LICENSE_PUBLIC_KEY := Some "PUB";
     GRAPH_LICENSE := None;
     dateNow := 1000000;
     files := noFiles |}.

End DemoLicense.

(* ===================================================================== *)
(** ** The dashboard: App.tsx *)
(* ===================================================================== *)

Module Ui.

Record Assumption : Type := mkAssumption {
  as_id : string;
  as_text : string;
  as_status : string;
  as_response : option string
}.

Record Decision : Type := mkDecision {
  de_id : string;
  de_question : string;
  de_status : string;
  de_answer : option string;
  de_rationale : option string
}.

Record EdgeCase : Type := mkEdgeCase {
  ec_id : string;
  ec_case : string;
  ec_scope : option string;
  ec_handling : option string
}.

Record DodItem : Type := mkDodItem {
  dd_id : string;
  dd_criterion : string;
  dd_met : option bool
}.

(** [DiscoveryArtifacts]: every list is optional. *)
Record DiscoveryArtifacts : Type := mkDiscoveryArtifacts {
  assumptions : option (list Assumption);
  decisions : option (list Decision);
  edge_cases : option (list EdgeCase);
  definition_of_done : option (list DodItem)
}.

(** The fields of [NodeData] that the functions below read; of
    [properties] these are [discovery_artifacts] and [priority]. *)
Record NodeData : Type := mkNodeData {
  id : string;
  summary : string;
  resolved : bool;
  blocked : bool;
  blocked_reason : option string;
  discovery_artifacts : option DiscoveryArtifacts;
  priority : value;
  parent : option string;
  project : string;
  updated_at : string
}.

Inductive TreeNode : Type := mkTreeNode {
  data : NodeData;
  children : option (list TreeNode)
}.

(** *** buildTree: from the flat node list to the forest

    The function keeps one object per id in a [Map] and links the objects by
    pushing references into [children] arrays.  An object is identified here
    by its key; the arena holds, per key, the node data and the references
    pushed so far. *)

Definition Arena : Type := list (string * (NodeData * list string)).

(** [map.set(key, v)]: replaces the value of an existing key in place,
    appends a new key. *)
Fixpoint mapSet (m : Arena) (key : string) (v : NodeData * list string) : Arena :=
  match m with
  | [] => [(key, v)]
  | (k, old) :: rest =>
      if String.eqb k key then (k, v) :: rest else (k, old) :: mapSet rest key v
  end.

Fixpoint mapGet (m : Arena) (key : string) : option (NodeData * list string) :=
  match m with
  | [] => None
  | (k, v) :: rest => if String.eqb k key then Some v else mapGet rest key
  end.

Definition mapHas (m : Arena) (key : string) : bool :=
  match mapGet m key with
  | Some _ => true
  | None => false
  end.

(** [map.get(key)!.children!.push(ref)] *)
Fixpoint pushChild (m : Arena) (key : string) (ref : string) : Arena :=
  match m with
  | [] => []
  | (k, (d, kids)) :: rest =>
      if String.eqb k key then (k, (d, (kids ++ [ref])%list)) :: rest
      else (k, (d, kids)) :: pushChild rest key ref
  end.

Definition buildTree (nodes : list NodeData) : Arena * list string :=
  let map :=
    fold_left (fun m n => mapSet m (id n) (n, [])) nodes [] in
  fold_left
    (fun (st : Arena * list string) n =>
       let '(m, roots) := st in
       let treeNode := id n in
       match truthy (parent n) with
       | Some p =>
           if mapHas m p then (pushChild m p treeNode, roots)
           else (m, (roots ++ [treeNode])%list)
       | None => (m, (roots ++ [treeNode])%list)
       end)
    nodes (map, []).

(** *** Discovery phases *)

Inductive DiscoveryPhase : Type :=
| raw
| decomposed
| in_review
| deciding
| ready.

Definition computeDiscoveryPhase (node : NodeData) : DiscoveryPhase :=
  match discovery_artifacts node with
  | None => raw
  | Some artifacts =>
      let assumptions := orElse (assumptions artifacts) [] in
      let decisions := orElse (decisions artifacts) [] in
      let edgeCases := orElse (edge_cases artifacts) [] in
      let dod := orElse (definition_of_done artifacts) [] in
      if existsb (fun d => String.eqb (de_status d) "open") decisions then deciding
      else if (0 <? List.length assumptions)%nat
              && existsb (fun a => String.eqb (as_status a) "untested") assumptions
      then decomposed
      else
        let unscopedEdges := existsb (fun e => isNone (ec_scope e)) edgeCases in
        let unmetDod :=
          (List.length dod =? 0)%nat || existsb (fun d => isNone (dd_met d)) dod in
        if (0 <? List.length assumptions)%nat && (unscopedEdges || unmetDod)
        then in_review
        else if (0 <? List.length assumptions)%nat then ready
        else raw
  end.

Definition phaseLabel (phase : DiscoveryPhase) : string :=
  match phase with
  | raw => "raw"
  | decomposed => "decomposed"
  | in_review => "in review"
  | deciding => "deciding"
  | ready => "ready"
  end.

Definition phaseOrder (phase : DiscoveryPhase) : Z :=
  match phase with
  | deciding => 0
  | in_review => 1
  | decomposed => 2
  | raw => 3
  | ready => 4
  end.

(** *** Aggregation *)

(** [collectDescendants]: [walk n] pushes each child and then walks it; the
    array being filled is passed along. *)
Fixpoint walk (n : TreeNode) (result : list TreeNode) : list TreeNode :=
  match n with
  | mkTreeNode _ kids =>
      match kids with
      | Some l => fold_left (fun acc child => walk child (acc ++ [child])%list) l result
      | None => result
      end
  end.

Definition collectDescendants (node : TreeNode) : list TreeNode := walk node [].

Record OpenDecision : Type := mkOpenDecision {
  od_decision : Decision;
  od_nodeId : string;
  od_nodeSummary : string
}.

Record UntestedAssumption : Type := mkUntestedAssumption {
  ua_assumption : Assumption;
  ua_nodeId : string;
  ua_nodeSummary : string
}.

Record UnscopedEdgeCase : Type := mkUnscopedEdgeCase {
  ue_edge_case : EdgeCase;
  ue_nodeId : string;
  ue_nodeSummary : string
}.

Record UnconfirmedDod : Type := mkUnconfirmedDod {
  ud_item : DodItem;
  ud_nodeId : string;
  ud_nodeSummary : string
}.

Record BlockedNode : Type := mkBlockedNode {
  bn_id : string;
  bn_summary : string;
  bn_reason : option string
}.

Record StaleNode : Type := mkStaleNode {
  sn_id : string;
  sn_summary : string;
  sn_daysSince : Z
}.

Record PhaseCounts : Type := mkPhaseCounts {
  count_raw : Z;
  count_decomposed : Z;
  count_in_review : Z;
  count_deciding : Z;
  count_ready : Z
}.

(** [phaseCounts[phase]++] *)
Definition bump (counts : PhaseCounts) (phase : DiscoveryPhase) : PhaseCounts :=
  match phase with
  | raw => mkPhaseCounts (count_raw counts + 1) (count_decomposed counts)
             (count_in_review counts) (count_deciding counts) (count_ready counts)
  | decomposed => mkPhaseCounts (count_raw counts) (count_decomposed counts + 1)
             (count_in_review counts) (count_deciding counts) (count_ready counts)
  | in_review => mkPhaseCounts (count_raw counts) (count_decomposed counts)
             (count_in_review counts + 1) (count_deciding counts) (count_ready counts)
  | deciding => mkPhaseCounts (count_raw counts) (count_decomposed counts)
             (count_in_review counts) (count_deciding counts + 1) (count_ready counts)
  | ready => mkPhaseCounts (count_raw counts) (count_decomposed counts)
             (count_in_review counts) (count_deciding counts) (count_ready counts + 1)
  end.

Record IntentSummary : Type := mkIntentSummary {
  node : TreeNode;
  progress : Progress;
  worstPhase : DiscoveryPhase;
  phaseCounts : PhaseCounts;
  openDecisions : list OpenDecision;
  untestedAssumptions : list UntestedAssumption;
  unscopedEdgeCases : list UnscopedEdgeCase;
  unconfirmedDod : list UnconfirmedDod;
  blockedNodes : list BlockedNode;
  staleNodes : list StaleNode;
  intentPriority : value;
  intentProject : string;
  updatedAt : string
}.

(** The clock of the browser: for a timestamp text, the value of
    [(Date.now() - new Date(text).getTime()) / (1000 * 60 * 60 * 24)], or
    [None] when that is [NaN]. *)
Class Clock : Type := {
  daysSince : string -> option Q
}.

(** [Math.round] *)
Definition mathRound (q : Q) : Z := Qfloor (q + (1 # 2)).

(** The variables the loop of [aggregateIntent] updates. *)
Record Loop : Type := mkLoop {
  l_worstPhase : DiscoveryPhase;
  l_phaseCounts : PhaseCounts;
  l_openDecisions : list OpenDecision;
  l_untestedAssumptions : list UntestedAssumption;
  l_unscopedEdgeCases : list UnscopedEdgeCase;
  l_unconfirmedDod : list UnconfirmedDod;
  l_blockedNodes : list BlockedNode;
  l_staleNodes : list StaleNode
}.

(** One stable insertion step of [staleNodes.sort((a, b) => b.daysSince -
    a.daysSince)]: [x] goes behind every entry that is not smaller. *)
Fixpoint insertStale (x : StaleNode) (sorted : list StaleNode) : list StaleNode :=
  match sorted with
  | [] => [x]
  | y :: rest =>
      if (sn_daysSince y <? sn_daysSince x)%Z then x :: sorted
      else y :: insertStale x rest
  end.

Definition sortStale (l : list StaleNode) : list StaleNode :=
  fold_left (fun sorted x => insertStale x sorted) l [].

Section Aggregate.
Context {CK : Clock}.

(** The body of [for (const n of allNodes) { ... }]. *)
Definition loopBody (st : Loop) (tn : TreeNode) : Loop :=
  let n := data tn in
  if resolved n then st
  else
    let phase := computeDiscoveryPhase n in
    let counts := bump (l_phaseCounts st) phase in
    let worst :=
      if (phaseOrder phase <? phaseOrder (l_worstPhase st))%Z
      then phase else l_worstPhase st in
    let blockedNodes :=
      if blocked n
      then (l_blockedNodes st ++ [mkBlockedNode (id n) (summary n) (blocked_reason n)])%list
      else l_blockedNodes st in
    let staleNodes :=
      match daysSince (updated_at n) with
      | Some age =>
          if Qle_bool age 3 then l_staleNodes st
          else (l_staleNodes st ++ [mkStaleNode (id n) (summary n) (mathRound age)])%list
      | None => l_staleNodes st
      end in
    match discovery_artifacts n with
    | None =>
        mkLoop worst counts (l_openDecisions st) (l_untestedAssumptions st)
          (l_unscopedEdgeCases st) (l_unconfirmedDod st) blockedNodes staleNodes
    | Some artifacts =>
        let shortName := substring 0 40 (summary n) in
        mkLoop worst counts
          (l_openDecisions st ++
           map (fun d => mkOpenDecision d (id n) shortName)
               (filter (fun d => String.eqb (de_status d) "open")
                       (orElse (decisions artifacts) [])))%list
          (l_untestedAssumptions st ++
           map (fun a => mkUntestedAssumption a (id n) shortName)
               (filter (fun a => String.eqb (as_status a) "untested")
                       (orElse (assumptions artifacts) [])))%list
          (l_unscopedEdgeCases st ++
           map (fun e => mkUnscopedEdgeCase e (id n) shortName)
               (filter (fun e => isNone (ec_scope e))
                       (orElse (edge_cases artifacts) [])))%list
          (l_unconfirmedDod st ++
           map (fun d => mkUnconfirmedDod d (id n) shortName)
               (filter (fun d => isNone (dd_met d))
                       (orElse (definition_of_done artifacts) [])))%list
          blockedNodes staleNodes
    end.

Definition aggregateIntent (intentNode : TreeNode) (project' : string) : IntentSummary :=
  let descendants := collectDescendants intentNode in
  let allNodes := intentNode :: descendants in
  let total := Z.of_nat (List.length allNodes) in
  let resolved' :=
    Z.of_nat (List.length (filter (fun n => resolved (data n)) allNodes)) in
  let st :=
    fold_left loopBody allNodes
      (mkLoop ready (mkPhaseCounts 0 0 0 0 0) [] [] [] [] [] []) in
  let staleNodes := sortStale (l_staleNodes st) in
  let priority' := priority (data intentNode) in
  let updatedAt' :=
    fold_left
      (fun latest n =>
         if String.ltb latest (updated_at (data n)) then updated_at (data n) else latest)
      allNodes (updated_at (data intentNode)) in
  {| node := intentNode;
     progress := {| p_resolved := resolved'; p_total := total |};
     worstPhase := l_worstPhase st;
     phaseCounts := l_phaseCounts st;
     openDecisions := l_openDecisions st;
     untestedAssumptions := l_untestedAssumptions st;
     unscopedEdgeCases := l_unscopedEdgeCases st;
     unconfirmedDod := l_unconfirmedDod st;
     blockedNodes := l_blockedNodes st;
     staleNodes := staleNodes;
     intentPriority := priority';
     intentProject := project';
     updatedAt := updatedAt' |}.

End Aggregate.

Inductive SignalType : Type :=
| blockedSignal
| decisionsSignal
| assumptionsSignal
| reviewSignal
| staleSignal.

(** The signal of an intent: its type, the count in the message, and
    whether the message uses the plural ("s") form. *)
Record Signal : Type := mkSignal {
  sig_type : SignalType;
  sig_count : nat;
  sig_plural : bool
}.

Definition getIntentSignal (intent : IntentSummary) : option Signal :=
  if (0 <? List.length (blockedNodes intent))%nat
  then Some (mkSignal blockedSignal (List.length (blockedNodes intent)) false)
  else if (0 <? List.length (openDecisions intent))%nat
  then let n := List.length (openDecisions intent) in
       Some (mkSignal decisionsSignal n (negb (n =? 1)%nat))
  else if (0 <? List.length (untestedAssumptions intent))%nat
  then let n := List.length (untestedAssumptions intent) in
       Some (mkSignal assumptionsSignal n (negb (n =? 1)%nat))
  else
    let reviewCount :=
      (List.length (unscopedEdgeCases intent) + List.length (unconfirmedDod intent))%nat in
    if (0 <? reviewCount)%nat
    then Some (mkSignal reviewSignal reviewCount (negb (reviewCount =? 1)%nat))
    else if (0 <? List.length (staleNodes intent))%nat
    then Some (mkSignal staleSignal (List.length (staleNodes intent)) false)
    else None.

(** *** Vocabulary for the properties of the dashboard *)

(** [attached nodes n]: [n] names a parent, and some node of the list has
    that id. *)
Definition attached (nodes : list NodeData) (n : NodeData) : bool :=
  match truthy (parent n) with
  | Some p => existsb (fun m => String.eqb (id m) p) nodes
  | None => false
  end.

(** [childOf key n]: [n] names [key] as its parent. *)
Definition childOf (key : string) (n : NodeData) : bool :=
  match truthy (parent n) with
  | Some p => String.eqb p key
  | None => false
  end.

(** The nodes of a tree in preorder. *)
Fixpoint subtree (t : TreeNode) : list TreeNode :=
  match t with
  | mkTreeNode _ kids =>
      t :: match kids with
           | Some l => flat_map subtree l
           | None => []
           end
  end.

(** The unresolved nodes of a list of tree nodes, and of a tree in
    preorder. *)
Definition unresolvedIn (l : list TreeNode) : list NodeData :=
  filter (fun n => negb (resolved n)) (map data l).

Definition unresolvedOf (t : TreeNode) : list NodeData :=
  unresolvedIn (subtree t).

(** The variables of the loop of [aggregateIntent] before its first turn. *)
Definition start : Loop :=
  mkLoop ready (mkPhaseCounts 0 0 0 0 0) [] [] [] [] [] [].

Definition phase_eqb (a b : DiscoveryPhase) : bool :=
  match a, b with
  | raw, raw | decomposed, decomposed | in_review, in_review
  | deciding, deciding | ready, ready => true
  | _, _ => false
  end.

(** [phaseCounts[phase]] *)
Definition countOf (counts : PhaseCounts) (phase : DiscoveryPhase) : Z :=
  match phase with
  | raw => count_raw counts
  | decomposed => count_decomposed counts
  | in_review => count_in_review counts
  | deciding => count_deciding counts
  | ready => count_ready counts
  end.

(** The artifact lists of a node, absent lists read as empty. *)
Definition decisionsOf (n : NodeData) : list Decision :=
  match discovery_artifacts n with
  | Some a => orElse (decisions a) []
  | None => []
  end.

Definition assumptionsOf (n : NodeData) : list Assumption :=
  match discovery_artifacts n with
  | Some a => orElse (assumptions a) []
  | None => []
  end.

Definition edgeCasesOf (n : NodeData) : list EdgeCase :=
  match discovery_artifacts n with
  | Some a => orElse (edge_cases a) []
  | None => []
  end.

Definition dodOf (n : NodeData) : list DodItem :=
  match discovery_artifacts n with
  | Some a => orElse (definition_of_done a) []
  | None => []
  end.

(** [stale n]: the node was last updated more than three days ago. *)
Definition stale {CK : Clock} (n : NodeData) : bool :=
  match daysSince (updated_at n) with
  | Some age => negb (Qle_bool age 3)
  | None => false
  end.

(** What one unresolved node adds to each list of [aggregateIntent]. *)
Definition shortName (n : NodeData) : string := substring 0 40 (summary n).

Definition openDecisionsAt (n : NodeData) : list OpenDecision :=
  map (fun d => mkOpenDecision d (id n) (shortName n))
      (filter (fun d => String.eqb (de_status d) "open") (decisionsOf n)).

Definition untestedAssumptionsAt (n : NodeData) : list UntestedAssumption :=
  map (fun a => mkUntestedAssumption a (id n) (shortName n))
      (filter (fun a => String.eqb (as_status a) "untested") (assumptionsOf n)).

Definition unscopedEdgeCasesAt (n : NodeData) : list UnscopedEdgeCase :=
  map (fun e => mkUnscopedEdgeCase e (id n) (shortName n))
      (filter (fun e => isNone (ec_scope e)) (edgeCasesOf n)).

Definition unconfirmedDodAt (n : NodeData) : list UnconfirmedDod :=
  map (fun d => mkUnconfirmedDod d (id n) (shortName n))
      (filter (fun d => isNone (dd_met d)) (dodOf n)).

Definition blockedAt (n : NodeData) : list BlockedNode :=
  if blocked n then [mkBlockedNode (id n) (summary n) (blocked_reason n)] else [].

Definition staleAt {CK : Clock} (n : NodeData) : list StaleNode :=
  match daysSince (updated_at n) with
  | Some age =>
      if Qle_bool age 3 then []
      else [mkStaleNode (id n) (summary n) (mathRound age)]
  | None => []
  end.

(** [quiet n]: nothing about [n] asks for attention. *)
Definition quiet {CK : Clock} (n : NodeData) : Prop :=
  blocked n = false /\
  stale n = false /\
  (forall d, In d (decisionsOf n) -> de_status d <> "open") /\
  (forall a, In a (assumptionsOf n) -> as_status a <> "untested") /\
  (forall e, In e (edgeCasesOf n) -> ec_scope e <> None) /\
  (forall d, In d (dodOf n) -> dd_met d <> None).

(** The order [staleNodes.sort] establishes: larger ages first. *)
Definition descending (a b : StaleNode) : Prop :=
  sn_daysSince b <= sn_daysSince a.

(** [s1 <= s2] on strings, as JavaScript compares them. *)
Definition string_le (s1 s2 : string) : Prop := String.leb s1 s2 = true.

End Ui.

Module DemoUi.
Import Ui.

Definition plain (i : string) (p : option string) (r : bool) (at' : string)
  : NodeData :=
  {| id := i; summary := "node " ++ i; resolved := r; blocked := false;
     blocked_reason := None; discovery_artifacts := None;
     priority := VUndefined; parent := p; project := "demo";
     updated_at := at' |}.

Definition artifacts : DiscoveryArtifacts :=
  {| assumptions := Some [mkAssumption "a1" "users log in" "untested" None];
     decisions := Some [mkDecision "d1" "which store?" "open" None None];
     edge_cases := None;
     definition_of_done := Some [mkDodItem "k1" "tests pass" None] |}.

Definition root : NodeData := plain "r" None false "2025-01-03".

Definition task : NodeData :=
  {| id := "t"; summary := "task"; resolved := false; blocked := true;
     blocked_reason := Some "waiting"; discovery_artifacts := Some artifacts;
     priority := VUndefined; parent := Some "r"; project := "demo";
     updated_at := "2025-01-05" |}.

Definition done : NodeData := plain "d" (Some "r") true "2025-01-09".

Definition orphan : NodeData := plain "o" (Some "gone") false "2025-01-01".

Definition nodes : list NodeData := [root; task; done; orphan].

Definition tree : TreeNode :=
  mkTreeNode root
    (Some [mkTreeNode task (Some []); mkTreeNode done (Some [])]).

(** A clock that reads the day of the month and counts the days up to
    the tenth. *)
Definition clock : Clock :=
  {| daysSince := fun text =>
       if String.eqb text "2025-01-03" then Some (7 # 1)%Q
       else if String.eqb text "2025-01-05" then Some (5 # 1)%Q
       else if String.eqb text "2025-01-09" then Some (1 # 1)%Q
       else None |}.

End DemoUi.

(* ===================================================================== *)
(** ** The init command: init.ts *)
(* ===================================================================== *)

(** What the host provides to [init]: [JSON.parse] ([None] for a
    [SyntaxError]), [JSON.stringify(v, null, 2)], the two paths
    [join(cwd, ".mcp.json")] and [join(cwd, ".claude", "agents",
    "graph.md")], and the directory of the latter, [dirname(agentPath)]. *)
Class InitHost : Type := {
  jsonParse : string -> option value;
  jsonStringify : value -> string;
  configPath : string;
  agentPath : string;
  agentDir : string
}.

Definition MCP_CONFIG : value :=
  VObject [("command", VString "npx");
           ("args", VArray [VString "-y"; VString "@graph-tl/graph"]);
           ("env", VObject [("GRAPH_AGENT", VString "claude-code")])].

(** The line feed. *)
Definition LF : string := String (ascii_of_nat 10) EmptyString.

(** [readFileSync(path, "utf8")]; [None] when it throws. *)
Definition readFileSync (env : Env) (path : string) : option string :=
  match files env path with
  | File content => Some content
  | _ => None
  end.

(** Setting a property that is not an array index: an existing one keeps
    its place, a new one goes last. *)
Fixpoint setField (key : string) (v : value) (fields : list (string * value))
  : list (string * value) :=
  match fields with
  | [] => [(key, v)]
  | (k, old) :: rest =>
      if String.eqb k key then (k, v) :: rest
      else (k, old) :: setField key v rest
  end.

(** [obj.key = v] in a module (strict mode), for a [key] that is not an
    array index, as [JSON.stringify] sees the result: a [TypeError] ([None])
    on [null], [undefined] and the primitive values; an array takes the
    property, but its serialisation leaves it out. *)
Definition assign (obj : value) (key : string) (v : value) : option value :=
  match obj with
  | VObject fields => Some (VObject (setField key v fields))
  | VArray items => Some (VArray items)
  | _ => None
  end.

(** [v ?? d] *)
Definition nullish (v d : value) : value :=
  match v with
  | VUndefined | VNull => d
  | _ => v
  end.

(** The two statements [config.mcpServers = config.mcpServers ?? {}] and
    [config.mcpServers.graph = MCP_CONFIG], where [servers] is what
    [config.mcpServers] held: the configuration afterwards, or [None] for a
    [TypeError].  After the first statement the property and the object it
    was given are the same object, so the property set on that object by
    the second statement shows in [config]. *)
Definition addGraphServer (config servers : value) : option value :=
  let servers' := nullish servers (VObject []) in
  match assign config "mcpServers" servers' with
  | None => None
  | Some _ =>
      match assign servers' "graph" MCP_CONFIG with
      | None => None
      | Some graphed => assign config "mcpServers" graphed
      end
  end.

(** The lines [init] prints, by template. *)
Inductive InitLine : Type :=
| ConfiguredLine
| AddedLine
| InvalidJsonLine
| CreatedLine
| AgentExistsLine
| AgentCreatedLine
| BlankLine
| ReadyLine
| ThenTryLine
| ExampleLine
| NothingToDoLine.

(** The state after step 1 of [init]: the machine, what was printed, the
    variable [wrote], and whether an exception left the step (and with it
    [init]). *)
Record ConfigStep : Type := mkConfigStep {
  cs_env : Env;
  cs_stdout : list InitLine;
  cs_stderr : list InitLine;
  cs_wrote : bool;
  cs_threw : bool
}.

(** How [init] ends: it returns, an engine error escapes it, or what
    [mkdirSync] or [writeFileSync] throws escapes it.  [InitOutOfFuel]
    mirrors the third outcome of the error monad, which [handleAgentConfig]
    never has. *)
Inductive InitEnding : Type :=
| InitReturned
| InitThrew (e : error)
| InitFileSystemError
| InitOutOfFuel.

Record InitRun : Type := mkInitRun {
  init_env : Env;
  init_stdout : list InitLine;
  init_stderr : list InitLine;
  init_ending : InitEnding
}.

Section Init.
Context {LH : LicenseHost} {IH : InitHost}.

(** The [catch] block of step 1. *)
Definition skipped (env : Env) : ConfigStep :=
  {| cs_env := env; cs_stdout := []; cs_stderr := [InvalidJsonLine];
     cs_wrote := false; cs_threw := false |}.

(** The end of the [try] block: the updated configuration is written, the
    addition is announced and [wrote] is set; a write that throws ends in
    the [catch] block. *)
Definition added (env : Env) (config' : value) : ConfigStep :=
  let written := writeFileSync env configPath (jsonStringify config' ++ LF) in
  if snd written then
    {| cs_env := fst written;
       cs_stdout := [AddedLine];
       cs_stderr := [];
       cs_wrote := true;
       cs_threw := false |}
  else skipped (fst written).

(** Step 1 of [init], "Write .mcp.json"; the same text in both revisions.
    Reading, parsing, updating and writing an existing file happen inside
    the [try]: whatever throws there, a failing write included, ends in the
    [catch] block.  Creating the file where there is none happens outside
    it. *)
Definition initConfig (env : Env) : ConfigStep :=
  if existsSync env configPath then
    match readFileSync env configPath with
    | None => skipped env
    | Some text =>
        match jsonParse text with
        | None => skipped env
        | Some config =>
            match member config "mcpServers" with
            | None => skipped env
            | Some servers =>
                if truthyValue (getProp servers "graph")
                then {| cs_env := env; cs_stdout := [ConfiguredLine];
                        cs_stderr := []; cs_wrote := false; cs_threw := false |}
                else
                  match addGraphServer config servers with
                  | None => skipped env
                  | Some config' => added env config'
                  end
            end
        end
    end
  else
    let config := VObject [("mcpServers", VObject [("graph", MCP_CONFIG)])] in
    let written := writeFileSync env configPath (jsonStringify config ++ LF) in
    if snd written then
      {| cs_env := fst written;
         cs_stdout := [CreatedLine];
         cs_stderr := [];
         cs_wrote := true;
         cs_threw := false |}
    else
      {| cs_env := fst written;
         cs_stdout := [];
         cs_stderr := [];
         cs_wrote := false;
         cs_threw := true |}.

(** Step 3 of [init], the summary. *)
Definition summaryLines (wrote : bool) : list InitLine :=
  BlankLine
  :: (if wrote then [ReadyLine; BlankLine; ThenTryLine; ExampleLine]
      else [NothingToDoLine]).

(** [init] of the revision that writes the agent file only when there is
    none.  [handleAgentConfig()] is called without a database path; what it
    throws escapes [init], and so does what [mkdirSync] and [writeFileSync]
    throw in step 2. *)
Definition init (env : Env) : InitRun :=
  let step := initConfig env in
  let stopped (env' : Env) (how : InitEnding) :=
    {| init_env := env';
       init_stdout := cs_stdout step;
       init_stderr := cs_stderr step;
       init_ending := how |} in
  if cs_threw step then stopped (cs_env step) InitFileSystemError
  else if existsSync (cs_env step) agentPath then
    {| init_env := cs_env step;
       init_stdout := (cs_stdout step ++ [AgentExistsLine]
                       ++ summaryLines (cs_wrote step))%list;
       init_stderr := cs_stderr step;
       init_ending := InitReturned |}
  else
    match handleAgentConfig (cs_env step) None with
    | Ok result =>
        let made := mkdirSync (cs_env step) agentDir in
        if snd made then
          let written := writeFileSync (fst made) agentPath (agent_file result) in
          if snd written then
            {| init_env := fst written;
               init_stdout := (cs_stdout step ++ [AgentCreatedLine]
                               ++ summaryLines true)%list;
               init_stderr := cs_stderr step;
               init_ending := InitReturned |}
          else stopped (fst written) InitFileSystemError
        else stopped (fst made) InitFileSystemError
    | Throw e => stopped (cs_env step) (InitThrew e)
    | OutOfFuel => stopped (cs_env step) InitOutOfFuel
    end.

End Init.

(** The configuration [init] writes where there is none. *)
Definition freshConfig : value :=
  VObject [("mcpServers", VObject [("graph", MCP_CONFIG)])].

(** A host for running [init] on examples: three texts parse, and
    serialising tells apart only arrays, configurations with a graph
    server, and the rest. *)
Module DemoInit.

Definition old : value :=
  VObject [("mcpServers", VObject [("other", VString "x")]);
           ("theme", VString "dark")].

Definition host : InitHost :=
  {| jsonParse := fun text =>
       if String.eqb text ("FRESH" ++ LF) then Some freshConfig
       else if String.eqb text "OLD" then Some old
       else if String.eqb text ("[]" ++ LF) then Some (VArray [])
       else if String.eqb text "7" then Some (VNumber (Fin 7))
       else None;
     jsonStringify := fun v =>
       match v with
       | VArray _ => "[]"
       | VObject _ =>
           if truthyValue (getProp (getProp v "mcpServers") "graph")
           then "FRESH" else "OTHER"
       | _ => "null"
       end;
     configPath := "/work/.mcp.json";
     agentPath := "/work/.claude/agents/graph.md";
     agentDir := "/work/.claude/agents" |}.

(** An empty working directory. *)
Definition emptyWork : string -> FileState :=
  fun p => if String.eqb p "/work" then Unreadable else Missing.

(** A machine with a verified pro license in the environment and an empty
    working directory. *)
Definition licensed : Env :=
  {| GRAPH_LICENSE_PUBLIC_KEY := Some "PUB";
     GRAPH_LICENSE := Some "graph_hdr.pro.sig";
     dateNow := 1000000;
     files := emptyWork |}.

(** The same machine without a license. *)
Definition unlicensed : Env :=
  {| GRAPH_LICENSE_PUBLIC_KEY := Some "PUB";
     GRAPH_LICENSE := None;
     dateNow := 1000000;
     files := emptyWork |}.

(** The licensed machine with a configuration file holding [text]. *)
Definition withConfig (text : string) : Env :=
  {| GRAPH_LICENSE_PUBLIC_KEY := Some "PUB";
     GRAPH_LICENSE := Some "graph_hdr.pro.sig";
     dateNow := 1000000;
     files := fun p => if String.eqb p "/work/.mcp.json" then File text
                       else emptyWork p |}.

(** The licensed machine with a regular file where the directory [.claude]
    should be. *)
Definition blocked : Env :=
  {| GRAPH_LICENSE_PUBLIC_KEY := Some "PUB";
     GRAPH_LICENSE := Some "graph_hdr.pro.sig";
     dateNow := 1000000;
     files := fun p => if String.eqb p "/work/.claude" then File "notes"
                       else emptyWork p |}.

End DemoInit.

(** *** Vocabulary for the properties of [init] *)

(** The values step 1 can do nothing with: [null], a boolean, a number or a
    string where the configuration object should be, or an object whose
    [mcpServers] is a boolean, a number or a string. *)
Definition isScalar (v : value) : bool :=
  match v with
  | VBool _ | VNumber _ | VString _ => true
  | _ => false
  end.

Definition unusable (config : value) : bool :=
  match config with
  | VObject fields => isScalar (lookupField "mcpServers" fields)
  | VArray _ => false
  | _ => true
  end.

(** The configuration is an array, or its [mcpServers] is one. *)
Definition arrayShaped (config : value) : bool :=
  match config with
  | VArray _ => true
  | VObject fields =>
      match lookupField "mcpServers" fields with
      | VArray _ => true
      | _ => false
      end
  | _ => false
  end.

(** The configuration file is there and cannot be used. *)
Definition configUnusable {IH : InitHost} (env : Env) : Prop :=
  match files env configPath with
  | Missing => False
  | Unreadable => True
  | File text =>
      match jsonParse text with
      | None => True
      | Some config => unusable config = true
      end
  end.

(* ===================================================================== *)
(** ** Further vocabulary: the outline of a rendered tree *)
(* ===================================================================== *)

(** What the trees of the [context] tool and of the [tree] tool have in
    common: everything but [state] on the one side and [properties] (and
    [progress]) on the other. *)
Inductive Outline : Type := mkOutline {
  ol_id : string;
  ol_summary : string;
  ol_resolved : bool;
  ol_children : option (list Outline);
  ol_child_count : option nat
}.

Fixpoint outlineOfContext (t : NodeTree) : Outline :=
  match t with
  | mkNodeTree i sm r _ kids count =>
      mkOutline i sm r
        (match kids with
         | Some l => Some (map outlineOfContext l)
         | None => None
         end)
        count
  end.

Fixpoint outlineOfTree (t : TreePlain.TreeNode) : Outline :=
  match t with
  | TreePlain.mkTreeNode i sm r _ kids count =>
      mkOutline i sm r
        (match kids with
         | Some l => Some (map outlineOfTree l)
         | None => None
         end)
        count
  end.

(** Ids are keys: looking up the id of a stored node gives that node. *)
Definition uniqueIds (s : Store) : Prop :=
  forall n, In n (nodes s) -> getNode s (id n) = Some n.

(* ===================================================================== *)
(** * Properties *)
(* ===================================================================== *)

(** ** The outcome monad *)

Lemma bind_Ok_inv : forall (A B : Type) (m : outcome A) (k : A -> outcome B) (b : B),
  bind m k = Ok b -> exists a, m = Ok a /\ k a = Ok b.
Proof.
  intros A B m k b H. destruct m as [a | e | ]; simpl in H; try discriminate.
  exists a. split; [reflexivity | exact H].
Qed.

Lemma thrown_Some : forall (A : Type) (m : outcome A) (e : error),
  thrown m = Some e -> m = Throw e.
Proof.
  intros A m e H. destruct m; simpl in H; try discriminate. congruence.
Qed.

(** ** Validation at the request boundary *)

Lemma contains_prefix : forall field rest, contains field (field ++ rest).
Proof.
  intros field rest. exists "", rest. reflexivity.
Qed.

Lemma append_nil_r : forall s : string, s ++ "" = s.
Proof.
  induction s as [ | c rest IH]; simpl; [reflexivity | rewrite IH; reflexivity].
Qed.

Lemma contains_suffix : forall pre sub, contains sub (pre ++ sub).
Proof.
  intros pre sub. exists pre, "". rewrite append_nil_r. reflexivity.
Qed.

Section ValidationFacts.
Context {RT : Runtime}.

Lemma requireString_rejects : forall v field e,
  requireString v field = Throw e ->
  e = ValidationError (field ++ " is required and must be a non-empty string").
Proof.
  intros v field e H. unfold requireString in H.
  destruct v; try (inversion H; reflexivity).
  destruct (String.length (trim s) =? 0)%nat; inversion H; reflexivity.
Qed.

Lemma optionalNumber_rejects : forall v field min max e,
  optionalNumber v field min max = Throw e ->
  exists rest, e = ValidationError (field ++ rest).
Proof.
  intros v field min max e H. unfold optionalNumber in H.
  destruct v; try discriminate; try (inversion H; eexists; reflexivity).
  destruct (isNaN n); [inversion H; eexists; reflexivity | ].
  destruct min as [lo | ]; destruct max as [hi | ];
    repeat match type of H with
           | (if ?c then _ else _) = _ => destruct c
           end;
    try discriminate; inversion H; eexists; reflexivity.
Qed.

Lemma rejects_names_field : forall h v field e,
  rejects h v field = Some e -> exists rest, e = ValidationError (field ++ rest).
Proof.
  intros h v field e H. destruct h; simpl in H; apply thrown_Some in H.
  - apply requireString_rejects in H. eauto.
  - unfold optionalString in H.
    destruct v; try discriminate; inversion H; eauto.
  - unfold requireArray in H.
    destruct v; try (inversion H; eauto; fail).
    destruct (List.length items =? 0)%nat; inversion H; eauto.
  - unfold optionalArray in H.
    destruct v; try discriminate; inversion H; eauto.
  - eapply optionalNumber_rejects; eauto.
  - unfold optionalBoolean in H.
    destruct v; try discriminate; inversion H; eauto.
  - unfold requireObject in H.
    destruct v; try discriminate; inversion H; eauto.
Qed.

Lemma firstRejection_origin : forall checks e,
  firstRejection checks = Some e ->
  exists h v field, In (h, v, field) checks /\ rejects h v field = Some e.
Proof.
  induction checks as [ | [[h v] field] rest IH]; intros e H; simpl in H.
  - discriminate.
  - destruct (rejects h v field) as [e' | ] eqn:R.
    + inversion H; subst. exists h, v, field. split; [left; reflexivity | exact R].
    + destruct (IH e H) as (h' & v' & f' & Hin & Hr).
      exists h', v', f'. split; [right; exact Hin | exact Hr].
Qed.

Lemma requireString_never_OutOfFuel : forall v field,
  requireString v field <> OutOfFuel.
Proof.
  intros v field. unfold requireString. destruct v; try discriminate.
  destruct (String.length (trim s) =? 0)%nat; discriminate.
Qed.

Lemma optionalNumber_never_OutOfFuel : forall v field min max,
  optionalNumber v field min max <> OutOfFuel.
Proof.
  intros v field min max. unfold optionalNumber. destruct v; try discriminate.
  destruct (isNaN n); [discriminate | ].
  destruct min as [lo | ]; destruct max as [hi | ];
    repeat match goal with
           | |- (if ?c then _ else _) <> _ => destruct c
           end; discriminate.
Qed.

Lemma optionalString_never_OutOfFuel : forall v field,
  optionalString v field <> OutOfFuel.
Proof.
  intros v field. unfold optionalString. destruct v; discriminate.
Qed.

Lemma handleContext_validates_first : forall s input e,
  firstRejection (contextChecks input) = Some e -> handleContext s input = Throw e.
Proof.
  intros s input e H. unfold handleContext. simpl in H.
  pose proof (requireString_never_OutOfFuel (getProp input "node_id") "node_id") as NF.
  destruct (requireString (getProp input "node_id") "node_id") as [nodeId | e1 | ];
    simpl in *; [ | congruence | congruence ].
  destruct (optionalNumber (getProp input "depth") "depth" (Some (Fin 0)) (Some (Fin 10)))
    as [d | e2 | ]; simpl in *; congruence.
Qed.

Lemma handleTreePlain_validates_first : forall s input e,
  firstRejection (treeChecks input) = Some e -> TreePlain.handleTree s input = Throw e.
Proof.
  intros s input e H. unfold TreePlain.handleTree. simpl in H.
  pose proof (requireString_never_OutOfFuel (getProp input "project") "project") as NF.
  destruct (requireString (getProp input "project") "project") as [p | e1 | ];
    simpl in *; [ | congruence | congruence ].
  destruct (optionalNumber (getProp input "depth") "depth" (Some (Fin 1)) (Some (Fin 20)))
    as [d | e2 | ]; simpl in *; congruence.
Qed.

End ValidationFacts.

Section ValidationFactsQueries.
Context {RT : Runtime} {NQ : NodeQueries}.

Lemma handleOpen_validates_first : forall s input agent e,
  firstRejection (openChecks input) = Some e -> handleOpen s input agent = Throw e.
Proof.
  intros s input agent e H. unfold handleOpen. simpl in H.
  pose proof (optionalString_never_OutOfFuel (getProp input "project") "project") as NF.
  destruct (optionalString (getProp input "project") "project") as [p | e1 | ];
    simpl in *; [ | congruence | congruence ].
  destruct (optionalString (getProp input "goal") "goal") as [g | e2 | ];
    simpl in *; congruence.
Qed.

Lemma handleTreeProgress_validates_first : forall s input e,
  firstRejection (treeChecks input) = Some e -> TreeProgress.handleTree s input = Throw e.
Proof.
  intros s input e H. unfold TreeProgress.handleTree. simpl in H.
  pose proof (requireString_never_OutOfFuel (getProp input "project") "project") as NF.
  destruct (requireString (getProp input "project") "project") as [p | e1 | ];
    simpl in *; [ | congruence | congruence ].
  destruct (optionalNumber (getProp input "depth") "depth" (Some (Fin 1)) (Some (Fin 20)))
    as [d | e2 | ]; simpl in *; congruence.
Qed.

End ValidationFactsQueries.

(** C6.  Whatever value one of the seven helpers of [validate.ts] rejects for
    a field, the error is a [ValidationError] (code ["validation_error"])
    whose message contains the field's name.  A handler makes its checks
    before it touches the store: when one of them rejects, the handler throws
    that very error whatever the store holds, and hands back no new store. *)
Theorem validation_error_names_field :
  forall (RT : Runtime) (NQ : NodeQueries),
    (forall h v field e,
        rejects h v field = Some e ->
        e = ValidationError (message e) /\
        code e = "validation_error" /\
        contains field (message e)) /\
    (forall checks e,
        firstRejection checks = Some e ->
        exists h v field, In (h, v, field) checks /\ rejects h v field = Some e) /\
    (forall s input e,
        firstRejection (contextChecks input) = Some e ->
        handleContext s input = Throw e) /\
    (forall s input agent e,
        firstRejection (openChecks input) = Some e ->
        handleOpen s input agent = Throw e) /\
    (forall s input e,
        firstRejection (treeChecks input) = Some e ->
        TreePlain.handleTree s input = Throw e /\
        TreeProgress.handleTree s input = Throw e).
Proof.
  intros RT NQ. repeat split.
  - destruct (rejects_names_field _ _ _ _ H) as [rest ->]. reflexivity.
  - destruct (rejects_names_field _ _ _ _ H) as [rest ->]. reflexivity.
  - destruct (rejects_names_field _ _ _ _ H) as [rest ->]. apply contains_prefix.
  - apply firstRejection_origin.
  - apply handleContext_validates_first.
  - apply handleOpen_validates_first.
  - apply handleTreePlain_validates_first; assumption.
  - apply handleTreeProgress_validates_first; assumption.
Qed.

Lemma validation_error_names_field_witness :
  rejects (RT := Demo.runtime) (OptionalNumber (Some (Fin 0)) (Some (Fin 10)))
          (VNumber (Fin 11)) "depth"
    = Some (ValidationError "depth must be <= 10") /\
  contains "depth" "depth must be <= 10" /\
  handleContext (RT := Demo.runtime) Demo.store (Demo.contextInput "r" 11)
    = Throw (ValidationError "depth must be <= 10").
Proof.
  split; [reflexivity | split].
  - exact (proj2 (proj2 (proj1 (validation_error_names_field Demo.runtime Demo.queries)
             (OptionalNumber (Some (Fin 0)) (Some (Fin 10))) (VNumber (Fin 11)) "depth"
             (ValidationError "depth must be <= 10") eq_refl))).
  - exact (proj1 (proj2 (proj2 (validation_error_names_field Demo.runtime Demo.queries)))
             Demo.store (Demo.contextInput "r" 11)
             (ValidationError "depth must be <= 10") eq_refl).
Defined.

(** ** The depth cut *)

Lemma belowDepth_ceiling : forall (level : nat) (q : Q),
  belowDepth level (Fin q) = true <-> (Z.of_nat level < Qceiling q)%Z.
Proof.
  intros level q. unfold belowDepth, num_ltb.
  destruct (inject_Z (Z.of_nat level) ?= q)%Q eqn:C.
  - split; [discriminate | ]. intros H. exfalso.
    assert (E : (inject_Z (Z.of_nat level) == q)%Q) by (apply Qeq_alt; exact C).
    assert (L : (inject_Z (Qceiling q - 1) < inject_Z (Z.of_nat level))%Q)
      by (eapply Qlt_le_trans; [apply Qceiling_lt | rewrite E; apply Qle_refl]).
    rewrite <- Zlt_Qlt in L. lia.
  - split; [ | reflexivity]. intros _.
    apply Qlt_alt in C.
    assert (L : (inject_Z (Z.of_nat level) < inject_Z (Qceiling q))%Q)
      by (eapply Qlt_le_trans; [exact C | apply Qle_ceiling]).
    rewrite <- Zlt_Qlt in L. exact L.
  - split; [discriminate | ]. intros H. exfalso.
    assert (G : ~ (inject_Z (Z.of_nat level) <= q)%Q)
      by (rewrite Qle_alt; intros N; apply N; exact C).
    apply G. apply Qlt_le_weak.
    eapply Qle_lt_trans; [ | apply Qceiling_lt].
    rewrite <- Zle_Qle. lia.
Qed.

Lemma belowDepth_Qlt : forall (level : nat) (q : Q),
  belowDepth level (Fin q) = true <-> (inject_Z (Z.of_nat level) < q)%Q.
Proof.
  intros level q. unfold belowDepth, num_ltb. rewrite Qlt_alt.
  destruct (inject_Z (Z.of_nat level) ?= q)%Q; split; congruence.
Qed.

Lemma belowDepth_Qle : forall (level : nat) (q : Q),
  belowDepth level (Fin q) = false <-> (q <= inject_Z (Z.of_nat level))%Q.
Proof.
  intros level q. split.
  - intros B. apply Qnot_lt_le. intros L. apply belowDepth_Qlt in L. congruence.
  - intros L. destruct (belowDepth level (Fin q)) eqn:B; [ | reflexivity].
    apply belowDepth_Qlt in B. exfalso. exact (Qle_not_lt _ _ L B).
Qed.

(** ** Stored nodes *)

Lemma getNode_id : forall s i n, getNode s i = Some n -> id n = i.
Proof.
  intros s i n H. unfold getNode in H. apply find_some in H.
  destruct H as [_ H]. apply String.eqb_eq in H. exact H.
Qed.

Lemma getNode_In : forall s i n, getNode s i = Some n -> In n (nodes s).
Proof.
  intros s i n H. unfold getNode in H. apply find_some in H. tauto.
Qed.

Lemma getNode_of_stored : forall s n, In n (nodes s) -> exists n', getNode s (id n) = Some n'.
Proof.
  intros s n H. unfold getNode.
  destruct (find (fun m => String.eqb (id m) (id n)) (nodes s)) as [n' | ] eqn:F.
  - exists n'. reflexivity.
  - exfalso. pose proof (find_none _ _ F n H) as E. simpl in E.
    rewrite String.eqb_refl in E. discriminate.
Qed.

Lemma getChildren_stored : forall s i n, In n (getChildren s i) -> In n (nodes s).
Proof.
  intros s i n H. unfold getChildren in H. apply filter_In in H. tauto.
Qed.

Lemma length_eqb_0 : forall (A : Type) (l : list A),
  (List.length l =? 0)%nat = true <-> l = [].
Proof.
  intros A l. destruct l; simpl; split; intros H; try reflexivity; discriminate.
Qed.

(** ** The subtree of a node *)

Lemma hops_add : forall s a b i,
  hops s (a + b) i = match hops s a i with
                     | Some j => hops s b j
                     | None => None
                     end.
Proof.
  intros s a. induction a as [ | a IH]; intros b i; simpl; [reflexivity | ].
  destruct (getNode s i) as [n | ]; [ | reflexivity].
  destruct (parent n) as [p | ]; [apply IH | reflexivity].
Qed.

Lemma descendsFrom_hops : forall s top i,
  descendsFrom s top i <-> exists k, hops s k i = Some top.
Proof.
  intros s top i. split.
  - intros H. induction H as [ | i n p G P _ [k Hk]].
    + exists 0%nat. reflexivity.
    + exists (S k). simpl. rewrite G, P. exact Hk.
  - intros [k Hk]. revert i Hk. induction k as [ | k IH]; intros i Hk; simpl in Hk.
    + inversion Hk; subst. constructor.
    + destruct (getNode s i) as [n | ] eqn:G; [ | discriminate].
      destruct (parent n) as [p | ] eqn:P; [ | discriminate].
      eapply descends_child; eauto.
Qed.

Lemma reaches_hops : forall s fuel top i,
  reaches s fuel top i = true <-> exists k, (k <= fuel)%nat /\ hops s k i = Some top.
Proof.
  intros s fuel top. induction fuel as [ | fuel IH]; intros i.
  - simpl. destruct (String.eqb i top) eqn:E.
    + apply String.eqb_eq in E. subst. split; [ | reflexivity].
      intros _. exists 0%nat. split; [lia | reflexivity].
    + split; [discriminate | ]. intros (k & Hk & H).
      assert (k = 0%nat) by lia. subst k. simpl in H. inversion H; subst.
      rewrite String.eqb_refl in E. discriminate.
  - simpl. destruct (String.eqb i top) eqn:E.
    + apply String.eqb_eq in E. subst. split; [ | reflexivity].
      intros _. exists 0%nat. split; [lia | reflexivity].
    + split.
      * intros H. destruct (getNode s i) as [n | ] eqn:G; [ | discriminate].
        destruct (parent n) as [p | ] eqn:P; [ | discriminate].
        apply IH in H. destruct H as (k & Hk & H).
        exists (S k). split; [lia | ]. simpl. rewrite G, P. exact H.
      * intros (k & Hk & H). destruct k as [ | k]; simpl in H.
        { inversion H; subst. rewrite String.eqb_refl in E. discriminate. }
        destruct (getNode s i) as [n | ]; [ | discriminate].
        destruct (parent n) as [p | ]; [ | discriminate].
        apply IH. exists k. split; [lia | exact H].
Qed.

Lemma trail_In : forall s k i x,
  In x (trail s k i) -> exists j, (j < k)%nat /\ hops s j i = Some x.
Proof.
  intros s k. induction k as [ | k IH]; intros i x H; simpl in H; [contradiction | ].
  destruct H as [<- | H].
  - exists 0%nat. split; [lia | reflexivity].
  - destruct (getNode s i) as [n | ] eqn:G; [ | contradiction].
    destruct (parent n) as [p | ] eqn:P; [ | contradiction].
    destruct (IH p x H) as (j & Hj & Hh).
    exists (S j). split; [lia | ]. simpl. rewrite G, P. exact Hh.
Qed.

Lemma trail_stored : forall s k i top,
  hops s k i = Some top ->
  List.length (trail s k i) = k /\ incl (trail s k i) (map id (nodes s)).
Proof.
  intros s k. induction k as [ | k IH]; intros i top H; simpl in *.
  - split; [reflexivity | intros x []].
  - destruct (getNode s i) as [n | ] eqn:G; [ | discriminate].
    destruct (parent n) as [p | ] eqn:P; [ | discriminate].
    destruct (IH p top H) as [L I]. split; [simpl; rewrite L; reflexivity | ].
    intros x [<- | Hx]; [ | apply I; exact Hx].
    rewrite <- (getNode_id _ _ _ G). apply in_map. eapply getNode_In; exact G.
Qed.

(** A chain that reaches [top] either repeats no id or can be shortened. *)
Lemma hops_shortcut : forall s top k i,
  hops s k i = Some top ->
  NoDup (trail s k i) \/ exists k', (k' < k)%nat /\ hops s k' i = Some top.
Proof.
  intros s top k. induction k as [ | k IH]; intros i H.
  - left. constructor.
  - simpl in H. destruct (getNode s i) as [n | ] eqn:G; [ | discriminate].
    destruct (parent n) as [p | ] eqn:P; [ | discriminate].
    destruct (IH p H) as [ND | (k' & Hk' & H')].
    + destruct (in_dec string_dec i (trail s k p)) as [Hin | Hnot].
      * right. destruct (trail_In _ _ _ _ Hin) as (j & Hj & Hji).
        exists (k - j)%nat. split; [lia | ].
        replace k with (j + (k - j))%nat in H by lia.
        rewrite hops_add, Hji in H. exact H.
      * left. simpl. rewrite G, P. constructor; assumption.
    + right. exists (S k'). split; [lia | ]. simpl. rewrite G, P. exact H'.
Qed.

Lemma hops_bounded : forall s top k i,
  hops s k i = Some top ->
  exists k', (k' <= List.length (nodes s))%nat /\ hops s k' i = Some top.
Proof.
  intros s top k. induction k as [k IH] using lt_wf_ind. intros i H.
  destruct (hops_shortcut s top k i H) as [ND | (k' & Hk' & H')].
  - exists k. split; [ | exact H].
    destruct (trail_stored s k i top H) as [L I].
    rewrite <- L, <- (length_map id (nodes s)).
    apply NoDup_incl_length; assumption.
  - eapply IH; eassumption.
Qed.

(** The stored nodes at or below a node. *)
Lemma subtreeNodes_spec : forall s top n,
  In n (subtreeNodes s top) <-> In n (nodes s) /\ descendsFrom s top (id n).
Proof.
  intros s top n. unfold subtreeNodes. rewrite filter_In, reaches_hops, descendsFrom_hops.
  split; intros [Hin H]; (split; [exact Hin | ]).
  - destruct H as (k & _ & H). exists k. exact H.
  - destruct H as (k & H). eapply hops_bounded; exact H.
Qed.



(** ** [map] with a callback that may throw *)

Lemma mapM_total : forall (A B : Type) (f : A -> outcome B) (xs : list A),
  (forall x, In x xs -> exists y, f x = Ok y) ->
  exists ys, mapM f xs = Ok ys.
Proof.
  intros A B f xs. induction xs as [ | x rest IH]; intros H; simpl.
  - eexists; reflexivity.
  - destruct (H x (or_introl eq_refl)) as [y ->]. simpl.
    destruct IH as [ys ->]; [intros; apply H; right; assumption | ].
    simpl. eexists; reflexivity.
Qed.

Lemma mapM_In : forall (A B : Type) (f : A -> outcome B) (xs : list A) (ys : list B),
  mapM f xs = Ok ys ->
  forall y, In y ys -> exists x, In x xs /\ f x = Ok y.
Proof.
  intros A B f xs. induction xs as [ | x rest IH]; intros ys H y Hy; simpl in H.
  - inversion H; subst. contradiction.
  - apply bind_Ok_inv in H. destruct H as (y0 & Hf & H).
    apply bind_Ok_inv in H. destruct H as (ys0 & Hm & H).
    inversion H; subst. destruct Hy as [-> | Hy].
    + exists x. split; [left; reflexivity | exact Hf].
    + destruct (IH _ Hm _ Hy) as (x' & Hin & Hx').
      exists x'. split; [right; exact Hin | exact Hx'].
Qed.

Lemma mapM_map : forall (A B C : Type) (f : A -> outcome B) (g : B -> C) (h : A -> C)
    (xs : list A) (ys : list B),
  (forall x y, f x = Ok y -> g y = h x) ->
  mapM f xs = Ok ys -> map g ys = map h xs.
Proof.
  intros A B C f g h xs. induction xs as [ | x rest IH]; intros ys Hfg H; simpl in H.
  - inversion H; reflexivity.
  - apply bind_Ok_inv in H. destruct H as (y0 & Hf & H).
    apply bind_Ok_inv in H. destruct H as (ys0 & Hm & H).
    inversion H; subst. simpl. f_equal; [apply Hfg; exact Hf | apply IH; assumption].
Qed.

(** ** The children tree of the [context] tool *)

Lemma buildNodeTree_id : forall fuel s i cd md t,
  buildNodeTree fuel s i cd md = Ok t -> nt_id t = i.
Proof.
  intros fuel s i cd md t H. destruct fuel as [ | fuel]; simpl in H; [discriminate | ].
  unfold getNodeOrThrow in H. destruct (getNode s i) as [n | ] eqn:G; simpl in H;
    [ | discriminate].
  apply getNode_id in G.
  destruct (List.length (getChildren s i) =? 0)%nat.
  - inversion H; subst; reflexivity.
  - destruct (belowDepth cd md).
    + apply bind_Ok_inv in H. destruct H as (built & _ & H). inversion H; subst; reflexivity.
    + inversion H; subst; reflexivity.
Qed.

Lemma buildNodeTree_total : forall fuel s i cd q n,
  getNode s i = Some n ->
  (Z.of_nat cd <= Qceiling q)%Z ->
  (Z.to_nat (Qceiling q) < fuel + cd)%nat ->
  exists t, buildNodeTree fuel s i cd (Fin q) = Ok t.
Proof.
  induction fuel as [ | fuel IH]; intros s i cd q n G Hcd Hfuel.
  - exfalso. lia.
  - simpl. unfold getNodeOrThrow. rewrite G. simpl.
    destruct (List.length (getChildren s i) =? 0)%nat; [eexists; reflexivity | ].
    destruct (belowDepth cd (Fin q)) eqn:B; [ | eexists; reflexivity].
    apply belowDepth_ceiling in B.
    destruct (mapM_total _ _
                (fun child => buildNodeTree fuel s (id child) (cd + 1) (Fin q))
                (getChildren s i)) as [built ->].
    + intros child Hin.
      destruct (getNode_of_stored s child (getChildren_stored _ _ _ Hin)) as [n' G'].
      eapply IH; [exact G' | lia | lia].
    + simpl. eexists; reflexivity.
Qed.

Lemma buildNodeTree_rendered : forall fuel s i cd md t,
  buildNodeTree fuel s i cd md = Ok t ->
  forall k t', nodeAt t k t' -> rendered s md (cd + k) t'.
Proof.
  induction fuel as [ | fuel IH]; intros s i cd md t H k t' Hat;
    [discriminate | ].
  simpl in H. unfold getNodeOrThrow in H.
  destruct (getNode s i) as [n | ] eqn:G; simpl in H; [ | discriminate].
  pose proof (getNode_id _ _ _ G) as Ei.
  destruct (List.length (getChildren s i) =? 0)%nat eqn:L.
  - inversion H as [Ht]; clear H. apply length_eqb_0 in L.
    inversion Hat as [t0 E0 E1 E2 | t0 kids c k0 t1 Hk Hin Hsub E0 E1 E2].
    + rewrite <- E2, <- Ht. replace (cd + 0)%nat with cd by lia.
      exists n. simpl. rewrite Ei, G, L. tauto.
    + rewrite <- Ht in Hk. simpl in Hk. discriminate.
  - assert (Lne : getChildren s i <> [])
      by (intros E; rewrite E in L; discriminate).
    destruct (belowDepth cd md) eqn:B.
    + apply bind_Ok_inv in H. destruct H as (built & Hm & H).
      inversion H as [Ht]; clear H.
      inversion Hat as [t0 E0 E1 E2 | t0 kids c k0 t1 Hk Hin Hsub E0 E1 E2].
      * rewrite <- E2, <- Ht. replace (cd + 0)%nat with cd by lia.
        exists n. simpl. rewrite Ei, G.
        repeat split; try reflexivity.
        assert (Hids : map nt_id built = map id (getChildren s i)).
        { eapply mapM_map; [ | exact Hm].
          intros x y Hxy. eapply buildNodeTree_id; exact Hxy. }
        destruct (getChildren s i) as [ | c0 cs] eqn:K; [contradiction | ].
        rewrite B. split; [reflexivity | ]. exists built. split; [reflexivity | ].
        exact Hids.
      * rewrite <- Ht in Hk. simpl in Hk. inversion Hk; subst kids.
        destruct (mapM_In _ _ _ _ _ Hm _ Hin) as (child & _ & Hc).
        replace (cd + S k0)%nat with ((cd + 1) + k0)%nat by lia.
        eapply IH; eassumption.
    + inversion H as [Ht]; clear H.
      inversion Hat as [t0 E0 E1 E2 | t0 kids c k0 t1 Hk Hin Hsub E0 E1 E2].
      * rewrite <- E2, <- Ht. replace (cd + 0)%nat with cd by lia.
        exists n. simpl. rewrite Ei, G.
        repeat split; try reflexivity.
        destruct (getChildren s i) as [ | c0 cs] eqn:K; [contradiction | ].
        rewrite B. split; reflexivity.
      * rewrite <- Ht in Hk. simpl in Hk. discriminate.
Qed.

Lemma buildNodeTree_levels : forall fuel s i cd q t,
  buildNodeTree fuel s i cd (Fin q) = Ok t ->
  (Z.of_nat cd <= Qceiling q)%Z ->
  forall k t', nodeAt t k t' -> (Z.of_nat (cd + k) <= Qceiling q)%Z.
Proof.
  induction fuel as [ | fuel IH]; intros s i cd q t H Hcd k t' Hat;
    [discriminate | ].
  simpl in H. unfold getNodeOrThrow in H.
  destruct (getNode s i) as [n | ] eqn:G; simpl in H; [ | discriminate].
  destruct (List.length (getChildren s i) =? 0)%nat.
  - inversion H as [Ht]; clear H.
    inversion Hat as [t0 E0 E1 E2 | t0 kids c k0 t1 Hk Hin Hsub E0 E1 E2];
      [lia | rewrite <- Ht in Hk; discriminate].
  - destruct (belowDepth cd (Fin q)) eqn:B.
    + apply belowDepth_ceiling in B.
      apply bind_Ok_inv in H. destruct H as (built & Hm & H).
      inversion H as [Ht]; clear H.
      inversion Hat as [t0 E0 E1 E2 | t0 kids c k0 t1 Hk Hin Hsub E0 E1 E2];
        [lia | ].
      rewrite <- Ht in Hk. simpl in Hk. inversion Hk; subst kids.
      destruct (mapM_In _ _ _ _ _ Hm _ Hin) as (child & _ & Hc).
      replace (cd + S k0)%nat with ((cd + 1) + k0)%nat by lia.
      eapply IH; [exact Hc | lia | eassumption].
    + inversion H as [Ht]; clear H.
      inversion Hat as [t0 E0 E1 E2 | t0 kids c k0 t1 Hk Hin Hsub E0 E1 E2];
        [lia | rewrite <- Ht in Hk; discriminate].
Qed.

(** ** Accepted depths *)

Section DepthFacts.
Context {RT : Runtime}.

Lemma optionalNumber_bounds : forall v field lo hi n,
  optionalNumber v field (Some (Fin lo)) (Some (Fin hi)) = Ok (Some n) ->
  exists q, n = Fin q /\ (lo <= q)%Q /\ (q <= hi)%Q.
Proof.
  intros v field lo hi n H. unfold optionalNumber in H.
  destruct v; try discriminate.
  destruct n0 as [ | | | q]; simpl in H; try discriminate.
  destruct (q ?= lo)%Q eqn:C1; try discriminate;
    destruct (hi ?= q)%Q eqn:C2; try discriminate;
    inversion H; subst; exists q; (split; [reflexivity | ]); split;
    apply Qnot_lt_le; rewrite Qlt_alt; congruence.
Qed.

Lemma accepted_depth : forall v lo hi dflt od,
  optionalNumber v "depth" (Some (Fin lo)) (Some (Fin hi)) = Ok od ->
  (lo <= dflt)%Q -> (dflt <= hi)%Q ->
  exists q, orElse od (Fin dflt) = Fin q /\ (lo <= q)%Q /\ (q <= hi)%Q.
Proof.
  intros v lo hi dflt od H Hlo Hhi. destruct od as [n | ]; simpl.
  - eapply optionalNumber_bounds; exact H.
  - exists dflt. auto.
Qed.

Lemma ceiling_nonneg : forall lo q, (0 <= lo)%Q -> (lo <= q)%Q -> (0 <= Qceiling q)%Z.
Proof.
  intros lo q H0 H. change 0%Z with (Qceiling 0). apply Qceiling_resp_le.
  eapply Qle_trans; eassumption.
Qed.

Lemma handleContext_ok : forall s input nodeId od n,
  requireString (getProp input "node_id") "node_id" = Ok nodeId ->
  optionalNumber (getProp input "depth") "depth" (Some (Fin 0)) (Some (Fin 10)) = Ok od ->
  getNode s nodeId = Some n ->
  exists t,
    buildNodeTree (fuelFor (orElse od (Fin 2))) s nodeId 0 (orElse od (Fin 2)) = Ok t /\
    handleContext s input =
      Ok {| cr_node := n;
            cr_ancestors := getAncestors s nodeId;
            cr_children := t;
            cr_depends_on :=
              map (fun edge =>
                     {| dep_node := getNode s (to_node edge);
                        satisfied :=
                          orElse (option_map resolved (getNode s (to_node edge))) false |})
                  (getEdgesFrom s nodeId "depends_on");
            cr_depended_by :=
              map (fun edge =>
                     {| dep_node := getNode s (from_node edge);
                        satisfied := resolved n |})
                  (getEdgesTo s nodeId "depends_on") |}.
Proof.
  intros s input nodeId od n Hid Hd G.
  destruct (accepted_depth _ 0 10 2 _ Hd) as (q & Eq & Hlo & Hhi);
    [discriminate | discriminate | ].
  destruct (buildNodeTree_total (fuelFor (Fin q)) s nodeId 0 q n G) as [t Ht].
  - apply (ceiling_nonneg 0 q); [apply Qle_refl | exact Hlo].
  - simpl. lia.
  - exists t. rewrite Eq. split; [exact Ht | ].
    unfold handleContext. rewrite Hid. simpl. rewrite Hd. simpl.
    unfold getNodeOrThrow. rewrite G. simpl. rewrite Eq, Ht. reflexivity.
Qed.

Lemma handleContext_terminates : forall s input,
  handleContext s input <> OutOfFuel.
Proof.
  intros s input H.
  destruct (requireString (getProp input "node_id") "node_id") as [nodeId | e | ] eqn:R.
  - destruct (optionalNumber (getProp input "depth") "depth" (Some (Fin 0)) (Some (Fin 10)))
      as [od | e | ] eqn:D.
    + destruct (getNode s nodeId) as [n | ] eqn:G.
      * destruct (handleContext_ok s input nodeId od n R D G) as (t & _ & E).
        rewrite E in H. discriminate.
      * unfold handleContext in H. rewrite R in H. simpl in H.
        rewrite D in H. simpl in H. unfold getNodeOrThrow in H. rewrite G in H.
        discriminate.
    + unfold handleContext in H. rewrite R in H. simpl in H.
      rewrite D in H. discriminate.
    + exact (optionalNumber_never_OutOfFuel _ _ _ _ D).
  - unfold handleContext in H. rewrite R in H. discriminate.
  - exact (requireString_never_OutOfFuel _ _ R).
Qed.

End DepthFacts.

Lemma Forall2_map_right : forall (A B : Type) (R : A -> B -> Prop) (f : A -> B) (l : list A),
  (forall x, In x l -> R x (f x)) -> Forall2 R l (map f l).
Proof.
  intros A B R f l. induction l as [ | x rest IH]; intros H; simpl; constructor.
  - apply H. left; reflexivity.
  - apply IH. intros y Hy. apply H. right; exact Hy.
Qed.

(** C2, as the code has it.  For a stored node N and any depth the [context]
    tool accepts (a number [0 <= d <= 10], by default 2), the tool returns a
    children tree rooted at N in which every shown node carries its stored
    columns; a node with no children carries neither a children array nor a
    child count; a node with children at a level below [d] lists all of its
    children; a node with children at a level not below [d] carries their
    exact number instead of a children array; and no node lies deeper than
    the ceiling of [d], which for an integral [d] is [d] itself. *)
Theorem context_children_cut_at_ceiling :
  forall (RT : Runtime) s input nodeId od n,
    requireString (getProp input "node_id") "node_id" = Ok nodeId ->
    optionalNumber (getProp input "depth") "depth" (Some (Fin 0)) (Some (Fin 10)) = Ok od ->
    getNode s nodeId = Some n ->
    exists res q,
      handleContext s input = Ok res /\
      orElse od (Fin 2) = Fin q /\ (0 <= q)%Q /\ (q <= 10)%Q /\
      (forall z, (q == inject_Z z)%Q -> Qceiling q = z) /\
      nt_id (cr_children res) = nodeId /\
      forall k t, nodeAt (cr_children res) k t ->
        (Z.of_nat k <= Qceiling q)%Z /\
        (exists m, getNode s (nt_id t) = Some m /\
                   nt_summary t = summary m /\
                   nt_resolved t = resolved m /\
                   nt_state t = state m) /\
        (getChildren s (nt_id t) = [] ->
           nt_children t = None /\ nt_child_count t = None) /\
        (getChildren s (nt_id t) <> [] -> (inject_Z (Z.of_nat k) < q)%Q ->
           nt_child_count t = None /\
           exists built, nt_children t = Some built /\
                         map nt_id built = map id (getChildren s (nt_id t))) /\
        (getChildren s (nt_id t) <> [] -> (q <= inject_Z (Z.of_nat k))%Q ->
           Z.of_nat k = Qceiling q /\
           nt_children t = None /\
           nt_child_count t = Some (List.length (getChildren s (nt_id t)))).
Proof.
  intros RT s input nodeId od n Hid Hd G.
  destruct (handleContext_ok s input nodeId od n Hid Hd G) as (t & Ht & Hres).
  destruct (accepted_depth _ 0 10 2 _ Hd) as (q & Eq & Hlo & Hhi);
    [discriminate | discriminate | ].
  eexists. exists q. split; [exact Hres | ]. simpl.
  split; [exact Eq | ]. split; [exact Hlo | ]. split; [exact Hhi | ].
  split.
  { intros z Hz. rewrite (Qceiling_comp _ _ Hz). apply Qceiling_Z. }
  split; [eapply buildNodeTree_id; exact Ht | ].
  rewrite Eq in Ht.
  assert (H0 : (Z.of_nat 0 <= Qceiling q)%Z)
    by (apply (ceiling_nonneg 0 q); [apply Qle_refl | exact Hlo]).
  intros k t' Hat.
  pose proof (buildNodeTree_levels _ _ _ _ _ _ Ht H0 k t' Hat) as Hlevel.
  pose proof (buildNodeTree_rendered _ _ _ _ _ _ Ht k t' Hat) as Hr.
  simpl in Hlevel, Hr.
  destruct Hr as (m & Gm & Hs & Hrs & Hst & Hkids).
  split; [exact Hlevel | ].
  split; [exists m; auto | ].
  destruct (getChildren s (nt_id t')) as [ | c0 cs] eqn:K.
  - split; [intros _; exact Hkids | ].
    split; intros N; contradiction N; reflexivity.
  - split; [intros E; discriminate | ].
    destruct (belowDepth k (Fin q)) eqn:B.
    + split; [intros _ _; exact Hkids | ].
      intros _ L. apply belowDepth_Qle in L. congruence.
    + split.
      * intros _ L. apply belowDepth_Qlt in L. congruence.
      * intros _ _. split; [ | exact Hkids].
        assert (NB : ~ (Z.of_nat k < Qceiling q)%Z).
        { intros L. apply belowDepth_ceiling in L. congruence. }
        lia.
Qed.

Lemma context_children_cut_at_ceiling_witness :
  exists res,
    handleContext (RT := Demo.runtime) Demo.store (Demo.contextInput "r" 1) = Ok res /\
    nt_id (cr_children res) = "r".
Proof.
  destruct (context_children_cut_at_ceiling Demo.runtime Demo.store
              (Demo.contextInput "r" 1) "r" (Some (Fin 1)) (Demo.node "r" None false)
              eq_refl eq_refl eq_refl)
    as (res & q & H & _ & _ & _ & _ & Hid & _).
  exists res. split; assumption.
Defined.

(** C2 as stated fails for a fractional depth: with depth 1/2 the tool still
    shows level 1, and it is there, not at "depth 1/2", that node [a] is cut
    and carries its child count. *)
Lemma context_fractional_depth_counterexample :
  exists res t,
    handleContext (RT := Demo.runtime) Demo.store (Demo.contextInput "r" (1 # 2)) = Ok res /\
    nodeAt (cr_children res) 1 t /\
    nt_id t = "a" /\
    nt_children t = None /\
    nt_child_count t = Some 1%nat /\
    ~ (inject_Z 1 <= 1 # 2)%Q.
Proof.
  eexists. eexists. split; [vm_compute; reflexivity | ].
  split.
  - eapply nodeAt_child; [reflexivity | left; reflexivity | apply nodeAt_top].
  - repeat split. intros H. vm_compute in H. apply H. reflexivity.
Qed.

(** C3.  For a stored node N the [context] tool answers with N and reports
    one entry per [depends_on] edge leaving N, satisfied exactly when the
    edge's target is a stored, resolved node, and one entry per [depends_on]
    edge entering N, satisfied exactly when N itself is resolved. *)
Theorem context_dependency_satisfaction :
  forall (RT : Runtime) s input nodeId od n,
    requireString (getProp input "node_id") "node_id" = Ok nodeId ->
    optionalNumber (getProp input "depth") "depth" (Some (Fin 0)) (Some (Fin 10)) = Ok od ->
    getNode s nodeId = Some n ->
    exists res,
      handleContext s input = Ok res /\
      cr_node res = n /\
      (forall e, In e (getEdgesFrom s nodeId "depends_on") <->
                 In e (edges s) /\ from_node e = nodeId /\ type e = "depends_on") /\
      (forall e, In e (getEdgesTo s nodeId "depends_on") <->
                 In e (edges s) /\ to_node e = nodeId /\ type e = "depends_on") /\
      Forall2 (fun e dep =>
                 dep_node dep = getNode s (to_node e) /\
                 (satisfied dep = true <->
                  exists target, getNode s (to_node e) = Some target /\
                                 resolved target = true))
              (getEdgesFrom s nodeId "depends_on") (cr_depends_on res) /\
      Forall2 (fun e dep =>
                 dep_node dep = getNode s (from_node e) /\
                 (satisfied dep = true <-> resolved n = true))
              (getEdgesTo s nodeId "depends_on") (cr_depended_by res).
Proof.
  intros RT s input nodeId od n Hid Hd G.
  destruct (handleContext_ok s input nodeId od n Hid Hd G) as (t & _ & Hres).
  eexists. split; [exact Hres | ]. simpl.
  split; [reflexivity | ].
  split.
  { intros e. unfold getEdgesFrom. rewrite filter_In, andb_true_iff, !String.eqb_eq.
    tauto. }
  split.
  { intros e. unfold getEdgesTo. rewrite filter_In, andb_true_iff, !String.eqb_eq.
    tauto. }
  split; apply Forall2_map_right; intros e _; simpl.
  - split; [reflexivity | ].
    destruct (getNode s (to_node e)) as [target | ]; simpl.
    + split.
      * intros H. exists target. split; [reflexivity | exact H].
      * intros (target' & E & H). inversion E; subst. exact H.
    + split; [discriminate | ]. intros (target' & E & _). discriminate.
  - split; [reflexivity | tauto].
Qed.

Lemma context_dependency_satisfaction_witness :
  exists res,
    handleContext (RT := Demo.runtime) Demo.store (Demo.contextInput "a" 1) = Ok res /\
    map satisfied (cr_depends_on res) = [true] /\
    map satisfied (cr_depended_by res) = [false].
Proof.
  destruct (context_dependency_satisfaction Demo.runtime Demo.store
              (Demo.contextInput "a" 1) "a" (Some (Fin 1))
              (Demo.node "a" (Some "r") false) eq_refl eq_refl eq_refl)
    as (res & H & _).
  exists res. split; [exact H | ].
  assert (E : Ok res = handleContext (RT := Demo.runtime) Demo.store (Demo.contextInput "a" 1))
    by (symmetry; exact H).
  vm_compute in E. inversion E. split; reflexivity.
Defined.

(** ** Absent nodes and projects *)

(** C5.  A well-formed [context] request for an id under which no node is
    stored fails with the engine error [node_not_found]; a well-formed
    [tree] request for a project without a root fails, in both revisions,
    with the engine error [project_not_found].  The code is a constant, the
    message names what was looked up.  Both tools only read: they take the
    store and return an outcome, never a new store. *)
Theorem absent_entity_not_found :
  forall (RT : Runtime) (NQ : NodeQueries) s input od,
    (forall nodeId,
        requireString (getProp input "node_id") "node_id" = Ok nodeId ->
        optionalNumber (getProp input "depth") "depth" (Some (Fin 0)) (Some (Fin 10)) = Ok od ->
        getNode s nodeId = None ->
        exists e,
          handleContext s input = Throw e /\
          e = EngineError "node_not_found" ("Node not found: " ++ nodeId) /\
          code e = "node_not_found" /\
          contains nodeId (message e)) /\
    (forall p,
        requireString (getProp input "project") "project" = Ok p ->
        optionalNumber (getProp input "depth") "depth" (Some (Fin 1)) (Some (Fin 20)) = Ok od ->
        getProjectRoot s p = None ->
        exists e e',
          TreePlain.handleTree s input = Throw e /\
          TreeProgress.handleTree s input = Throw e' /\
          e = EngineError "project_not_found" ("Project not found: " ++ p) /\
          code e' = "project_not_found" /\
          name e' = "EngineError" /\
          contains p (message e') /\
          contains "Project not found: " (message e')).
Proof.
  intros RT NQ s input od. split.
  - intros nodeId Hid Hd G.
    eexists. split; [ | split; [reflexivity | split; [reflexivity | ]]].
    + unfold handleContext. rewrite Hid. simpl. rewrite Hd. simpl.
      unfold getNodeOrThrow. rewrite G. reflexivity.
    + apply (contains_suffix "Node not found: " nodeId).
  - intros p Hp Hd G.
    eexists. eexists. split; [ | split; [ | split; [reflexivity | ]]].
    + unfold TreePlain.handleTree. rewrite Hp. simpl. rewrite Hd. simpl.
      rewrite G. reflexivity.
    + unfold TreeProgress.handleTree. rewrite Hp. simpl. rewrite Hd. simpl.
      rewrite G. reflexivity.
    + simpl. split; [reflexivity | ]. split; [reflexivity | ]. split.
      * exists "Project not found: ". eexists. reflexivity.
      * exists "". eexists. reflexivity.
Qed.

Lemma absent_entity_not_found_witness :
  handleContext (RT := Demo.runtime) Demo.store (Demo.contextInput "zz" 1)
    = Throw (EngineError "node_not_found" "Node not found: zz") /\
  TreePlain.handleTree (RT := Demo.runtime) Demo.store (Demo.treeInput "nope" 1)
    = Throw (EngineError "project_not_found" "Project not found: nope") /\
  TreeProgress.handleTree (RT := Demo.runtime) (NQ := Demo.queries) Demo.store
      (Demo.treeInput "nope" 1)
    = Throw (EngineError "project_not_found"
               "Project not found: nope. Available projects: demo").
Proof.
  pose proof (absent_entity_not_found Demo.runtime Demo.queries Demo.store
                (Demo.contextInput "zz" 1) (Some (Fin 1))) as [Hc _].
  destruct (Hc "zz" eq_refl eq_refl eq_refl) as (e & H1 & -> & _).
  split; [exact H1 | ].
  pose proof (absent_entity_not_found Demo.runtime Demo.queries Demo.store
                (Demo.treeInput "nope" 1) (Some (Fin 1))) as [_ Ht].
  destruct (Ht "nope" eq_refl eq_refl eq_refl) as (e1 & e2 & H2 & H3 & -> & _).
  split; [exact H2 | ]. rewrite H3.
  assert (E : Throw e2 = TreeProgress.handleTree (RT := Demo.runtime) (NQ := Demo.queries)
                           Demo.store (Demo.treeInput "nope" 1))
    by (symmetry; exact H3).
  vm_compute in E. exact E.
Defined.

(** ** The [open] tool *)

Lemma find_app_none : forall (A : Type) (f : A -> bool) (l : list A) (x : A),
  find f l = None -> f x = true -> find f (l ++ [x])%list = Some x.
Proof.
  intros A f l x. induction l as [ | y rest IH]; intros Hn Hx; simpl in *.
  - rewrite Hx. reflexivity.
  - destruct (f y); [discriminate | ]. apply IH; assumption.
Qed.

Lemma length_eqb_0_string : forall p : string,
  p <> "" -> (String.length p =? 0)%nat = false.
Proof.
  intros p H. destruct p; [contradiction H; reflexivity | reflexivity].
Qed.

(** C4, as the code has it.  Without a project (the property is absent,
    null, or the empty string) [open] returns the project listing and leaves
    the store as it is.  With a non-empty project name P that has no root it
    appends exactly one node to the store, a root of P whose summary is the
    goal if one was given and P otherwise, and returns it with the summary
    of P taken after the insertion.  With a non-empty project that has a
    root it returns that root and the summary, and the store is unchanged. *)
Theorem open_lists_creates_or_returns :
  forall (NQ : NodeQueries) s input agent goal,
    optionalString (getProp input "goal") "goal" = Ok goal ->
    ((getProp input "project" = VUndefined \/
      getProp input "project" = VNull \/
      getProp input "project" = VString "") ->
     handleOpen s input agent = Ok (ProjectList (listProjects s), s)) /\
    (forall P,
        getProp input "project" = VString P -> P <> "" ->
        (getProjectRoot s P = None ->
         exists root s',
           handleOpen s input agent = Ok (Opened P root (getProjectSummary s' P), s') /\
           nodes s' = (nodes s ++ [root])%list /\
           edges s' = edges s /\
           project root = P /\
           parent root = None /\
           summary root = orElse goal P /\
           resolved root = false /\
           created_by root = agent /\
           getProjectRoot s' P = Some root) /\
        (forall root,
            getProjectRoot s P = Some root ->
            handleOpen s input agent = Ok (Opened P root (getProjectSummary s P), s))).
Proof.
  intros NQ s input agent goal Hg. split.
  - intros H. unfold handleOpen.
    destruct H as [H | [H | H]]; rewrite H; simpl; rewrite Hg; reflexivity.
  - intros P HP Hne. split.
    + intros Hroot. eexists. eexists. split.
      * unfold handleOpen. rewrite HP. simpl. rewrite Hg. simpl.
        rewrite (length_eqb_0_string P Hne). rewrite Hroot. simpl. reflexivity.
      * simpl. repeat split; try reflexivity.
        unfold getProjectRoot in *. simpl.
        apply find_app_none; [exact Hroot | ].
        simpl. rewrite String.eqb_refl. reflexivity.
    + intros root Hroot. unfold handleOpen. rewrite HP. simpl. rewrite Hg. simpl.
      rewrite (length_eqb_0_string P Hne). rewrite Hroot. reflexivity.
Qed.

Lemma open_lists_creates_or_returns_witness :
  exists root s',
    handleOpen (NQ := Demo.queries) Demo.store
        (VObject [("project", VString "fresh"); ("goal", VString "ship it")]) "agent"
      = Ok (Opened "fresh" root (getProjectSummary (NodeQueries := Demo.queries) s' "fresh"), s') /\
    summary root = "ship it" /\
    List.length (nodes s') = 6%nat.
Proof.
  pose proof (open_lists_creates_or_returns Demo.queries Demo.store
                (VObject [("project", VString "fresh"); ("goal", VString "ship it")])
                "agent" (Some "ship it") eq_refl) as [_ H].
  destruct (H "fresh" eq_refl) as [Hcreate _]; [discriminate | ].
  destruct (Hcreate eq_refl) as (root & s' & Ho & Hn & _ & _ & _ & Hs & _).
  exists root, s'. split; [exact Ho | ]. split; [exact Hs | ].
  rewrite Hn, length_app. reflexivity.
Defined.

(** C4 as stated fails for the project name [""]: it has no root, yet
    [open] creates none and answers with the project listing, because the
    guard [if (!project)] takes the empty string for a missing project. *)
Lemma open_empty_project_counterexample :
  optionalString (VString "") "project" = Ok (Some "") /\
  getProjectRoot Demo.store "" = None /\
  handleOpen (NQ := Demo.queries) Demo.store (VObject [("project", VString "")]) "agent"
    = Ok (ProjectList (listProjects (NodeQueries := Demo.queries) Demo.store), Demo.store).
Proof.
  repeat split.
Qed.

(** ** The two revisions of the [tree] tool *)

Lemma forChildren_mapWithStats :
  forall (f : Node -> Stats -> outcome (TreeProgress.Built * Stats))
         (g : Node -> Stats -> outcome (TreePlain.TreeNode * Stats)),
    (forall child st,
        g child st =
        bind (f child st)
             (fun r => Ok (eraseProgress (TreeProgress.treeNode (fst r)), snd r))) ->
    forall children built t r st,
      bind (mapWithStats g children st)
           (fun p => Ok ((map eraseProgress built ++ fst p)%list, snd p)) =
      bind (TreeProgress.forChildren f children built t r st)
           (fun p => Ok (map eraseProgress (fst (fst (fst p))), snd p)).
Proof.
  intros f g Hfg. induction children as [ | child rest IH]; intros built t r st; simpl.
  - rewrite app_nil_r. reflexivity.
  - rewrite Hfg. destruct (f child st) as [[b st1] | e | ]; simpl; try reflexivity.
    rewrite <- IH. rewrite map_app. simpl.
    destruct (mapWithStats g rest st1) as [[ys st2] | e | ]; simpl; try reflexivity.
    rewrite <- app_assoc. reflexivity.
Qed.

Lemma buildTree_erase {NQ : NodeQueries} : forall fuel s node cd md stats,
  TreePlain.buildTree fuel s node cd md stats =
  bind (TreeProgress.buildTree fuel s node cd md stats)
       (fun r => Ok (eraseProgress (TreeProgress.treeNode (fst r)), snd r)).
Proof.
  induction fuel as [ | fuel IH]; intros s node cd md stats; [reflexivity | ].
  simpl.
  destruct (List.length (getChildren s (id node)) =? 0)%nat; [reflexivity | ].
  destruct (belowDepth cd md); [ | reflexivity].
  pose proof (forChildren_mapWithStats
                (fun child => TreeProgress.buildTree fuel s child (cd + 1) md)
                (fun child => TreePlain.buildTree fuel s child (cd + 1) md)
                (fun child st => IH s child (cd + 1)%nat md st)
                (getChildren s (id node)) [] 1 (if resolved node then 1 else 0)
                (countNode node stats)) as E.
  destruct (mapWithStats
              (fun child => TreePlain.buildTree fuel s child (cd + 1) md)
              (getChildren s (id node)) (countNode node stats))
    as [[ys st2] | e | ];
    destruct (TreeProgress.forChildren
                (fun child => TreeProgress.buildTree fuel s child (cd + 1) md)
                (getChildren s (id node)) [] 1 (if resolved node then 1 else 0)
                (countNode node stats))
      as [[[[built t] r] st3] | e' | ];
    simpl in *; try discriminate; try (inversion E; subst; reflexivity).
Qed.

Lemma forChildren_total :
  forall (f : Node -> Stats -> outcome (TreeProgress.Built * Stats)) children,
    (forall child st, In child children -> exists r, f child st = Ok r) ->
    forall built t r st,
      exists res, TreeProgress.forChildren f children built t r st = Ok res.
Proof.
  intros f children. induction children as [ | child rest IH]; intros H built t r st; simpl.
  - eexists; reflexivity.
  - destruct (H child st (or_introl eq_refl)) as [[b st1] ->]. simpl.
    apply IH. intros c st' Hin. apply H. right; exact Hin.
Qed.

Lemma forChildren_In :
  forall (f : Node -> Stats -> outcome (TreeProgress.Built * Stats)) children built t r st res,
    TreeProgress.forChildren f children built t r st = Ok res ->
    forall c, In c (fst (fst (fst res))) ->
      In c built \/
      exists child st0 b, In child children /\ f child st0 = Ok b /\
                          TreeProgress.treeNode (fst b) = c.
Proof.
  intros f children. induction children as [ | child rest IH];
    intros built t r st res H c Hc; simpl in H.
  - inversion H; subst. simpl in Hc. left; exact Hc.
  - apply bind_Ok_inv in H. destruct H as ([b st1] & Hf & H).
    destruct (IH _ _ _ _ _ H c Hc) as [Hin | (child' & st0 & b' & Hin & Hf' & Hb)].
    + apply in_app_or in Hin. destruct Hin as [Hin | [<- | []]].
      * left; exact Hin.
      * right. exists child, st, (b, st1). split; [left; reflexivity | ].
        split; [exact Hf | reflexivity].
    + right. exists child', st0, b'. split; [right; exact Hin | ]. split; assumption.
Qed.

Lemma treeProgress_buildTree_total {NQ : NodeQueries} : forall fuel s node cd q stats,
  (Z.of_nat cd <= Qceiling q)%Z ->
  (Z.to_nat (Qceiling q) < fuel + cd)%nat ->
  exists r, TreeProgress.buildTree fuel s node cd (Fin q) stats = Ok r.
Proof.
  induction fuel as [ | fuel IH]; intros s node cd q stats Hcd Hfuel.
  - exfalso. lia.
  - simpl.
    destruct (List.length (getChildren s (id node)) =? 0)%nat; [eexists; reflexivity | ].
    destruct (belowDepth cd (Fin q)) eqn:B; [ | eexists; reflexivity].
    apply belowDepth_ceiling in B.
    destruct (forChildren_total
                (fun child => TreeProgress.buildTree fuel s child (cd + 1) (Fin q))
                (getChildren s (id node))) with
      (built := @nil TreeProgress.TreeNode) (t := 1)
      (r := if resolved node then 1 else 0) (st := countNode node stats)
      as [[[[built t] r] st'] ->].
    + intros child st _. apply IH; lia.
    + simpl. eexists; reflexivity.
Qed.

Lemma treeProgress_buildTree_id {NQ : NodeQueries} : forall fuel s node cd md stats r,
  TreeProgress.buildTree fuel s node cd md stats = Ok r ->
  TreeProgress.tn_id (TreeProgress.treeNode (fst r)) = id node.
Proof.
  intros fuel s node cd md stats r H.
  destruct fuel as [ | fuel]; simpl in H; [discriminate | ].
  destruct (List.length (getChildren s (id node)) =? 0)%nat.
  - inversion H; subst; reflexivity.
  - destruct (belowDepth cd md).
    + apply bind_Ok_inv in H. destruct H as ([[[built t] r'] st'] & _ & H).
      inversion H; subst; reflexivity.
    + inversion H; subst; reflexivity.
Qed.

Lemma treeNodeAt_inv : forall top k t,
  treeNodeAt top k t ->
  (k = 0%nat /\ t = top) \/
  (exists kids c k0,
      k = S k0 /\ TreeProgress.tn_children top = Some kids /\ In c kids /\
      treeNodeAt c k0 t).
Proof.
  intros top k t H. destruct H as [top | top kids c k0 t Hk Hin Hsub].
  - left. split; reflexivity.
  - right. exists kids, c, k0. auto.
Qed.


Section TreeFacts.
Context {RT : Runtime} {NQ : NodeQueries}.

Lemma treeProgress_handleTree_ok : forall s input p od root,
  requireString (getProp input "project") "project" = Ok p ->
  optionalNumber (getProp input "depth") "depth" (Some (Fin 1)) (Some (Fin 20)) = Ok od ->
  getProjectRoot s p = Some root ->
  exists r,
    TreeProgress.buildTree (fuelFor (orElse od (Fin 10))) s root 0 (orElse od (Fin 10))
      {| st_total := 0; st_resolved := 0 |} = Ok r /\
    TreeProgress.handleTree s input =
      Ok {| TreeProgress.tr_project := p;
            TreeProgress.tr_tree := TreeProgress.treeNode (fst r);
            TreeProgress.tr_stats :=
              {| ts_total := st_total (snd r);
                 ts_resolved := st_resolved (snd r);
                 ts_unresolved := st_total (snd r) - st_resolved (snd r) |} |}.
Proof.
  intros s input p od root Hp Hd Hroot.
  destruct (accepted_depth _ 1 20 10 _ Hd) as (q & Eq & Hlo & Hhi);
    [discriminate | discriminate | ].
  destruct (treeProgress_buildTree_total (fuelFor (Fin q)) s root 0 q
              {| st_total := 0; st_resolved := 0 |}) as [[b st] Hb].
  - apply (ceiling_nonneg 1 q); [discriminate | exact Hlo].
  - simpl. lia.
  - exists (b, st). rewrite Eq. split; [exact Hb | ].
    unfold TreeProgress.handleTree. rewrite Hp. simpl. rewrite Hd. simpl.
    rewrite Hroot, Eq, Hb. reflexivity.
Qed.

Lemma handleTree_erase_forward : forall s input res',
  TreeProgress.handleTree s input = Ok res' ->
  TreePlain.handleTree s input = Ok (eraseResult res').
Proof.
  intros s input res' H.
  unfold TreeProgress.handleTree in H. unfold TreePlain.handleTree.
  destruct (requireString (getProp input "project") "project") as [p | e | ];
    simpl in *; try discriminate.
  destruct (optionalNumber (getProp input "depth") "depth" (Some (Fin 1)) (Some (Fin 20)))
    as [od | e | ]; simpl in *; try discriminate.
  destruct (getProjectRoot s p) as [root | ]; [ | discriminate].
  rewrite buildTree_erase.
  destruct (TreeProgress.buildTree (fuelFor (orElse od (Fin 10))) s root 0
              (orElse od (Fin 10)) {| st_total := 0; st_resolved := 0 |})
    as [[b st] | e | ]; simpl in *; try discriminate.
  inversion H; subst. reflexivity.
Qed.

Lemma handleTree_erase_backward : forall s input res,
  TreePlain.handleTree s input = Ok res ->
  exists res', TreeProgress.handleTree s input = Ok res' /\ eraseResult res' = res.
Proof.
  intros s input res H.
  unfold TreePlain.handleTree in H. unfold TreeProgress.handleTree.
  destruct (requireString (getProp input "project") "project") as [p | e | ];
    simpl in *; try discriminate.
  destruct (optionalNumber (getProp input "depth") "depth" (Some (Fin 1)) (Some (Fin 20)))
    as [od | e | ]; simpl in *; try discriminate.
  destruct (getProjectRoot s p) as [root | ]; [ | discriminate].
  rewrite buildTree_erase in H.
  destruct (TreeProgress.buildTree (fuelFor (orElse od (Fin 10))) s root 0
              (orElse od (Fin 10)) {| st_total := 0; st_resolved := 0 |})
    as [[b st] | e | ]; simpl in *; try discriminate.
  inversion H; subst. eexists. split; reflexivity.
Qed.

Lemma handleTreeProgress_terminates : forall s input,
  TreeProgress.handleTree s input <> OutOfFuel.
Proof.
  intros s input H.
  destruct (requireString (getProp input "project") "project") as [p | e | ] eqn:R.
  - destruct (optionalNumber (getProp input "depth") "depth" (Some (Fin 1)) (Some (Fin 20)))
      as [od | e | ] eqn:D.
    + destruct (getProjectRoot s p) as [root | ] eqn:G.
      * destruct (treeProgress_handleTree_ok s input p od root R D G) as (r & _ & E).
        rewrite E in H. discriminate.
      * unfold TreeProgress.handleTree in H. rewrite R in H. simpl in H.
        rewrite D in H. simpl in H. rewrite G in H. discriminate.
    + unfold TreeProgress.handleTree in H. rewrite R in H. simpl in H.
      rewrite D in H. discriminate.
    + exact (optionalNumber_never_OutOfFuel _ _ _ _ D).
  - unfold TreeProgress.handleTree in H. rewrite R in H. discriminate.
  - exact (requireString_never_OutOfFuel _ _ R).
Qed.

Lemma handleTreePlain_terminates : forall s input,
  TreePlain.handleTree s input <> OutOfFuel.
Proof.
  intros s input H.
  destruct (requireString (getProp input "project") "project") as [p | e | ] eqn:R.
  - destruct (optionalNumber (getProp input "depth") "depth" (Some (Fin 1)) (Some (Fin 20)))
      as [od | e | ] eqn:D.
    + destruct (getProjectRoot s p) as [root | ] eqn:G.
      * destruct (treeProgress_handleTree_ok s input p od root R D G) as (r & _ & E).
        apply handleTree_erase_forward in E. rewrite E in H. discriminate.
      * unfold TreePlain.handleTree in H. rewrite R in H. simpl in H.
        rewrite D in H. simpl in H. rewrite G in H. discriminate.
    + unfold TreePlain.handleTree in H. rewrite R in H. simpl in H.
      rewrite D in H. discriminate.
    + exact (optionalNumber_never_OutOfFuel _ _ _ _ D).
  - unfold TreePlain.handleTree in H. rewrite R in H. discriminate.
  - exact (requireString_never_OutOfFuel _ _ R).
Qed.

End TreeFacts.




(** C10.  On the success path the two revisions of the [tree] tool agree up
    to the progress annotation: whenever one returns, so does the other, with
    the same project name, the same stats, and a tree that differs only in
    that the newer revision's nodes carry a progress field; for a project
    with a root and an accepted depth both do return. *)
Theorem tree_revisions_agree :
  forall (RT : Runtime) (NQ : NodeQueries) s input,
    (forall res',
        TreeProgress.handleTree s input = Ok res' ->
        TreePlain.handleTree s input = Ok (eraseResult res')) /\
    (forall res,
        TreePlain.handleTree s input = Ok res ->
        exists res', TreeProgress.handleTree s input = Ok res' /\ eraseResult res' = res) /\
    (forall p od root,
        requireString (getProp input "project") "project" = Ok p ->
        optionalNumber (getProp input "depth") "depth" (Some (Fin 1)) (Some (Fin 20)) = Ok od ->
        getProjectRoot s p = Some root ->
        exists res',
          TreeProgress.handleTree s input = Ok res' /\
          TreePlain.handleTree s input = Ok (eraseResult res')) /\
    (forall res',
        TreePlain.tr_project (eraseResult res') = TreeProgress.tr_project res' /\
        TreePlain.tr_stats (eraseResult res') = TreeProgress.tr_stats res') /\
    (forall t,
        TreePlain.tn_id (eraseProgress t) = TreeProgress.tn_id t /\
        TreePlain.tn_summary (eraseProgress t) = TreeProgress.tn_summary t /\
        TreePlain.tn_resolved (eraseProgress t) = TreeProgress.tn_resolved t /\
        TreePlain.tn_properties (eraseProgress t) = TreeProgress.tn_properties t /\
        TreePlain.tn_child_count (eraseProgress t) = TreeProgress.tn_child_count t /\
        TreePlain.tn_children (eraseProgress t)
          = option_map (map eraseProgress) (TreeProgress.tn_children t)).
Proof.
  intros RT NQ s input.
  split; [apply handleTree_erase_forward | ].
  split; [apply handleTree_erase_backward | ].
  split.
  - intros p od root Hp Hd Hroot.
    destruct (treeProgress_handleTree_ok s input p od root Hp Hd Hroot) as (r & _ & Hres).
    eexists. split; [exact Hres | ].
    apply handleTree_erase_forward. exact Hres.
  - split.
    + intros res'. split; reflexivity.
    + intros t. destruct t as [i sm r props pr kids count].
      destruct kids; simpl; repeat split; reflexivity.
Qed.

Lemma tree_revisions_agree_witness :
  exists res',
    TreeProgress.handleTree (RT := Demo.runtime) (NQ := Demo.queries) Demo.store
        (Demo.treeInput "demo" 2) = Ok res' /\
    TreePlain.handleTree (RT := Demo.runtime) Demo.store (Demo.treeInput "demo" 2)
      = Ok (eraseResult res') /\
    TreePlain.tr_stats (eraseResult res')
      = {| ts_total := 4; ts_resolved := 1; ts_unresolved := 3 |}.
Proof.
  destruct (proj1 (proj2 (proj2 (tree_revisions_agree Demo.runtime Demo.queries Demo.store
                                   (Demo.treeInput "demo" 2))))
              "demo" (Some (Fin 2)) (Demo.node "r" None false) eq_refl eq_refl eq_refl)
    as (res' & H1 & H2).
  exists res'. split; [exact H1 | ]. split; [exact H2 | ].
  assert (E : Ok res' = TreeProgress.handleTree (RT := Demo.runtime) (NQ := Demo.queries)
                          Demo.store (Demo.treeInput "demo" 2))
    by (symmetry; exact H1).
  vm_compute in E. inversion E. reflexivity.
Defined.

(** ** Backups *)

Module BackupFacts.
Import Backup.

Lemma parseDigits_nonDigit : forall s acc,
  hasNonDigit s = true -> parseDigits s acc = None.
Proof.
  induction s as [ | c rest IH]; intros acc H; simpl in *; [discriminate | ].
  destruct (isDigit c); [apply IH; exact H | reflexivity].
Qed.

Lemma parseIndex_nonDigit : forall target,
  hasNonDigit target = true -> parseIndex target = None.
Proof.
  intros target H. destruct target as [ | c rest]; [reflexivity | ].
  unfold parseIndex. apply parseDigits_nonDigit. exact H.
Qed.

Lemma digit_parsed : forall d,
  (d < 10)%nat ->
  isDigit (digit d) = true /\ (nat_of_ascii (digit d) - 48 = d)%nat.
Proof.
  intros d H.
  do 10 (destruct d as [ | d]; [split; reflexivity | ]). lia.
Qed.

Lemma parseDigits_decimalDigits : forall fuel n acc,
  (n < fuel)%nat ->
  parseDigits (decimalDigits fuel n acc) 0 = parseDigits acc n.
Proof.
  induction fuel as [ | fuel IH]; intros n acc H; [lia | ].
  assert (D : (n mod 10 < 10)%nat) by (apply Nat.mod_upper_bound; lia).
  destruct (digit_parsed _ D) as [Dg Dv].
  cbn [decimalDigits]. cbv zeta.
  destruct (n <? 10)%nat eqn:L.
  - apply Nat.ltb_lt in L. cbn [parseDigits]. rewrite Dg, Dv.
    rewrite Nat.mod_small by exact L. reflexivity.
  - apply Nat.ltb_ge in L.
    assert (Q : (n / 10 < fuel)%nat).
    { pose proof (Nat.div_lt n 10). lia. }
    rewrite (IH _ _ Q). cbn [parseDigits]. rewrite Dg, Dv.
    f_equal. pose proof (Nat.div_mod_eq n 10). lia.
Qed.

(** The decimal numeral of a number is read back as that number. *)
Lemma parseIndex_decimal : forall n, parseIndex (decimal n) = Some n.
Proof.
  intros n.
  assert (P : parseDigits (decimal n) 0 = Some n).
  { unfold decimal. rewrite parseDigits_decimalDigits by lia. reflexivity. }
  unfold parseIndex. destruct (decimal n) as [ | c rest] eqn:E; [ | exact P].
  exfalso. simpl in P. inversion P; subst n. vm_compute in E. discriminate.
Qed.

Lemma lastN_length : forall (A : Type) (n : nat) (l : list A),
  List.length (lastN n l) = Nat.min n (List.length l).
Proof.
  intros A n l. unfold lastN. rewrite length_skipn. lia.
Qed.

Lemma lastN_all : forall (A : Type) (n : nat) (l : list A),
  (List.length l <= n)%nat -> lastN n l = l.
Proof.
  intros A n l H. unfold lastN.
  replace (List.length l - n)%nat with 0%nat by lia. reflexivity.
Qed.

Lemma lastN_app_left : forall (A : Type) (n : nat) (l l' : list A),
  lastN n (lastN n l ++ l') = lastN n (l ++ l').
Proof.
  intros A n l l'. unfold lastN at 2.
  assert (E : (skipn (List.length l - n) l ++ l')%list
              = skipn (List.length l - n) (l ++ l')).
  { rewrite skipn_app.
    replace (List.length l - n - List.length l)%nat with 0%nat by lia.
    reflexivity. }
  rewrite E. unfold lastN. rewrite skipn_skipn, length_skipn. f_equal.
  rewrite length_app. lia.
Qed.

Lemma lastN_app_right : forall (A : Type) (n : nat) (l l' : list A),
  (n <= List.length l')%nat -> lastN n (l ++ l') = lastN n l'.
Proof.
  intros A n l l' H. unfold lastN. rewrite skipn_app, length_app.
  replace (skipn (List.length l + List.length l' - n) l) with (@nil A).
  - simpl. f_equal. lia.
  - symmetry. apply skipn_all2. lia.
Qed.

Section WithImage.
Variable Image : Type.
Variable backupName : string -> string -> string.

Lemma step_inMemory : forall (db : Db Image) r,
  inMemory (step backupName db r) = inMemory db.
Proof.
  intros db r. destruct r as [img | now tag' | target]; simpl.
  - reflexivity.
  - unfold backupDb. destruct (inMemory db) eqn:M; simpl; [exact M | ].
    unfold inMemory in *. simpl. exact M.
  - unfold restoreDb. destruct (resolveTarget db target); reflexivity.
Qed.

Lemma step_backups : forall (db : Db Image) r,
  (List.length (backups db) <= MAX_BACKUPS)%nat ->
  backups (step backupName db r)
    = lastN MAX_BACKUPS (backups db ++ created backupName db r).
Proof.
  intros db r H. destruct r as [img | now tag' | target]; simpl.
  - rewrite app_nil_r, lastN_all; [reflexivity | exact H].
  - unfold backupDb. destruct (inMemory db); simpl.
    + rewrite app_nil_r, lastN_all; [reflexivity | exact H].
    + reflexivity.
  - unfold restoreDb. destruct (resolveTarget db target); simpl;
      rewrite app_nil_r, lastN_all; auto.
Qed.

Lemma run_backups : forall rs (db : Db Image),
  (List.length (backups db) <= MAX_BACKUPS)%nat ->
  backups (run backupName db rs)
    = lastN MAX_BACKUPS (backups db ++ createdBy backupName db rs).
Proof.
  induction rs as [ | r rest IH]; intros db H; simpl.
  - rewrite app_nil_r, lastN_all; [reflexivity | exact H].
  - rewrite IH.
    + rewrite (step_backups db r H), lastN_app_left, app_assoc. reflexivity.
    + rewrite (step_backups db r H), lastN_length. lia.
Qed.

Lemma createdBy_length : forall rs (db : Db Image),
  inMemory db = false ->
  forallb isCreate rs = true ->
  List.length (createdBy backupName db rs) = List.length rs.
Proof.
  induction rs as [ | r rest IH]; intros db M H; simpl in *; [reflexivity | ].
  apply andb_true_iff in H. destruct H as [Hr Hrest].
  rewrite length_app, IH; [ | rewrite step_inMemory; exact M | exact Hrest].
  destruct r; simpl in *; try discriminate. rewrite M. reflexivity.
Qed.

Lemma resolveTarget_existing : forall (db : Db Image) target b,
  resolveTarget db target = Some b ->
  In b (backups db) /\ inMemory db = false.
Proof.
  intros db target b H. unfold resolveTarget, listBackups in H.
  destruct (inMemory db) eqn:M.
  - exfalso. simpl in H.
    destruct (parseIndex target) as [[ | k] | ]; try discriminate.
    destruct k; discriminate.
  - split; [ | reflexivity].
    assert (ByName : find (fun b0 => String.eqb (filename b0) target)
                       (rev (backups db)) = Some b -> In b (backups db)).
    { intros F. apply find_some in F. apply in_rev. exact (proj1 F). }
    destruct (parseIndex target) as [[ | k] | ]; try (apply ByName; exact H).
    destruct (nth_error (rev (backups db)) k) as [b' | ] eqn:N;
      [ | apply ByName; exact H].
    inversion H; subst b'. apply in_rev. eapply nth_error_In. exact N.
Qed.

Lemma resolveTarget_by_name : forall (db : Db Image) target,
  inMemory db = false ->
  parseIndex target = None ->
  resolveTarget db target
  = find (fun b => String.eqb (filename b) target) (rev (backups db)).
Proof.
  intros db target M P. unfold resolveTarget, listBackups. rewrite M, P.
  reflexivity.
Qed.

Lemma find_by_name : forall (l : list (BackupFile Image)) target b,
  In b l -> filename b = target ->
  exists b', find (fun b0 => String.eqb (filename b0) target) l = Some b'
             /\ filename b' = target /\ In b' l.
Proof.
  intros l target b Hin Hname.
  destruct (find (fun b0 => String.eqb (filename b0) target) l) as [b' | ] eqn:F.
  - apply find_some in F. destruct F as [Hin' Hn'].
    exists b'. split; [reflexivity | ].
    split; [apply String.eqb_eq; exact Hn' | exact Hin'].
  - exfalso. pose proof (find_none _ _ F b Hin) as N. simpl in N.
    rewrite Hname, String.eqb_refl in N. discriminate.
Qed.

Lemma unique_name : forall (l : list (BackupFile Image)) b b',
  NoDup (map (@filename Image) l) ->
  In b l -> In b' l -> filename b = filename b' -> b = b'.
Proof.
  intros l b b'. induction l as [ | x rest IH]; intros ND Hb Hb' E;
    [contradiction | ].
  simpl in ND. inversion ND as [ | ? ? Hx ND']; subst.
  destruct Hb as [-> | Hb]; destruct Hb' as [-> | Hb'].
  - reflexivity.
  - exfalso. apply Hx. rewrite E. apply in_map. exact Hb'.
  - exfalso. apply Hx. rewrite <- E. apply in_map. exact Hb.
  - apply IH; assumption.
Qed.

Lemma resolveTarget_inMemory : forall (db : Db Image) target,
  inMemory db = true -> resolveTarget db target = None.
Proof.
  intros db target M. unfold resolveTarget, listBackups. rewrite M. simpl.
  destruct (parseIndex target) as [[ | k] | ]; try reflexivity.
  destruct k; reflexivity.
Qed.

End WithImage.

End BackupFacts.

(** C7.  Every backup taken of a file-backed store leaves at most 10 backups,
    namely the 10 most recent of the directory with the new file added,
    whatever the tag.  Over any run of commits, backups and restores that
    starts with at most 10 backups, the directory always holds exactly the
    (up to) 10 most recently created files; after 12 backups in a row these
    are the last 10 of the 12. *)
Theorem backup_retention_invariant :
  forall (Image : Type) (backupName : string -> string -> string)
         (db : Backup.Db Image),
    (forall now tag',
        Backup.inMemory db = false ->
        let file := Backup.mkBackupFile (backupName now tag') tag' (Backup.live db) in
        let db' := snd (Backup.backupDb backupName db now tag') in
        fst (Backup.backupDb backupName db now tag') = Some (backupName now tag') /\
        (List.length (Backup.backups db') <= 10)%nat /\
        Backup.backups db' = Backup.lastN 10 (Backup.backups db ++ [file])%list /\
        Backup.live db' = Backup.live db) /\
    (forall rs,
        (List.length (Backup.backups db) <= 10)%nat ->
        let db' := Backup.run backupName db rs in
        (List.length (Backup.backups db') <= 10)%nat /\
        Backup.backups db'
          = Backup.lastN 10 (Backup.backups db ++ Backup.createdBy backupName db rs)%list /\
        (Backup.inMemory db = false ->
         forallb Backup.isCreate rs = true ->
         List.length rs = 12%nat ->
         List.length (Backup.createdBy backupName db rs) = 12%nat /\
         Backup.backups db' = skipn 2 (Backup.createdBy backupName db rs) /\
         List.length (Backup.backups db') = 10%nat)).
Proof.
  intros Image backupName db. split.
  - intros now tag' M. unfold Backup.backupDb. rewrite M. simpl.
    split; [reflexivity | ]. split; [ | split; reflexivity].
    unfold Backup.pruneBackups. rewrite BackupFacts.lastN_length.
    unfold Backup.MAX_BACKUPS. lia.
  - intros rs H. simpl.
    pose proof (BackupFacts.run_backups Image backupName rs db H) as E.
    unfold Backup.MAX_BACKUPS in E.
    split; [rewrite E, BackupFacts.lastN_length; lia | ].
    split; [exact E | ].
    intros M Hc Hlen.
    pose proof (BackupFacts.createdBy_length Image backupName rs db M Hc) as L.
    rewrite Hlen in L. split; [exact L | ].
    rewrite E, BackupFacts.lastN_app_right by lia.
    unfold Backup.lastN. rewrite L. simpl Nat.sub.
    split; [reflexivity | ]. rewrite length_skipn, L. reflexivity.
Qed.

Lemma backup_retention_invariant_witness :
  map Backup.tag
      (Backup.backups (Backup.run Demo.backupName (Demo.db "graph.db" []) Demo.twelve))
    = ["test-2"; "test-3"; "test-4"; "test-5"; "test-6"; "test-7"; "test-8"; "test-9";
       "test-10"; "test-11"].
Proof.
  destruct (proj2 (backup_retention_invariant string Demo.backupName (Demo.db "graph.db" []))
              Demo.twelve) as (_ & _ & H); [simpl; lia | ].
  destruct (H eq_refl eq_refl eq_refl) as (_ & -> & _).
  reflexivity.
Defined.

(** C8.  Restore takes a 1-based index into the backups, newest first, or
    an exact file name.  A target written as the decimal numeral of [k + 1]
    resolves to the backup with [k] newer ones, so ["1"] is the backup
    created last; a target with a character that is no digit, as every file
    name has, resolves to a backup of that name whenever there is one, and
    to that very backup when names are unique.  Whatever a target resolves
    to is one of the backups.  When the target resolves, the live image
    becomes that backup's contents and nothing else changes; when no backup
    has the name, and for a numeral also none the place, restore fails with
    [BackupNotFound] ("Backup not found ...") and the store is left as it
    was. *)
Theorem restore_resolves_target :
  forall (Image : Type) (db : Backup.Db Image) target,
    (forall b,
        Backup.resolveTarget db target = Some b ->
        In b (Backup.backups db) /\
        Backup.inMemory db = false /\
        Backup.restoreDb db target
          = (Ok (Backup.filename b),
             Backup.mkDb (Backup.dbPath db) (Backup.contents b) (Backup.backups db))) /\
    (Backup.resolveTarget db target = None ->
     Backup.restoreDb db target = (Throw (Backup.BackupNotFound target), db) /\
     code (Backup.BackupNotFound target) = "backup_not_found" /\
     contains "Backup not found" (message (Backup.BackupNotFound target))) /\
    (Backup.inMemory db = false ->
     forall older newest,
       Backup.backups db = (older ++ [newest])%list ->
       Backup.resolveTarget db "1" = Some newest) /\
    (Backup.inMemory db = false ->
     forall k b,
       target = Backup.decimal (S k) ->
       nth_error (rev (Backup.backups db)) k = Some b ->
       Backup.resolveTarget db target = Some b) /\
    (Backup.inMemory db = false ->
     Backup.hasNonDigit target = true ->
     forall b,
       In b (Backup.backups db) -> Backup.filename b = target ->
       (exists b', Backup.resolveTarget db target = Some b' /\
                   Backup.filename b' = target /\
                   In b' (Backup.backups db)) /\
       (NoDup (map (@Backup.filename Image) (Backup.backups db)) ->
        Backup.resolveTarget db target = Some b)) /\
    (Backup.hasNonDigit target = true \/ target = "" ->
     (forall b, In b (Backup.backups db) -> Backup.filename b <> target) ->
     Backup.restoreDb db target = (Throw (Backup.BackupNotFound target), db)) /\
    (forall k,
        target = Backup.decimal (S k) ->
        (List.length (Backup.backups db) <= k)%nat ->
        (forall b, In b (Backup.backups db) -> Backup.filename b <> target) ->
        Backup.restoreDb db target = (Throw (Backup.BackupNotFound target), db)).
Proof.
  intros Image db target.
  assert (NotFound :
            (forall b, In b (Backup.backups db) -> Backup.filename b <> target) ->
            find (fun b0 => String.eqb (Backup.filename b0) target)
                 (Backup.listBackups db) = None).
  { intros Hnone.
    destruct (find (fun b0 => String.eqb (Backup.filename b0) target)
                   (Backup.listBackups db)) as [b' | ] eqn:F; [ | reflexivity].
    exfalso. apply find_some in F. destruct F as [Hin' Hn'].
    apply String.eqb_eq in Hn'.
    unfold Backup.listBackups in Hin'.
    destruct (Backup.inMemory db); [contradiction | ].
    apply in_rev in Hin'. exact (Hnone b' Hin' Hn'). }
  split.
  { intros b H.
    destruct (BackupFacts.resolveTarget_existing Image db target b H) as [Hin M].
    split; [exact Hin | ]. split; [exact M | ].
    unfold Backup.restoreDb. rewrite H. reflexivity. }
  split.
  { intros H. unfold Backup.restoreDb. rewrite H.
    split; [reflexivity | ]. split; [reflexivity | ].
    exists "", (": " ++ target). reflexivity. }
  split.
  { intros M older newest E. unfold Backup.resolveTarget, Backup.listBackups.
    rewrite M, E, rev_app_distr. reflexivity. }
  split.
  { intros M k b P N. unfold Backup.resolveTarget, Backup.listBackups.
    rewrite M, P, BackupFacts.parseIndex_decimal, N. reflexivity. }
  split.
  { intros M P b Hin Hname.
    rewrite (BackupFacts.resolveTarget_by_name Image db target M
               (BackupFacts.parseIndex_nonDigit target P)).
    apply in_rev in Hin.
    destruct (BackupFacts.find_by_name Image _ target b Hin Hname)
      as (b' & F & Hn' & Hin').
    split.
    - exists b'. split; [exact F | ]. split; [exact Hn' | ].
      apply in_rev. exact Hin'.
    - intros ND. rewrite F. f_equal.
      apply (BackupFacts.unique_name Image (Backup.backups db)).
      + exact ND.
      + apply in_rev. exact Hin'.
      + apply in_rev. exact Hin.
      + congruence. }
  split.
  { intros P Hnone.
    assert (PI : Backup.parseIndex target = None).
    { destruct P as [P | ->];
        [apply BackupFacts.parseIndex_nonDigit; exact P | reflexivity]. }
    unfold Backup.restoreDb, Backup.resolveTarget.
    rewrite PI, (NotFound Hnone). reflexivity. }
  { intros k P L Hnone.
    unfold Backup.restoreDb, Backup.resolveTarget.
    rewrite P, BackupFacts.parseIndex_decimal. rewrite <- P.
    rewrite (NotFound Hnone).
    assert (N : nth_error (Backup.listBackups db) k = None).
    { apply nth_error_None. unfold Backup.listBackups.
      destruct (Backup.inMemory db); [simpl; lia | rewrite length_rev; exact L]. }
    rewrite N. reflexivity. }
Qed.

Lemma restore_resolves_target_witness :
  let files := [Backup.mkBackupFile "graph-t0-daily.db" "daily" "image 0";
                Backup.mkBackupFile "graph-t1-snap.db" "snap" "image 1"] in
  Backup.restoreDb (Demo.db "graph.db" files) "1"
  = (Ok "graph-t1-snap.db", Backup.mkDb "graph.db" "image 1" files)
  /\ Backup.restoreDb (Demo.db "graph.db" files) "2"
     = (Ok "graph-t0-daily.db", Backup.mkDb "graph.db" "image 0" files)
  /\ Backup.restoreDb (Demo.db "graph.db" files) "graph-t0-daily.db"
     = (Ok "graph-t0-daily.db", Backup.mkDb "graph.db" "image 0" files)
  /\ Backup.restoreDb (Demo.db "graph.db" files) "nonexistent.db"
     = (Throw (Backup.BackupNotFound "nonexistent.db"), Demo.db "graph.db" files)
  /\ Backup.restoreDb (Demo.db "graph.db" files) "3"
     = (Throw (Backup.BackupNotFound "3"), Demo.db "graph.db" files).
Proof.
  intros files.
  assert (Names : forall t,
             existsb (fun b => String.eqb (Backup.filename b) t) files = false ->
             forall b, In b (Backup.backups (Demo.db "graph.db" files)) ->
                       Backup.filename b <> t).
  { intros t E b Hin Hn.
    assert (X : existsb (fun b => String.eqb (Backup.filename b) t) files = true).
    { apply existsb_exists. exists b. split; [exact Hin | ].
      apply String.eqb_eq. exact Hn. }
    rewrite X in E. discriminate. }
  split.
  { pose proof (restore_resolves_target string (Demo.db "graph.db" files) "1")
      as (Hres & _ & Hone & _).
    apply (Hres (Backup.mkBackupFile "graph-t1-snap.db" "snap" "image 1")).
    apply (Hone eq_refl [Backup.mkBackupFile "graph-t0-daily.db" "daily" "image 0"]).
    reflexivity. }
  split.
  { pose proof (restore_resolves_target string (Demo.db "graph.db" files) "2")
      as (Hres & _ & _ & Hidx & _).
    apply (Hres (Backup.mkBackupFile "graph-t0-daily.db" "daily" "image 0")).
    apply (Hidx eq_refl 1%nat); reflexivity. }
  split.
  { pose proof (restore_resolves_target string (Demo.db "graph.db" files)
                  "graph-t0-daily.db")
      as (Hres & _ & _ & _ & Hname & _).
    apply (Hres (Backup.mkBackupFile "graph-t0-daily.db" "daily" "image 0")).
    apply (Hname eq_refl eq_refl).
    - left. reflexivity.
    - reflexivity.
    - simpl. repeat constructor; simpl; intuition discriminate. }
  split.
  { pose proof (restore_resolves_target string (Demo.db "graph.db" files)
                  "nonexistent.db")
      as (_ & _ & _ & _ & _ & Hnone & _).
    apply Hnone; [left; reflexivity | apply Names; reflexivity]. }
  { pose proof (restore_resolves_target string (Demo.db "graph.db" files) "3")
      as (_ & _ & _ & _ & _ & _ & Hfar).
    apply (Hfar 2%nat); [reflexivity | simpl; lia | apply Names; reflexivity]. }
Defined.

(** C9.  On a store opened on [":memory:"], [backupDb] returns no destination
    for any timestamp and tag and changes nothing, and restore reports
    [BackupNotFound] for any target and replaces nothing. *)
Theorem in_memory_backup_noop :
  forall (Image : Type) (backupName : string -> string -> string)
         (db : Backup.Db Image),
    Backup.dbPath db = ":memory:" ->
    (forall now tag', Backup.backupDb backupName db now tag' = (None, db)) /\
    Backup.listBackups db = [] /\
    (forall target,
        Backup.restoreDb db target = (Throw (Backup.BackupNotFound target), db)).
Proof.
  intros Image backupName db Hpath.
  assert (M : Backup.inMemory db = true)
    by (unfold Backup.inMemory; rewrite Hpath; reflexivity).
  split; [ | split].
  - intros now tag'. unfold Backup.backupDb. rewrite M. reflexivity.
  - unfold Backup.listBackups. rewrite M. reflexivity.
  - intros target. unfold Backup.restoreDb.
    rewrite (BackupFacts.resolveTarget_inMemory Image db target M). reflexivity.
Qed.

Lemma in_memory_backup_noop_witness :
  Backup.backupDb Demo.backupName (Demo.db ":memory:" []) "t0" "test"
    = (None, Demo.db ":memory:" []) /\
  Backup.restoreDb (Demo.db ":memory:" []) "1"
    = (Throw (Backup.BackupNotFound "1"), Demo.db ":memory:" []).
Proof.
  destruct (in_memory_backup_noop string Demo.backupName (Demo.db ":memory:" []) eq_refl)
    as (Hb & _ & Hr).
  split; [apply Hb | apply Hr].
Defined.

(* ===================================================================== *)
(** * Further properties of the tools *)
(* ===================================================================== *)

(** ** Depth: default and rounding *)

Lemma mapM_ext : forall (A B : Type) (f g : A -> outcome B) (xs : list A),
  (forall x, f x = g x) -> mapM f xs = mapM g xs.
Proof.
  intros A B f g xs H. induction xs as [ | x rest IH]; simpl; [reflexivity | ].
  rewrite H, IH. reflexivity.
Qed.

Lemma mapWithStats_ext : forall (A B : Type) (f g : A -> Stats -> outcome (B * Stats)) xs st,
  (forall x st', f x st' = g x st') -> mapWithStats f xs st = mapWithStats g xs st.
Proof.
  intros A B f g xs. induction xs as [ | x rest IH]; intros st H; simpl; [reflexivity | ].
  rewrite H. destruct (g x st) as [[y st1] | e | ]; simpl; try reflexivity.
  rewrite IH by exact H. reflexivity.
Qed.

Lemma forChildren_ext :
  forall (f g : Node -> Stats -> outcome (TreeProgress.Built * Stats)) xs built t r st,
    (forall x st', f x st' = g x st') ->
    TreeProgress.forChildren f xs built t r st = TreeProgress.forChildren g xs built t r st.
Proof.
  intros f g xs. induction xs as [ | x rest IH]; intros built t r st H; simpl;
    [reflexivity | ].
  rewrite H. destruct (g x st) as [[y st1] | e | ]; simpl; try reflexivity.
  apply IH. exact H.
Qed.

Section SameCut.
Variables md md' : number.
Hypothesis same_cut : forall level, belowDepth level md = belowDepth level md'.
Context {NQ : NodeQueries}.

Lemma buildNodeTree_same_cut : forall fuel s i cd,
  buildNodeTree fuel s i cd md = buildNodeTree fuel s i cd md'.
Proof.
  induction fuel as [ | fuel IH]; intros s i cd; simpl; [reflexivity | ].
  destruct (getNodeOrThrow s i) as [n | e | ]; simpl; try reflexivity.
  rewrite same_cut.
  rewrite (mapM_ext _ _ (fun child => buildNodeTree fuel s (id child) (cd + 1) md)
             (fun child => buildNodeTree fuel s (id child) (cd + 1) md')).
  - reflexivity.
  - intros child. apply IH.
Qed.

Lemma treePlain_buildTree_same_cut : forall fuel s node cd st,
  TreePlain.buildTree fuel s node cd md st = TreePlain.buildTree fuel s node cd md' st.
Proof.
  induction fuel as [ | fuel IH]; intros s node cd st; simpl; [reflexivity | ].
  rewrite same_cut.
  rewrite (mapWithStats_ext _ _
             (fun child => TreePlain.buildTree fuel s child (cd + 1) md)
             (fun child => TreePlain.buildTree fuel s child (cd + 1) md')).
  - reflexivity.
  - intros child st'. apply IH.
Qed.

Lemma treeProgress_buildTree_same_cut : forall fuel s node cd st,
  TreeProgress.buildTree fuel s node cd md st = TreeProgress.buildTree fuel s node cd md' st.
Proof.
  induction fuel as [ | fuel IH]; intros s node cd st; simpl; [reflexivity | ].
  rewrite same_cut.
  rewrite (forChildren_ext
             (fun child => TreeProgress.buildTree fuel s child (cd + 1) md)
             (fun child => TreeProgress.buildTree fuel s child (cd + 1) md')).
  - reflexivity.
  - intros child st'. apply IH.
Qed.

End SameCut.

Lemma belowDepth_round_up : forall (q : Q) (level : nat),
  belowDepth level (Fin q) = belowDepth level (Fin (inject_Z (Qceiling q))).
Proof.
  intros q level.
  destruct (belowDepth level (Fin q)) eqn:B;
    destruct (belowDepth level (Fin (inject_Z (Qceiling q)))) eqn:B'; try reflexivity.
  - apply belowDepth_ceiling in B.
    assert (L : belowDepth level (Fin (inject_Z (Qceiling q))) = true)
      by (apply belowDepth_ceiling; rewrite Qceiling_Z; exact B).
    congruence.
  - apply belowDepth_ceiling in B'. rewrite Qceiling_Z in B'.
    apply belowDepth_ceiling in B'. congruence.
Qed.

Lemma num_ltb_Fin : forall p q : Q,
  num_ltb (Fin p) (Fin q) = true <-> (p < q)%Q.
Proof.
  intros p q. simpl. rewrite Qlt_alt. destruct (p ?= q)%Q; split; congruence.
Qed.

Lemma num_ltb_Fin_false : forall p q : Q,
  num_ltb (Fin p) (Fin q) = false <-> (q <= p)%Q.
Proof.
  intros p q. split.
  - intros H. apply Qnot_lt_le. intros L. apply num_ltb_Fin in L. congruence.
  - intros L. destruct (num_ltb (Fin p) (Fin q)) eqn:B; [ | reflexivity].
    apply num_ltb_Fin in B. exfalso. exact (Qle_not_lt _ _ L B).
Qed.

Section RoundingFacts.
Context {RT : Runtime}.

(** With integral bounds a number at or above the lower bound is accepted
    exactly when its ceiling is, and rejected with the same error. *)
Lemma optionalNumber_round_up : forall field (lo hi : Z) (q : Q),
  (inject_Z lo <= q)%Q ->
  (optionalNumber (VNumber (Fin q)) field
     (Some (Fin (inject_Z lo))) (Some (Fin (inject_Z hi))) = Ok (Some (Fin q)) /\
   optionalNumber (VNumber (Fin (inject_Z (Qceiling q)))) field
     (Some (Fin (inject_Z lo))) (Some (Fin (inject_Z hi)))
     = Ok (Some (Fin (inject_Z (Qceiling q))))) \/
  (exists e,
      optionalNumber (VNumber (Fin q)) field
        (Some (Fin (inject_Z lo))) (Some (Fin (inject_Z hi))) = Throw e /\
      optionalNumber (VNumber (Fin (inject_Z (Qceiling q)))) field
        (Some (Fin (inject_Z lo))) (Some (Fin (inject_Z hi))) = Throw e).
Proof.
  intros field lo hi q Hlo.
  assert (Hlo' : (inject_Z lo <= inject_Z (Qceiling q))%Q)
    by (eapply Qle_trans; [exact Hlo | apply Qle_ceiling]).
  unfold optionalNumber. cbn [isNaN].
  rewrite (proj2 (num_ltb_Fin_false q (inject_Z lo)) Hlo).
  rewrite (proj2 (num_ltb_Fin_false (inject_Z (Qceiling q)) (inject_Z lo)) Hlo').
  destruct (num_ltb (Fin (inject_Z hi)) (Fin q)) eqn:B.
  - right. apply num_ltb_Fin in B.
    assert (B' : num_ltb (Fin (inject_Z hi)) (Fin (inject_Z (Qceiling q))) = true)
      by (apply num_ltb_Fin; eapply Qlt_le_trans; [exact B | apply Qle_ceiling]).
    rewrite B'. eexists. split; reflexivity.
  - left. apply num_ltb_Fin_false in B.
    assert (B' : num_ltb (Fin (inject_Z hi)) (Fin (inject_Z (Qceiling q))) = false).
    { apply num_ltb_Fin_false. rewrite <- Zle_Qle.
      rewrite <- (Qceiling_Z hi). apply Qceiling_resp_le. exact B. }
    rewrite B'. split; reflexivity.
Qed.

End RoundingFacts.

Lemma fuelFor_round_up : forall q : Q,
  fuelFor (Fin (inject_Z (Qceiling q))) = fuelFor (Fin q).
Proof.
  intros q. simpl. rewrite Qceiling_Z. reflexivity.
Qed.

Lemma getProp_contextRequest_id : forall who depth,
  getProp (contextRequest who depth) "node_id" = who.
Proof. reflexivity. Qed.

Lemma getProp_contextRequest_depth : forall who depth,
  getProp (contextRequest who depth) "depth" = depth.
Proof. reflexivity. Qed.

Lemma getProp_treeRequest_project : forall who depth,
  getProp (treeRequest who depth) "project" = who.
Proof. reflexivity. Qed.

Lemma getProp_treeRequest_depth : forall who depth,
  getProp (treeRequest who depth) "depth" = depth.
Proof. reflexivity. Qed.

(** X1.  A fractional depth is answered exactly like the next integer: for a
    depth [d >= 0] the [context] tool gives the same outcome (the same tree,
    or the same rejection) for [d] and for its ceiling, and so does the
    [tree] tool in both revisions for [d >= 1]. *)
Theorem fractional_depth_rounds_up :
  forall (RT : Runtime) (NQ : NodeQueries) s (q : Q) who,
    ((0 <= q)%Q ->
     handleContext s (contextRequest who (VNumber (Fin q)))
     = handleContext s (contextRequest who (VNumber (Fin (inject_Z (Qceiling q)))))) /\
    ((1 <= q)%Q ->
     TreePlain.handleTree s (treeRequest who (VNumber (Fin q)))
     = TreePlain.handleTree s (treeRequest who (VNumber (Fin (inject_Z (Qceiling q))))) /\
     TreeProgress.handleTree s (treeRequest who (VNumber (Fin q)))
     = TreeProgress.handleTree s (treeRequest who (VNumber (Fin (inject_Z (Qceiling q)))))).
Proof.
  intros RT NQ s q who. split.
  - intros Hq. unfold handleContext.
    rewrite !getProp_contextRequest_id, !getProp_contextRequest_depth.
    destruct (requireString who "node_id") as [nodeId | e | ]; cbn [bind];
      try reflexivity.
    pose proof (optionalNumber_round_up "depth" 0 10 q Hq) as R.
    change (inject_Z 0) with 0%Q in R. change (inject_Z 10) with 10%Q in R.
    destruct R as [[-> ->] | (e & -> & ->)]; [ | reflexivity].
    cbn [bind orElse].
    destruct (getNodeOrThrow s nodeId) as [n | e | ]; cbn [bind]; try reflexivity.
    rewrite fuelFor_round_up.
    rewrite (buildNodeTree_same_cut (Fin q) (Fin (inject_Z (Qceiling q)))
               (belowDepth_round_up q)).
    reflexivity.
  - intros Hq. unfold TreePlain.handleTree, TreeProgress.handleTree.
    rewrite !getProp_treeRequest_project, !getProp_treeRequest_depth.
    destruct (requireString who "project") as [p | e | ]; cbn [bind];
      try (split; reflexivity).
    pose proof (optionalNumber_round_up "depth" 1 20 q Hq) as R.
    change (inject_Z 1) with 1%Q in R. change (inject_Z 20) with 20%Q in R.
    destruct R as [[-> ->] | (e & -> & ->)]; [ | split; reflexivity].
    cbn [bind orElse].
    destruct (getProjectRoot s p) as [root | ]; [ | split; reflexivity].
    rewrite fuelFor_round_up.
    rewrite (treePlain_buildTree_same_cut (Fin q) (Fin (inject_Z (Qceiling q)))
               (belowDepth_round_up q)).
    rewrite (treeProgress_buildTree_same_cut (Fin q) (Fin (inject_Z (Qceiling q)))
               (belowDepth_round_up q)).
    split; reflexivity.
Qed.

Lemma fractional_depth_rounds_up_witness :
  handleContext (RT := Demo.runtime) Demo.store
    (contextRequest (VString "r") (VNumber (Fin (3 # 2))))
  = handleContext (RT := Demo.runtime) Demo.store
      (contextRequest (VString "r") (VNumber (Fin 2))).
Proof.
  apply (proj1 (fractional_depth_rounds_up Demo.runtime Demo.queries Demo.store
                  (3 # 2) (VString "r"))).
  discriminate.
Defined.

(** ** What the [tree] stats count *)

Lemma mapWithStats_counts :
  forall (f : Node -> Stats -> outcome (TreePlain.TreeNode * Stats)) xs,
    (forall x st y st',
        In x xs -> f x st = Ok (y, st') ->
        st_total st' = st_total st + Z.of_nat (List.length (shownNodes y)) /\
        st_resolved st'
          = st_resolved st
            + Z.of_nat (List.length (filter TreePlain.tn_resolved (shownNodes y)))) ->
    forall st ys st',
      mapWithStats f xs st = Ok (ys, st') ->
      st_total st' = st_total st + Z.of_nat (List.length (flat_map shownNodes ys)) /\
      st_resolved st'
        = st_resolved st
          + Z.of_nat (List.length
                        (filter TreePlain.tn_resolved (flat_map shownNodes ys))).
Proof.
  intros f xs. induction xs as [ | x rest IH]; intros Hf st ys st' H; simpl in H.
  - inversion H; subst. simpl. lia.
  - apply bind_Ok_inv in H. destruct H as ([y st1] & Hx & H).
    apply bind_Ok_inv in H. destruct H as ([ys1 st2] & Hrest & H).
    inversion H; subst; clear H.
    destruct (Hf x st y st1 (or_introl eq_refl) Hx) as [T1 R1].
    destruct (IH (fun x0 st0 y0 st0' Hin => Hf x0 st0 y0 st0' (or_intror Hin))
                 st1 ys1 st' Hrest) as [T2 R2].
    simpl. rewrite filter_app, !length_app. lia.
Qed.

Lemma countNode_counts : forall node st,
  st_total (countNode node st) = st_total st + 1 /\
  st_resolved (countNode node st) = st_resolved st + (if resolved node then 1 else 0).
Proof.
  intros node st. unfold countNode. destruct (resolved node); simpl; lia.
Qed.

Lemma treePlain_buildTree_counts : forall fuel s node cd md st t st',
  TreePlain.buildTree fuel s node cd md st = Ok (t, st') ->
  st_total st' = st_total st + Z.of_nat (List.length (shownNodes t)) /\
  st_resolved st'
    = st_resolved st + Z.of_nat (List.length (filter TreePlain.tn_resolved (shownNodes t))).
Proof.
  induction fuel as [ | fuel IH]; intros s node cd md st t st' H; [discriminate | ].
  simpl in H. destruct (countNode_counts node st) as [CT CR].
  destruct (List.length (getChildren s (id node)) =? 0)%nat.
  - inversion H; subst; clear H. simpl. destruct (resolved node); simpl; lia.
  - destruct (belowDepth cd md).
    + apply bind_Ok_inv in H. destruct H as ([built st1] & Hm & H).
      inversion H; subst; clear H.
      destruct (mapWithStats_counts _ _
                  (fun x st0 y st0' _ Hx => IH s x (cd + 1)%nat md st0 y st0' Hx)
                  _ _ _ Hm) as [T R].
      simpl. destruct (resolved node); simpl; lia.
    + inversion H; subst; clear H. simpl. destruct (resolved node); simpl; lia.
Qed.

(** X2.  The stats of a [tree] answer count the nodes the answer shows, not
    the nodes of the project: [total] is the number of rendered nodes,
    [resolved] the number of rendered nodes that are resolved, and
    [unresolved] the number of the others.  Nodes below a cut are not
    counted.  The newer revision reports the same numbers for the same
    rendered nodes. *)
Theorem tree_stats_count_shown_nodes :
  forall (RT : Runtime) (NQ : NodeQueries) s input,
    (forall res,
        TreePlain.handleTree s input = Ok res ->
        let shown := shownNodes (TreePlain.tr_tree res) in
        ts_total (TreePlain.tr_stats res) = Z.of_nat (List.length shown) /\
        ts_resolved (TreePlain.tr_stats res)
          = Z.of_nat (List.length (filter TreePlain.tn_resolved shown)) /\
        ts_unresolved (TreePlain.tr_stats res)
          = Z.of_nat (List.length
                        (filter (fun t => negb (TreePlain.tn_resolved t)) shown))) /\
    (forall res,
        TreeProgress.handleTree s input = Ok res ->
        let shown := shownNodes (eraseProgress (TreeProgress.tr_tree res)) in
        ts_total (TreeProgress.tr_stats res) = Z.of_nat (List.length shown) /\
        ts_resolved (TreeProgress.tr_stats res)
          = Z.of_nat (List.length (filter TreePlain.tn_resolved shown)) /\
        ts_unresolved (TreeProgress.tr_stats res)
          = Z.of_nat (List.length
                        (filter (fun t => negb (TreePlain.tn_resolved t)) shown))).
Proof.
  intros RT NQ s input.
  assert (P : forall res,
             TreePlain.handleTree s input = Ok res ->
             let shown := shownNodes (TreePlain.tr_tree res) in
             ts_total (TreePlain.tr_stats res) = Z.of_nat (List.length shown) /\
             ts_resolved (TreePlain.tr_stats res)
               = Z.of_nat (List.length (filter TreePlain.tn_resolved shown)) /\
             ts_unresolved (TreePlain.tr_stats res)
               = Z.of_nat (List.length
                             (filter (fun t => negb (TreePlain.tn_resolved t)) shown))).
  { intros res H. unfold TreePlain.handleTree in H.
    apply bind_Ok_inv in H. destruct H as (p & _ & H).
    apply bind_Ok_inv in H. destruct H as (od & _ & H).
    cbv zeta in H. destruct (getProjectRoot s p) as [root | ]; [ | discriminate].
    apply bind_Ok_inv in H. destruct H as ([t st] & Hb & H).
    inversion H; subst; clear H. simpl.
    destruct (treePlain_buildTree_counts _ _ _ _ _ _ _ _ Hb) as [T R].
    simpl in T, R.
    pose proof (filter_length TreePlain.tn_resolved (shownNodes t)) as L.
    repeat split; lia. }
  split; [exact P | ].
  intros res H. apply handleTree_erase_forward in H.
  exact (P _ H).
Qed.

Lemma tree_stats_count_shown_nodes_witness :
  exists res,
    TreePlain.handleTree (RT := Demo.runtime) Demo.store (Demo.treeInput "demo" 1) = Ok res /\
    ts_total (TreePlain.tr_stats res) = 3 /\
    List.length (nodes Demo.store) = 5%nat.
Proof.
  eexists. split; [reflexivity | ].
  split; [ | reflexivity].
  apply (proj1 (tree_stats_count_shown_nodes Demo.runtime Demo.queries Demo.store
                  (Demo.treeInput "demo" 1)) _ eq_refl).
Defined.

(** ** How progress adds up *)

Lemma treeProgress_buildTree_subtotals {NQ : NodeQueries} : forall fuel s node cd md st b st',
  TreeProgress.buildTree fuel s node cd md st = Ok (b, st') ->
  TreeProgress.subtotal b = subtotalOf (TreeProgress.treeNode b) /\
  TreeProgress.subresolved b = subresolvedOf (TreeProgress.treeNode b) /\
  TreeProgress.tn_resolved (TreeProgress.treeNode b) = resolved node.
Proof.
  intros fuel s node cd md st b st' H.
  destruct fuel as [ | fuel]; simpl in H; [discriminate | ].
  destruct (List.length (getChildren s (id node)) =? 0)%nat.
  - inversion H; subst; clear H. unfold subtotalOf, subresolvedOf. simpl. auto.
  - destruct (belowDepth cd md).
    + apply bind_Ok_inv in H. destruct H as ([[[built t] r] st1] & _ & H).
      inversion H; subst; clear H. unfold subtotalOf, subresolvedOf. simpl. auto.
    + inversion H; subst; clear H. unfold subtotalOf, subresolvedOf. simpl. auto.
Qed.

Lemma forChildren_sums :
  forall (f : Node -> Stats -> outcome (TreeProgress.Built * Stats)) xs,
    (forall x st b st',
        f x st = Ok (b, st') ->
        TreeProgress.subtotal b = subtotalOf (TreeProgress.treeNode b) /\
        TreeProgress.subresolved b = subresolvedOf (TreeProgress.treeNode b)) ->
    forall built t r st built' t' r' st',
      TreeProgress.forChildren f xs built t r st = Ok (built', t', r', st') ->
      exists added,
        built' = (built ++ added)%list /\
        t' = t + sumZ (map subtotalOf added) /\
        r' = r + sumZ (map subresolvedOf added).
Proof.
  intros f xs Hf. induction xs as [ | x rest IH];
    intros built t r st built' t' r' st' H; simpl in H.
  - inversion H; subst. exists []. rewrite app_nil_r. simpl. repeat split; lia.
  - apply bind_Ok_inv in H. destruct H as ([b st1] & Hx & H).
    destruct (Hf _ _ _ _ Hx) as [Et Er].
    destruct (IH _ _ _ _ _ _ _ _ H) as (added & -> & -> & ->).
    exists (TreeProgress.treeNode b :: added).
    rewrite <- app_assoc. simpl. unfold sumZ in *. simpl. repeat split; lia.
Qed.

Lemma treeProgress_buildTree_adds_up {NQ : NodeQueries} : forall fuel s node cd md st b st',
  TreeProgress.buildTree fuel s node cd md st = Ok (b, st') ->
  forall k t,
    treeNodeAt (TreeProgress.treeNode b) k t ->
    (TreeProgress.tn_progress t = None <-> getChildren s (TreeProgress.tn_id t) = []) /\
    (forall kids,
        TreeProgress.tn_children t = Some kids ->
        TreeProgress.tn_progress t
          = Some {| p_resolved :=
                      (if TreeProgress.tn_resolved t then 1 else 0)
                      + sumZ (map subresolvedOf kids);
                    p_total := 1 + sumZ (map subtotalOf kids) |}).
Proof.
  induction fuel as [ | fuel IH]; intros s node cd md st b st' H k t Hat;
    [discriminate | ].
  simpl in H. apply treeNodeAt_inv in Hat.
  destruct (List.length (getChildren s (id node)) =? 0)%nat eqn:L.
  - apply length_eqb_0 in L. inversion H as [[Hb Hst]]; clear H.
    rewrite <- Hb in Hat. simpl in Hat.
    destruct Hat as [[_ ->] | (kids & c & k0 & _ & Hk & _)]; [ | discriminate].
    simpl. split; [tauto | intros kids Hk; discriminate].
  - assert (Lne : getChildren s (id node) <> [])
      by (intros E; rewrite E in L; discriminate).
    destruct (belowDepth cd md) eqn:B.
    + apply bind_Ok_inv in H. destruct H as ([[[built t'] r'] st1] & Hloop & H).
      inversion H as [[Hb Hst]]; clear H. rewrite <- Hb in Hat. simpl in Hat.
      destruct Hat as [[_ ->] | (kids & c & k0 & _ & Hk & Hin & Hsub)].
      * simpl. split; [split; [discriminate | contradiction] | ].
        intros kids Hk. inversion Hk; subst kids.
        destruct (forChildren_sums _ _
                    (fun x st0 b0 st0' Hx =>
                       let P := treeProgress_buildTree_subtotals _ _ _ _ _ _ _ _ Hx in
                       conj (proj1 P) (proj1 (proj2 P)))
                    _ _ _ _ _ _ _ _ Hloop) as (added & Ea & Et & Er).
        simpl in Ea. subst added. rewrite Et, Er. reflexivity.
      * inversion Hk; subst kids.
        destruct (forChildren_In _ _ _ _ _ _ _ Hloop c Hin)
          as [[] | (child & st0 & [b0 st0'] & _ & Hb0 & Hc)].
        simpl in Hc. subst c. eapply IH; eassumption.
    + inversion H as [[Hb Hst]]; clear H. rewrite <- Hb in Hat. simpl in Hat.
      destruct Hat as [[_ ->] | (kids & c & k0 & _ & Hk & _)]; [ | discriminate].
      simpl. split; [split; [discriminate | contradiction] | ].
      intros kids Hk. discriminate.
Qed.

(** X3.  In an answer of the newer [tree] revision a node carries a progress
    count exactly when it has children in the store, and the progress of a
    node shown with its children is the sum over itself and what each child
    contributes: a child's own progress, or one node (resolved or not) for a
    leaf. *)
Theorem tree_progress_adds_up :
  forall (RT : Runtime) (NQ : NodeQueries) s input res,
    TreeProgress.handleTree s input = Ok res ->
    forall k t,
      treeNodeAt (TreeProgress.tr_tree res) k t ->
      (TreeProgress.tn_progress t = None <-> getChildren s (TreeProgress.tn_id t) = []) /\
      (forall kids,
          TreeProgress.tn_children t = Some kids ->
          TreeProgress.tn_progress t
            = Some {| p_resolved :=
                        (if TreeProgress.tn_resolved t then 1 else 0)
                        + sumZ (map subresolvedOf kids);
                      p_total := 1 + sumZ (map subtotalOf kids) |}).
Proof.
  intros RT NQ s input res H. unfold TreeProgress.handleTree in H.
  apply bind_Ok_inv in H. destruct H as (p & _ & H).
  apply bind_Ok_inv in H. destruct H as (od & _ & H).
  cbv zeta in H. destruct (getProjectRoot s p) as [root | ]; [ | discriminate].
  apply bind_Ok_inv in H. destruct H as ([b st] & Hb & H).
  inversion H; subst; clear H. simpl.
  eapply treeProgress_buildTree_adds_up. exact Hb.
Qed.

Lemma tree_progress_adds_up_witness :
  exists res,
    TreeProgress.handleTree (RT := Demo.runtime) (NQ := Demo.queries) Demo.store
        (Demo.treeInput "demo" 1) = Ok res /\
    TreeProgress.tn_progress (TreeProgress.tr_tree res)
      = Some {| p_resolved := 2; p_total := 5 |}.
Proof.
  eexists. split; [reflexivity | ].
  destruct (tree_progress_adds_up Demo.runtime Demo.queries Demo.store
              (Demo.treeInput "demo" 1) _ eq_refl 0%nat _ (treeNodeAt_top _)) as [_ H].
  rewrite (H _ eq_refl). reflexivity.
Defined.

(** ** Opening a project twice *)

Section OpenFacts.
Context {NQ : NodeQueries}.

Lemma handleOpen_cases : forall s input agent res s',
  handleOpen s input agent = Ok (res, s') ->
  exists given goal,
    optionalString (getProp input "project") "project" = Ok given /\
    optionalString (getProp input "goal") "goal" = Ok goal /\
    ((truthy given = None /\ res = ProjectList (listProjects s) /\ s' = s) \/
     (exists P root,
         truthy given = Some P /\
         res = Opened P root (getProjectSummary s' P) /\
         getProjectRoot s' P = Some root /\
         ((getProjectRoot s P = Some root /\ s' = s) \/
          (getProjectRoot s P = None /\
           nodes s' = (nodes s ++ [root])%list /\ edges s' = edges s /\
           project root = P /\ parent root = None)))).
Proof.
  intros s input agent res s' H. unfold handleOpen in H.
  destruct (optionalString (getProp input "project") "project") as [given | e | ];
    simpl in H; try discriminate.
  destruct (optionalString (getProp input "goal") "goal") as [goal | e | ];
    simpl in H; try discriminate.
  exists given, goal. split; [reflexivity | ]. split; [reflexivity | ].
  destruct (truthy given) as [P | ].
  - right. destruct (getProjectRoot s P) as [root | ] eqn:R.
    + inversion H; subst; clear H. exists P, root. repeat split; auto.
    + simpl in H. inversion H; subst; clear H.
      eexists. eexists. split; [reflexivity | ]. split; [reflexivity | ].
      assert (F : getProjectRoot
                    {| nodes := (nodes s ++
                                 [{| id := newId s; project := P; parent := None;
                                     summary := orElse goal P; resolved := false;
                                     state := VNull; properties := [];
                                     discovery := Some "pending";
                                     created_by := agent |}])%list;
                       edges := edges s |} P
                  = Some {| id := newId s; project := P; parent := None;
                            summary := orElse goal P; resolved := false;
                            state := VNull; properties := [];
                            discovery := Some "pending"; created_by := agent |}).
      { unfold getProjectRoot in *. simpl. apply find_app_none; [exact R | ].
        simpl. rewrite String.eqb_refl. reflexivity. }
      split; [exact F | ]. right. split; [exact R | repeat split].
  - left. inversion H; subst. repeat split.
Qed.

End OpenFacts.

(** X4.  Opening is idempotent on the store: after a successful [open], the
    same request (from any agent) succeeds again, changes nothing, and, for
    a project, returns the very root the first call returned or created. *)
Theorem open_again_reuses_root :
  forall (NQ : NodeQueries) s input agent res s',
    handleOpen s input agent = Ok (res, s') ->
    forall agent',
      exists res',
        handleOpen s' input agent' = Ok (res', s') /\
        match res with
        | ProjectList _ => res' = ProjectList (listProjects s')
        | Opened P root _ => res' = Opened P root (getProjectSummary s' P)
        end.
Proof.
  intros NQ s input agent res s' H agent'.
  destruct (handleOpen_cases s input agent res s' H)
    as (given & goal & Hp & Hg & [(T & -> & ->) | (P & root & T & -> & R' & _)]).
  - eexists. split; [ | reflexivity].
    unfold handleOpen. rewrite Hp. simpl. rewrite Hg. simpl. rewrite T. reflexivity.
  - eexists. split; [ | reflexivity].
    unfold handleOpen. rewrite Hp. simpl. rewrite Hg. simpl. rewrite T, R'. reflexivity.
Qed.

Lemma open_again_reuses_root_witness :
  exists root s',
    handleOpen (NQ := Demo.queries) Demo.store
        (VObject [("project", VString "fresh")]) "first"
      = Ok (Opened "fresh" root (getProjectSummary (NodeQueries := Demo.queries) s' "fresh"), s') /\
    handleOpen (NQ := Demo.queries) s' (VObject [("project", VString "fresh")]) "second"
      = Ok (Opened "fresh" root (getProjectSummary (NodeQueries := Demo.queries) s' "fresh"), s').
Proof.
  eexists. eexists. split; [reflexivity | ].
  destruct (open_again_reuses_root Demo.queries Demo.store
              (VObject [("project", VString "fresh")]) "first" _ _ eq_refl "second")
    as (res' & H & E).
  rewrite H, E. reflexivity.
Defined.

Lemma rootsOf_find : forall s p,
  getProjectRoot s p = None <-> rootsOf s p = [].
Proof.
  intros s p. unfold getProjectRoot, rootsOf.
  induction (nodes s) as [ | n rest IH]; simpl; [tauto | ].
  destruct (String.eqb (project n) p && isNone (parent n)); [ | exact IH].
  split; discriminate.
Qed.

Lemma rootsOf_app : forall ns es n p,
  rootsOf {| nodes := (ns ++ [n])%list; edges := es |} p
  = (rootsOf {| nodes := ns; edges := es |} p
     ++ (if String.eqb (project n) p && isNone (parent n) then [n] else []))%list.
Proof.
  intros ns es n p. unfold rootsOf. simpl. rewrite filter_app. reflexivity.
Qed.

(** X5.  [open] keeps the invariant that a project has at most one root: if
    no project of the store has two roots before a successful [open], none
    has afterwards, and the root the call returns is then the only root of
    its project. *)
Theorem open_keeps_single_root :
  forall (NQ : NodeQueries) s input agent res s',
    (forall p, (List.length (rootsOf s p) <= 1)%nat) ->
    handleOpen s input agent = Ok (res, s') ->
    (forall p, (List.length (rootsOf s' p) <= 1)%nat) /\
    (forall P root sm, res = Opened P root sm -> rootsOf s' P = [root]).
Proof.
  intros NQ s input agent res s' Inv H.
  destruct (handleOpen_cases s input agent res s' H)
    as (given & goal & Hp & Hg & [(T & -> & ->) | (P & root & T & -> & R' & Hcase)]).
  - split; [exact Inv | ]. intros P root sm E. discriminate.
  - destruct Hcase as [[R ->] | (R & Hn & He & Hproj & Hpar)].
    + split; [exact Inv | ]. intros P0 root0 sm E. inversion E; subst; clear E.
      specialize (Inv P0). unfold getProjectRoot in R. unfold rootsOf in *.
      induction (nodes s) as [ | n rest IH]; simpl in *; [discriminate | ].
      destruct (String.eqb (project n) P0 && isNone (parent n)).
      * inversion R; subst. simpl in Inv.
        destruct (filter _ rest); [reflexivity | simpl in Inv; lia].
      * apply IH; assumption.
    + assert (E : forall p,
                 rootsOf s' p
                 = (rootsOf s p ++
                    (if String.eqb (project root) p && isNone (parent root)
                     then [root] else []))%list).
      { intros p. destruct s' as [ns' es']. simpl in Hn, He. subst ns' es'.
        destruct s as [ns es]. apply rootsOf_app. }
      split.
      * intros p. rewrite E, length_app.
        destruct (String.eqb (project root) p) eqn:Q; simpl.
        -- apply String.eqb_eq in Q. rewrite <- Q, Hproj.
           rewrite (proj1 (rootsOf_find s P) R). rewrite Hpar. simpl. lia.
        -- specialize (Inv p). lia.
      * intros P0 root0 sm Eq. inversion Eq; subst; clear Eq.
        rewrite E, (proj1 (rootsOf_find s (project root0)) R).
        rewrite String.eqb_refl, Hpar. reflexivity.
Qed.

Lemma open_keeps_single_root_witness :
  exists res s',
    handleOpen (NQ := Demo.queries) Demo.store
        (VObject [("project", VString "fresh")]) "agent" = Ok (res, s') /\
    List.length (rootsOf s' "fresh") = 1%nat /\
    List.length (rootsOf s' "demo") = 1%nat.
Proof.
  eexists. eexists. split; [reflexivity | ].
  assert (Inv : forall p, (List.length (rootsOf Demo.store p) <= 1)%nat).
  { intros p. unfold rootsOf, Demo.store. cbn -[String.eqb].
    destruct (String.eqb "demo" p); cbn; lia. }
  destruct (open_keeps_single_root Demo.queries Demo.store
              (VObject [("project", VString "fresh")]) "agent" _ _ Inv eq_refl)
    as [_ H].
  split; [rewrite (H _ _ _ eq_refl); reflexivity | reflexivity].
Defined.

(** ** What the validation helpers hand on *)

Lemma trimEnd_idempotent : forall s, trimEnd (trimEnd s) = trimEnd s.
Proof.
  induction s as [ | c rest IH]; simpl; [reflexivity | ].
  destruct (trimEnd rest) as [ | d kept] eqn:E.
  - destruct (isWhiteSpace c) eqn:W; simpl; [reflexivity | ].
    rewrite W. reflexivity.
  - simpl. simpl in IH. destruct kept as [ | d' kept'].
    + destruct (isWhiteSpace d) eqn:W; [discriminate | reflexivity].
    + destruct (trimEnd (String d' kept')) as [ | d'' kept''] eqn:E'.
      * destruct (isWhiteSpace d); discriminate.
      * rewrite IH. reflexivity.
Qed.

Lemma trimEnd_no_trailing : forall s, endsWithWhiteSpace (trimEnd s) = false.
Proof.
  induction s as [ | c rest IH]; simpl; [reflexivity | ].
  destruct (trimEnd rest) as [ | d kept] eqn:E.
  - destruct (isWhiteSpace c) eqn:W; simpl; [reflexivity | exact W].
  - simpl in *. exact IH.
Qed.

Lemma trimStart_no_leading : forall s, startsWithWhiteSpace (trimStart s) = false.
Proof.
  induction s as [ | c rest IH]; simpl; [reflexivity | ].
  destruct (isWhiteSpace c) eqn:W; [exact IH | simpl; exact W].
Qed.

Lemma trimEnd_keeps_head : forall s,
  startsWithWhiteSpace s = false -> startsWithWhiteSpace (trimEnd s) = false.
Proof.
  intros s H. destruct s as [ | c rest]; simpl in *; [reflexivity | ].
  destruct (trimEnd rest); [rewrite H; simpl; exact H | simpl; exact H].
Qed.

Lemma trimStart_fixed : forall s, startsWithWhiteSpace s = false -> trimStart s = s.
Proof.
  intros s H. destruct s as [ | c rest]; simpl in *; [reflexivity | ].
  rewrite H. reflexivity.
Qed.

Lemma trim_idempotent : forall s, trim (trim s) = trim s.
Proof.
  intros s. unfold trim.
  rewrite (trimStart_fixed (trimEnd (trimStart s))).
  - apply trimEnd_idempotent.
  - apply trimEnd_keeps_head, trimStart_no_leading.
Qed.

Lemma length_eqb_0_string_iff : forall s : string,
  (String.length s =? 0)%nat = true <-> s = "".
Proof.
  intros s. destruct s; simpl; split; intros H; try reflexivity; discriminate.
Qed.

(** X6.  What [requireString] lets through is a string, and what it hands on
    is that string trimmed: never empty, without white space at either end,
    and accepted unchanged when validated again under any field name. *)
Theorem requireString_normalises :
  forall (v : value) (field : string) (r : string),
    requireString v field = Ok r ->
    (exists s, v = VString s /\ r = trim s) /\
    r <> "" /\
    startsWithWhiteSpace r = false /\
    endsWithWhiteSpace r = false /\
    (forall field', requireString (VString r) field' = Ok r).
Proof.
  intros v field r H. unfold requireString in H.
  destruct v; try discriminate.
  destruct (String.length (trim s) =? 0)%nat eqn:L; [discriminate | ].
  inversion H; subst r; clear H.
  assert (Ne : trim s <> "").
  { intros E. rewrite E in L. discriminate. }
  split; [exists s; split; reflexivity | ].
  split; [exact Ne | ].
  split; [apply trimEnd_keeps_head, trimStart_no_leading | ].
  split; [apply trimEnd_no_trailing | ].
  intros field'. unfold requireString. rewrite trim_idempotent, L. reflexivity.
Qed.

Lemma requireString_normalises_witness :
  requireString (VString "  demo ") "project" = Ok "demo" /\
  requireString (VString "demo") "node_id" = Ok "demo".
Proof.
  split; [reflexivity | ].
  apply (requireString_normalises (VString "  demo ") "project" "demo" eq_refl).
Defined.

(** X7.  With finite bounds [optionalNumber] lets through exactly the finite
    numbers between them, unchanged; [NaN] and the infinities are rejected;
    and it answers "absent" exactly for [undefined] and [null]. *)
Theorem optionalNumber_accepts_range :
  forall (RT : Runtime) (v : value) (field : string) (lo hi : Q),
    (forall n,
        optionalNumber v field (Some (Fin lo)) (Some (Fin hi)) = Ok (Some n) <->
        exists q, v = VNumber (Fin q) /\ n = Fin q /\ (lo <= q)%Q /\ (q <= hi)%Q) /\
    (optionalNumber v field (Some (Fin lo)) (Some (Fin hi)) = Ok None <->
     v = VUndefined \/ v = VNull).
Proof.
  intros RT v field lo hi. split.
  - intros n. split.
    + intros H. destruct (optionalNumber_bounds _ _ _ _ _ H) as (q & -> & Hlo & Hhi).
      exists q. unfold optionalNumber in H. destruct v; try discriminate.
      destruct n as [ | | | q0]; simpl in H; try discriminate.
      destruct (q0 ?= lo)%Q; try discriminate;
        destruct (hi ?= q0)%Q; try discriminate; inversion H; subst; auto.
    + intros (q & -> & -> & Hlo & Hhi). unfold optionalNumber. cbn [isNaN].
      rewrite (proj2 (num_ltb_Fin_false q lo) Hlo).
      rewrite (proj2 (num_ltb_Fin_false hi q) Hhi). reflexivity.
  - split.
    + intros H. unfold optionalNumber in H. destruct v; auto; try discriminate.
      destruct n as [ | | | q0]; simpl in H; try discriminate.
      destruct (q0 ?= lo)%Q; try discriminate;
        destruct (hi ?= q0)%Q; discriminate.
    + intros [-> | ->]; reflexivity.
Qed.

Lemma optionalNumber_accepts_range_witness :
  optionalNumber (RT := Demo.runtime) (VNumber (Fin (5 # 2))) "depth"
    (Some (Fin 0)) (Some (Fin 10)) = Ok (Some (Fin (5 # 2))).
Proof.
  apply (proj1 (optionalNumber_accepts_range Demo.runtime (VNumber (Fin (5 # 2))) "depth"
                  0 10)).
  exists (5 # 2)%Q. repeat split; discriminate.
Defined.

(** ** License keys *)

Lemma splitOn_nonempty : forall sep s, splitOn sep s <> [].
Proof.
  intros sep s. destruct s as [ | c rest]; simpl; [discriminate | ].
  destruct (Ascii.eqb c sep); [discriminate | ].
  destruct (splitOn sep rest); discriminate.
Qed.

Lemma splitOn_concat : forall sep s,
  String.concat (String sep "") (splitOn sep s) = s.
Proof.
  intros sep s. induction s as [ | c rest IH]; simpl; [reflexivity | ].
  destruct (Ascii.eqb c sep) eqn:E.
  - apply Ascii.eqb_eq in E. subst c.
    destruct (splitOn sep rest) as [ | part parts] eqn:S.
    + exfalso. exact (splitOn_nonempty _ _ S).
    + simpl in *. rewrite IH. reflexivity.
  - destruct (splitOn sep rest) as [ | part parts] eqn:S.
    + exfalso. exact (splitOn_nonempty _ _ S).
    + destruct parts as [ | part' parts']; simpl in *; rewrite <- IH; reflexivity.
Qed.

Lemma splitOn_parts_clean : forall sep s,
  Forall (fun p => hasChar sep p = false) (splitOn sep s).
Proof.
  intros sep s. induction s as [ | c rest IH]; simpl.
  - constructor; [reflexivity | constructor].
  - destruct (Ascii.eqb c sep) eqn:E.
    + constructor; [reflexivity | exact IH].
    + destruct (splitOn sep rest) as [ | part parts].
      * constructor; [simpl; rewrite E; reflexivity | constructor].
      * inversion IH; subst. constructor; [simpl; rewrite E; assumption | assumption].
Qed.

Lemma splitOn_app : forall sep a rest,
  hasChar sep a = false ->
  splitOn sep (a ++ String sep rest) = a :: splitOn sep rest.
Proof.
  intros sep a rest. induction a as [ | c a' IH]; intros H; simpl in *.
  - rewrite Ascii.eqb_refl. reflexivity.
  - apply orb_false_iff in H. destruct H as [Hc Ha].
    rewrite Hc, (IH Ha). reflexivity.
Qed.

Lemma splitOn_single : forall sep a,
  hasChar sep a = false -> splitOn sep a = [a].
Proof.
  intros sep a. induction a as [ | c a' IH]; intros H; simpl in *; [reflexivity | ].
  apply orb_false_iff in H. destruct H as [Hc Ha].
  rewrite Hc, (IH Ha). reflexivity.
Qed.

Lemma length_ltb_0_string : forall s : string,
  (0 <? String.length s)%nat = true <-> s <> "".
Proof.
  intros s. destruct s; simpl; split; intros H; try discriminate; try reflexivity.
  contradiction H; reflexivity.
Qed.

(** X8.  [validateKeyFormat] accepts exactly the keys that, after an
    optional ["graph_"] prefix, consist of three non-empty parts without
    dots, separated by two dots. *)
Theorem validateKeyFormat_three_parts :
  forall key : string,
    validateKeyFormat key = true <->
    exists h p sg,
      stripPrefix key = h ++ "." ++ p ++ "." ++ sg /\
      h <> "" /\ p <> "" /\ sg <> "" /\
      hasChar dot h = false /\ hasChar dot p = false /\ hasChar dot sg = false.
Proof.
  intros key. unfold validateKeyFormat. cbv zeta. split.
  - intros H. apply andb_true_iff in H. destruct H as [L F].
    pose proof (splitOn_concat dot (stripPrefix key)) as C.
    pose proof (splitOn_parts_clean dot (stripPrefix key)) as N.
    destruct (splitOn dot (stripPrefix key)) as [ | h [ | p [ | sg [ | x rest]]]];
      simpl in L; try discriminate.
    exists h, p, sg. simpl in F.
    apply andb_true_iff in F. destruct F as [Fh F].
    apply andb_true_iff in F. destruct F as [Fp F].
    apply andb_true_iff in F. destruct F as [Fs _].
    inversion N as [ | ? ? Nh N1]; subst. inversion N1 as [ | ? ? Np N2]; subst.
    inversion N2 as [ | ? ? Ns _]; subst.
    split; [symmetry; exact C | ].
    repeat split; try assumption; apply length_ltb_0_string; assumption.
  - intros (h & p & sg & E & Hh & Hp & Hs & Nh & Np & Ns).
    rewrite E.
    change (h ++ "." ++ p ++ "." ++ sg) with (h ++ String dot (p ++ String dot sg)).
    rewrite (splitOn_app dot h _ Nh), (splitOn_app dot p _ Np), (splitOn_single dot sg Ns).
    simpl. apply length_ltb_0_string in Hh, Hp, Hs. rewrite Hh, Hp, Hs. reflexivity.
Qed.

Lemma validateKeyFormat_three_parts_witness :
  validateKeyFormat "graph_aa.bb.cc" = true.
Proof.
  apply (proj2 (validateKeyFormat_three_parts "graph_aa.bb.cc")).
  exists "aa", "bb", "cc". repeat split; discriminate.
Defined.

Section LicenseFacts.
Context {LH : LicenseHost}.

Lemma verifyLicenseKey_inv : forall env key info,
  verifyLicenseKey env key = Some info ->
  exists k h p sg payload,
    key = Some k /\ k <> "" /\
    PUBLIC_KEY env <> "" /\
    splitOn dot (stripPrefix k) = [h; p; sg] /\
    verifySignature (h ++ "." ++ p) (PUBLIC_KEY env) sg = Some true /\
    decodePayload p = Some payload /\
    member payload "exp" = Some (li_exp info) /\
    member payload "sub" = Some (li_sub info) /\
    (li_tier info = Pro <-> member payload "tier" = Some (VString "pro")) /\
    (truthyValue (li_exp info) = true ->
     num_ltb (toNumber (li_exp info)) (Fin (inject_Z (dateNow env / 1000))) = false).
Proof.
  intros env key info H. unfold verifyLicenseKey, truthy in H.
  destruct key as [k | ]; [ | discriminate].
  destruct (String.length k =? 0)%nat eqn:Lk; [discriminate | ].
  cbv zeta in H.
  destruct (String.length (PUBLIC_KEY env) =? 0)%nat eqn:Lp; [discriminate | ].
  destruct (splitOn dot (stripPrefix k)) as [ | h [ | p [ | sg [ | x rest]]]] eqn:S;
    try discriminate.
  destruct (verifySignature (h ++ "." ++ p) (PUBLIC_KEY env) sg) as [[ | ] | ] eqn:V;
    try discriminate.
  destruct (decodePayload p) as [payload | ] eqn:D; [ | discriminate].
  cbv zeta in H.
  destruct (member payload "exp") as [exp | ] eqn:Me; cbn iota beta in H;
    [ | discriminate].
  destruct (member payload "tier") as [tier | ] eqn:Mt; cbn iota beta in H;
    [ | discriminate].
  destruct (member payload "sub") as [sub | ] eqn:Ms; cbn iota beta in H;
    [ | discriminate].
  destruct (truthyValue exp && num_ltb (toNumber exp) (Fin (inject_Z (dateNow env / 1000))))
    eqn:X; [discriminate | ].
  inversion H; subst info; clear H. simpl.
  exists k, h, p, sg, payload.
  split; [reflexivity | ].
  split; [intros E; rewrite E in Lk; discriminate | ].
  split; [intros E; rewrite E in Lp; discriminate | ].
  split; [exact S | ]. split; [exact V | ]. split; [exact D | ].
  split; [exact Me | ]. split; [exact Ms | ].
  split.
  - rewrite Mt. unfold isString. split.
    + intros T. destruct tier as [ | | | | t | | ]; try discriminate.
      destruct (String.eqb t "pro") eqn:E; [ | discriminate].
      apply String.eqb_eq in E. subst t. reflexivity.
    + intros E. inversion E; subst. reflexivity.
  - intros T. rewrite T in X. exact X.
Qed.

End LicenseFacts.

(** The expiry check is the only place where [verifyLicenseKey] looks at
    the clock. *)
Lemma verifyLicenseKey_later {LH : LicenseHost} : forall env key info later,
  verifyLicenseKey env key = Some info ->
  (truthyValue (li_exp info) = true ->
   num_ltb (toNumber (li_exp info)) (Fin (inject_Z (later / 1000))) = false) ->
  verifyLicenseKey (atTime env later) key = Some info.
Proof.
  intros env key info later H Q. unfold verifyLicenseKey in *.
  change (PUBLIC_KEY (atTime env later)) with (PUBLIC_KEY env).
  change (dateNow (atTime env later)) with later.
  destruct (truthy key) as [k | ]; [ | discriminate].
  destruct (String.length (PUBLIC_KEY env) =? 0)%nat; [discriminate | ].
  cbv zeta in H |- *.
  destruct (splitOn dot (stripPrefix k)) as [ | h [ | p [ | sg [ | x rest]]]];
    try discriminate.
  destruct (verifySignature (h ++ "." ++ p) (PUBLIC_KEY env) sg) as [[ | ] | ];
    try discriminate.
  destruct (decodePayload p) as [payload | ]; [ | discriminate].
  destruct (member payload "exp") as [exp | ]; cbn iota beta in H |- *;
    [ | discriminate].
  destruct (member payload "tier") as [tier | ]; cbn iota beta in H |- *;
    [ | discriminate].
  destruct (member payload "sub") as [sub | ]; cbn iota beta in H |- *;
    [ | discriminate].
  destruct (truthyValue exp && num_ltb (toNumber exp) (Fin (inject_Z (dateNow env / 1000))));
    [discriminate | ].
  inversion H; subst info; clear H. cbn [li_exp] in Q.
  destruct (truthyValue exp); [rewrite (Q eq_refl) | ]; reflexivity.
Qed.

(** X9.  [verifyLicenseKey] never returns a license without proof: a result
    means that a public key is configured, that the key (after the optional
    prefix) has exactly three dot-separated parts, that the signature part
    verifies over "header.payload" under the configured public key, that the
    payload decodes, that the expiry check did not fire, and the tier is pro
    only for a payload whose tier is the string ["pro"].  The expiry check
    fires only for an [exp] that is truthy and whose numeric value is less
    than the time in seconds.  It is no test that the license has an expiry
    in the future: the same key gives the same license at every time at
    which the check does not fire, and so at every time whatever when [exp]
    is falsy ([undefined], [null], [0], [NaN], the empty string) or converts
    to [NaN], as a date string does. *)
Theorem verifyLicenseKey_sound :
  forall (LH : LicenseHost) env key info,
    verifyLicenseKey env key = Some info ->
    exists k h p sg payload,
      key = Some k /\ k <> "" /\
      PUBLIC_KEY env <> "" /\
      splitOn dot (stripPrefix k) = [h; p; sg] /\
      verifySignature (h ++ "." ++ p) (PUBLIC_KEY env) sg = Some true /\
      decodePayload p = Some payload /\
      member payload "exp" = Some (li_exp info) /\
      member payload "sub" = Some (li_sub info) /\
      (li_tier info = Pro <-> member payload "tier" = Some (VString "pro")) /\
      (truthyValue (li_exp info) = true ->
       num_ltb (toNumber (li_exp info)) (Fin (inject_Z (dateNow env / 1000))) = false) /\
      (forall later,
          (truthyValue (li_exp info) = true ->
           num_ltb (toNumber (li_exp info)) (Fin (inject_Z (later / 1000))) = false) ->
          verifyLicenseKey (atTime env later) key = Some info) /\
      (truthyValue (li_exp info) = false \/ toNumber (li_exp info) = NaN ->
       forall later, verifyLicenseKey (atTime env later) key = Some info).
Proof.
  intros LH env key info H.
  destruct (verifyLicenseKey_inv env key info H)
    as (k & h & p & sg & payload & A1 & A2 & A3 & A4 & A5 & A6 & A7 & A8 & A9 & A10).
  exists k, h, p, sg, payload.
  repeat (split; [assumption | ]).
  split.
  - intros later Q. apply verifyLicenseKey_later; assumption.
  - intros [F | N] later; apply verifyLicenseKey_later; try exact H; intros T.
    + rewrite F in T. discriminate.
    + rewrite N. reflexivity.
Qed.

Lemma verifyLicenseKey_sound_witness :
  exists info,
    verifyLicenseKey (LH := DemoLicense.host) DemoLicense.env (Some "graph_hdr.pro.sig")
      = Some info /\
    li_tier info = Pro /\
    PUBLIC_KEY DemoLicense.env <> "".
Proof.
  eexists. split; [reflexivity | ]. split; [reflexivity | ].
  destruct (verifyLicenseKey_sound DemoLicense.host DemoLicense.env
              (Some "graph_hdr.pro.sig") _ eq_refl)
    as (k & h & p & sg & payload & _ & _ & H & _).
  exact H.
Defined.

Section LicenseGate.
Context {LH : LicenseHost}.

Lemma verifyLicenseKey_without_public_key : forall env key,
  truthy (GRAPH_LICENSE_PUBLIC_KEY env) = None ->
  verifyLicenseKey env key = None.
Proof.
  intros env key H. unfold verifyLicenseKey.
  destruct (truthy key) as [k | ]; [ | reflexivity].
  unfold PUBLIC_KEY. destruct (GRAPH_LICENSE_PUBLIC_KEY env) as [pk | ]; simpl in *.
  - destruct (String.length pk =? 0)%nat; [reflexivity | discriminate].
  - reflexivity.
Qed.

(** The checks of [verifyLicenseKey] read the environment only for the
    public key and the clock. *)
Lemma verifyLicenseKey_same_env : forall env env' key,
  GRAPH_LICENSE_PUBLIC_KEY env' = GRAPH_LICENSE_PUBLIC_KEY env ->
  dateNow env' = dateNow env ->
  verifyLicenseKey env' key = verifyLicenseKey env key.
Proof.
  intros env env' key Hk Hn. unfold verifyLicenseKey, PUBLIC_KEY.
  rewrite Hk, Hn. reflexivity.
Qed.

End LicenseGate.

(** X10.  The agent configuration is delivered only to a verified pro
    license: [handleAgentConfig] returns exactly when the key found by
    [readLicenseKey] passes [verifyLicenseKey] with tier pro, and otherwise
    throws the engine error [free_tier_limit].  Without a configured public
    key it throws whatever license is installed. *)
Theorem agent_config_needs_verified_pro :
  forall (LH : LicenseHost) env dbPath,
    (forall r,
        handleAgentConfig env dbPath = Ok r <->
        (exists info,
            verifyLicenseKey env (readLicenseKey env dbPath) = Some info /\
            li_tier info = Pro) /\
        r = {| agent_file := AGENT_PROMPT;
               install_path := ".claude/agents/graph.md";
               instructions :=
                 "Save the agent_file content to .claude/agents/graph.md in your project root. "
                 ++ "Claude Code will automatically discover it and use it when tasks match the agent description." |}) /\
    ((forall r, handleAgentConfig env dbPath <> Ok r) ->
     exists e, handleAgentConfig env dbPath = Throw e /\ code e = "free_tier_limit") /\
    (truthy (GRAPH_LICENSE_PUBLIC_KEY env) = None ->
     getLicenseTier env dbPath = Free /\
     exists e, handleAgentConfig env dbPath = Throw e /\ code e = "free_tier_limit").
Proof.
  intros LH env dbPath. split; [ | split].
  - intros r. unfold handleAgentConfig, getLicenseTier.
    destruct (verifyLicenseKey env (readLicenseKey env dbPath)) as [info | ].
    + destruct (li_tier info) eqn:T.
      * split; [discriminate | ]. intros [(i & E & Ti) _]. inversion E; subst. congruence.
      * split.
        -- intros H. inversion H; subst. split; [exists info; auto | reflexivity].
        -- intros [_ ->]. reflexivity.
    + split; [discriminate | ]. intros [(i & E & _) _]. discriminate.
  - intros H. unfold handleAgentConfig in *.
    destruct (getLicenseTier env dbPath).
    + eexists. split; reflexivity.
    + exfalso. eapply H. reflexivity.
  - intros H. unfold handleAgentConfig, getLicenseTier.
    rewrite (verifyLicenseKey_without_public_key env _ H).
    split; [reflexivity | ]. eexists. split; reflexivity.
Qed.

Lemma agent_config_needs_verified_pro_witness :
  exists e,
    handleAgentConfig (LH := DemoLicense.host)
      {| GRAPH_LICENSE_PUBLIC_KEY := None;
         GRAPH_LICENSE := Some "graph_hdr.pro.sig";
         dateNow := 1000000;
         files := DemoLicense.noFiles |} None = Throw e /\
    code e = "free_tier_limit".
Proof.
  apply (proj2 (proj2 (agent_config_needs_verified_pro DemoLicense.host
                         {| GRAPH_LICENSE_PUBLIC_KEY := None;
                            GRAPH_LICENSE := Some "graph_hdr.pro.sig";
                            dateNow := 1000000;
                            files := DemoLicense.noFiles |} None)) eq_refl).
Defined.

(** X11.  Where the license key is read from: a non-empty [GRAPH_LICENSE]
    variable wins over every file, even when it holds only white space; the
    key that is returned, from the variable or from a file, is always
    trimmed; and a global license file that exists but cannot be read hides
    a readable license next to the database. *)
Theorem readLicenseKey_precedence :
  forall (LH : LicenseHost) env dbPath,
    (forall envKey,
        GRAPH_LICENSE env = Some envKey -> envKey <> "" ->
        readLicenseKey env dbPath = Some (trim envKey)) /\
    (forall key, readLicenseKey env dbPath = Some key -> trim key = key) /\
    (truthy (GRAPH_LICENSE env) = None ->
     files env globalLicensePath = Unreadable ->
     readLicenseKey env dbPath = None) /\
    (truthy (GRAPH_LICENSE env) = None ->
     forall content,
       files env globalLicensePath = File content ->
       readLicenseKey env dbPath = Some (trim content)).
Proof.
  intros LH env dbPath. split; [ | split; [ | split]].
  - intros envKey E Ne. unfold readLicenseKey. rewrite E. simpl.
    rewrite (length_eqb_0_string envKey Ne). reflexivity.
  - intros key H. unfold readLicenseKey in H.
    destruct (truthy (GRAPH_LICENSE env)) as [envKey | ].
    + inversion H; subst. apply trim_idempotent.
    + destruct (files env globalLicensePath); try discriminate.
      * destruct (truthy dbPath) as [path | ]; [ | discriminate].
        destruct (files env (localLicensePath path)); try discriminate.
        inversion H; subst. apply trim_idempotent.
      * inversion H; subst. apply trim_idempotent.
  - intros T U. unfold readLicenseKey. rewrite T, U. reflexivity.
  - intros T content F. unfold readLicenseKey. rewrite T, F. reflexivity.
Qed.

Lemma readLicenseKey_precedence_witness :
  readLicenseKey (LH := DemoLicense.host)
    {| GRAPH_LICENSE_PUBLIC_KEY := Some "PUB";
       GRAPH_LICENSE := Some "   ";
       dateNow := 0;
       files := fun p => if String.eqb p "/home/u/.graph/license"
                         then File "graph_hdr.pro.sig" else Missing |} None
  = Some "".
Proof.
  apply (proj1 (readLicenseKey_precedence DemoLicense.host
                  {| GRAPH_LICENSE_PUBLIC_KEY := Some "PUB";
                     GRAPH_LICENSE := Some "   ";
                     dateNow := 0;
                     files := fun p => if String.eqb p "/home/u/.graph/license"
                                       then File "graph_hdr.pro.sig" else Missing |}
                  None) "   " eq_refl).
  discriminate.
Defined.

(** ** Activation *)

Lemma validateKeyFormat_nonempty : forall k, validateKeyFormat k = true -> k <> "".
Proof.
  intros k H E. subst k. discriminate.
Qed.

Section ActivateFacts.
Context {LH : LicenseHost}.

Lemma files_setFile : forall env path st p,
  files (setFile env path st) p = if String.eqb p path then st else files env p.
Proof. reflexivity. Qed.

Lemma files_setFile_same : forall env path st,
  files (setFile env path st) path = st.
Proof. intros env path st. rewrite files_setFile, String.eqb_refl. reflexivity. Qed.

Lemma files_setFile_other : forall env path st p,
  p <> path -> files (setFile env path st) p = files env p.
Proof.
  intros env path st p N. rewrite files_setFile.
  destruct (String.eqb p path) eqn:E; [ | reflexivity].
  apply String.eqb_eq in E. contradiction.
Qed.

(** [mkdirSync] brings directories into being where nothing was, and
    changes nothing else. *)
Lemma files_mkdirSync : forall env dir p,
  files (fst (mkdirSync env dir)) p = files env p
  \/ (files env p = Missing
      /\ files (fst (mkdirSync env dir)) p = Unreadable
      /\ In p (fst (mkdir env dir))).
Proof.
  intros env dir p. unfold mkdirSync. cbn [fst files].
  destruct (files env p) eqn:F; try (left; reflexivity).
  destruct (existsb (String.eqb p) (fst (mkdir env dir))) eqn:E;
    [right | left; reflexivity].
  split; [reflexivity | split; [reflexivity | ]].
  apply existsb_exists in E. destruct E as (q & I & Q).
  apply String.eqb_eq in Q. subst q. exact I.
Qed.

Lemma files_mkdirSync_kept : forall env dir p,
  files env p <> Missing -> files (fst (mkdirSync env dir)) p = files env p.
Proof.
  intros env dir p N. destruct (files_mkdirSync env dir p) as [E | (M & _)];
    [exact E | contradiction].
Qed.

Lemma mkdirSync_variables : forall env dir,
  GRAPH_LICENSE_PUBLIC_KEY (fst (mkdirSync env dir)) = GRAPH_LICENSE_PUBLIC_KEY env
  /\ GRAPH_LICENSE (fst (mkdirSync env dir)) = GRAPH_LICENSE env
  /\ dateNow (fst (mkdirSync env dir)) = dateNow env.
Proof. intros env dir. repeat split. Qed.

(** [writeFileSync] changes nothing but what is at its path; when it
    returns, the content is there. *)
Lemma files_writeFileSync_other : forall env path content p,
  p <> path -> files (fst (writeFileSync env path content)) p = files env p.
Proof.
  intros env path content p N. unfold writeFileSync.
  destruct (failedWrite env path content); cbn [fst];
    apply files_setFile_other; exact N.
Qed.

Lemma files_writeFileSync_done : forall env path content,
  snd (writeFileSync env path content) = true ->
  files (fst (writeFileSync env path content)) path = File content.
Proof.
  intros env path content H. unfold writeFileSync in *.
  destruct (failedWrite env path content); [discriminate | ].
  cbn [fst]. apply files_setFile_same.
Qed.

Lemma writeFileSync_done_iff : forall env path content,
  snd (writeFileSync env path content) = true
  <-> failedWrite env path content = None.
Proof.
  intros env path content. unfold writeFileSync.
  destruct (failedWrite env path content); simpl; split; congruence.
Qed.

Lemma writeFileSync_variables : forall env path content,
  GRAPH_LICENSE_PUBLIC_KEY (fst (writeFileSync env path content))
  = GRAPH_LICENSE_PUBLIC_KEY env
  /\ GRAPH_LICENSE (fst (writeFileSync env path content)) = GRAPH_LICENSE env
  /\ dateNow (fst (writeFileSync env path content)) = dateNow env.
Proof.
  intros env path content. unfold writeFileSync.
  destruct (failedWrite env path content); repeat split.
Qed.

Lemma activate_cases : forall env key,
  (exists k out,
      key = Some k /\ passes env k out /\
      stderr (activate env key) = [] /\
      ((snd (mkdirSync env globalLicenseDir) = true /\
        snd (writeFileSync (fst (mkdirSync env globalLicenseDir))
               globalLicensePath k) = true /\
        ending (activate env key) = Returned /\
        env_after (activate env key)
        = fst (writeFileSync (fst (mkdirSync env globalLicenseDir))
                 globalLicensePath k) /\
        stdout (activate env key)
        = (out ++ [SavedLine globalLicensePath]
           ++ (if isNone (verifyLicenseKey env (Some k))
               then [StoredUnverifiedLine] else []))%list) \/
       (snd (mkdirSync env globalLicenseDir) = true /\
        snd (writeFileSync (fst (mkdirSync env globalLicenseDir))
               globalLicensePath k) = false /\
        ending (activate env key) = Crashed /\
        env_after (activate env key)
        = fst (writeFileSync (fst (mkdirSync env globalLicenseDir))
                 globalLicensePath k) /\
        stdout (activate env key) = out) \/
       (snd (mkdirSync env globalLicenseDir) = false /\
        ending (activate env key) = Crashed /\
        env_after (activate env key) = fst (mkdirSync env globalLicenseDir) /\
        stdout (activate env key) = out))) \/
  ((forall k out, key = Some k -> ~ passes env k out) /\
   ending (activate env key) <> Returned /\
   env_after (activate env key) = env /\
   stdout (activate env key) = [] /\
   ((truthy key = None /\
     ending (activate env key) = Exited 1 /\ stderr (activate env key) = [UsageLine]) \/
    (exists k,
        truthy key = Some k /\
        ((validateKeyFormat k = false /\
          ending (activate env key) = Exited 1 /\
          stderr (activate env key) = [InvalidFormatLine]) \/
         (validateKeyFormat k = true /\
          verifyLicenseKey env (Some k) = None /\
          truthy (GRAPH_LICENSE_PUBLIC_KEY env) <> None /\
          ending (activate env key) = Exited 1 /\
          stderr (activate env key) = [VerificationFailedLine]) \/
         (exists i,
             validateKeyFormat k = true /\
             verifyLicenseKey env (Some k) = Some i /\
             expiryDate (li_exp i) = None /\
             ending (activate env key) = Crashed))))).
Proof.
  intros env key. unfold activate.
  destruct (truthy key) as [k | ] eqn:T.
  - assert (K : key = Some k).
    { destruct key as [k0 | ]; simpl in T; [ | discriminate].
      destruct (String.length k0 =? 0)%nat; [discriminate | congruence]. }
    assert (Stored : forall out,
               passes env k out ->
               exists k0 out0,
                 key = Some k0 /\ passes env k0 out0 /\ out0 = out /\ k0 = k).
    { intros out Hp. exists k, out. auto. }
    destruct (validateKeyFormat k) eqn:F; cbn [negb].
    + cbv zeta.
      destruct (verifyLicenseKey env (Some k)) as [i | ] eqn:V.
      * destruct (expiryDate (li_exp i)) as [d | ] eqn:D.
        -- left. exists k, [VerifiedLine (li_tier i) d].
           split; [exact K | ].
           split; [split; [exact F | left; exists i, d; auto] | ].
           destruct (snd (mkdirSync env globalLicenseDir)) eqn:M.
           ++ destruct (snd (writeFileSync (fst (mkdirSync env globalLicenseDir))
                               globalLicensePath k)) eqn:W.
              ** split; [reflexivity | ]. left. rewrite V.
                 repeat split; reflexivity.
              ** split; [reflexivity | ]. right. left. repeat split; reflexivity.
           ++ split; [reflexivity | ]. right. right. repeat split; reflexivity.
        -- right. cbn [env_after stdout stderr ending].
           split.
           { intros k0 out K0 (_ & [(i' & d & V' & D' & _) | (V' & _)]).
             - rewrite K in K0. inversion K0; subst k0.
               rewrite V in V'. inversion V'; subst i'. congruence.
             - rewrite K in K0. inversion K0; subst k0. congruence. }
           split; [discriminate | ]. split; [reflexivity | ].
           split; [reflexivity | ]. right. exists k. split; [reflexivity | ].
           right. right. exists i. auto.
      * destruct (truthy (GRAPH_LICENSE_PUBLIC_KEY env)) as [pk | ] eqn:P;
          cbn [isNone].
        -- right. cbn [env_after stdout stderr ending].
           split.
           { intros k0 out K0 (_ & [(i' & d & V' & _) | (_ & P' & _)]).
             - rewrite K in K0. inversion K0; subst k0. congruence.
             - congruence. }
           split; [discriminate | ]. split; [reflexivity | ].
           split; [reflexivity | ]. right. exists k. split; [reflexivity | ].
           right. left. split; [exact F | ]. split; [exact V | ].
           split; [discriminate | auto].
        -- left. exists k, [].
           split; [exact K | ].
           split; [split; [exact F | right; auto] | ].
           destruct (snd (mkdirSync env globalLicenseDir)) eqn:M.
           ++ destruct (snd (writeFileSync (fst (mkdirSync env globalLicenseDir))
                               globalLicensePath k)) eqn:W.
              ** split; [reflexivity | ]. left. rewrite V.
                 repeat split; reflexivity.
              ** split; [reflexivity | ]. right. left. repeat split; reflexivity.
           ++ split; [reflexivity | ]. right. right. repeat split; reflexivity.
    + right. cbn [env_after stdout stderr ending].
      split.
      { intros k0 out K0 (F' & _). rewrite K in K0. inversion K0; subst k0.
        congruence. }
      split; [discriminate | ]. split; [reflexivity | ]. split; [reflexivity | ].
      right. exists k. split; [reflexivity | ]. left. auto.
  - right. cbn [env_after stdout stderr ending].
    split.
    { intros k0 out K0 (F' & _). rewrite K0 in T. simpl in T.
      rewrite (length_eqb_0_string k0 (validateKeyFormat_nonempty k0 F')) in T.
      discriminate. }
    split; [discriminate | ]. split; [reflexivity | ]. split; [reflexivity | ].
    left. auto.
Qed.

End ActivateFacts.

(** X12.  [activate] stores the key exactly when the key is accepted and
    the file system lets it.  A key is accepted when it is non-empty, has
    the three-part format, and either verifies with an expiry that is a
    valid date or cannot be checked because no public key is configured.
    For an accepted key [activate] makes the license directory and writes
    the key, unchanged, to the global license file; it returns, and prints
    where the key was saved, exactly when both calls return; then the file
    holds the key and nothing else has changed but the directories that
    were made.  When the directory cannot be made or the file cannot be
    written, the exception escapes after a verified key has already been
    announced, and nothing is printed about a saved key.  A key that is not
    accepted changes nothing and prints nothing on standard output; in
    particular a key that verifies but carries no expiry is not stored.
    Whatever happens, no file other than the license file changes its
    content. *)
Theorem activate_stores_exactly_when_accepted :
  forall (LH : LicenseHost) env key,
    (ending (activate env key) = Returned <->
     exists k out,
       key = Some k /\ passes env k out /\
       snd (mkdirSync env globalLicenseDir) = true /\
       snd (writeFileSync (fst (mkdirSync env globalLicenseDir))
              globalLicensePath k) = true) /\
    (ending (activate env key) = Returned ->
     forall k, key = Some k ->
       files (env_after (activate env key)) globalLicensePath = File k /\
       In (SavedLine globalLicensePath) (stdout (activate env key)) /\
       forall p, p <> globalLicensePath ->
         files (env_after (activate env key)) p = files env p \/
         (files env p = Missing /\
          files (env_after (activate env key)) p = Unreadable /\
          In p (fst (mkdir env globalLicenseDir)))) /\
    (forall k out,
        key = Some k -> passes env k out ->
        ending (activate env key) <> Returned ->
        ending (activate env key) = Crashed /\
        stdout (activate env key) = out /\
        stderr (activate env key) = [] /\
        (snd (mkdirSync env globalLicenseDir) = false \/
         snd (writeFileSync (fst (mkdirSync env globalLicenseDir))
                globalLicensePath k) = false)) /\
    ((forall k out, key = Some k -> ~ passes env k out) ->
     env_after (activate env key) = env /\
     stdout (activate env key) = [] /\
     (ending (activate env key) = Exited 1 \/ ending (activate env key) = Crashed)) /\
    (forall k i,
        key = Some k -> validateKeyFormat k = true ->
        verifyLicenseKey env (Some k) = Some i -> li_exp i = VUndefined ->
        ending (activate env key) = Crashed /\
        env_after (activate env key) = env) /\
    (forall p content,
        p <> globalLicensePath -> files env p = File content ->
        files (env_after (activate env key)) p = File content).
Proof.
  intros LH env key.
  assert (Unique : forall k out out',
             passes env k out -> passes env k out' -> out = out').
  { intros k out out' (_ & [(i & d & V & D & O) | (V & _ & O)])
                      (_ & [(i' & d' & V' & D' & O') | (V' & _ & O')]);
      subst; congruence. }
  destruct (activate_cases env key)
    as [(k & out & K & Hp & Err & Hc) | (NP & NE & A & O & Hc)].
  - destruct Hc as [(M & W & E & A & O) | [(M & W & E & A & O) | (M & E & A & O)]].
    + (* both calls return *)
      split; [ | split; [ | split; [ | split; [ | split]]]].
      * split; [intros _; exists k, out; auto | intros _; exact E].
      * intros _ k0 K0. rewrite K in K0. inversion K0; subst k0.
        rewrite A. split; [apply files_writeFileSync_done; exact W | ].
        split; [rewrite O; apply in_or_app; right; left; reflexivity | ].
        intros p N. rewrite files_writeFileSync_other by exact N.
        apply files_mkdirSync.
      * intros k0 out0 _ _ N. contradiction.
      * intros N. exfalso. exact (N k out K Hp).
      * intros k0 i K0 _ V X. exfalso. rewrite K in K0. inversion K0; subst k0.
        destruct Hp as (_ & [(i' & d & V' & D & _) | (V' & _)]); [ | congruence].
        rewrite V in V'. inversion V'; subst i'. rewrite X in D.
        unfold expiryDate in D. simpl in D. discriminate.
      * intros p content N F. rewrite A.
        rewrite files_writeFileSync_other by exact N.
        rewrite files_mkdirSync_kept by congruence. exact F.
    + (* the write throws *)
      split; [ | split; [ | split; [ | split; [ | split]]]].
      * split; [intros R; congruence | ].
        intros (k0 & out0 & K0 & _ & _ & W0). rewrite K in K0.
        inversion K0; subst k0. congruence.
      * intros R. congruence.
      * intros k0 out0 K0 Hp0 _. rewrite K in K0. inversion K0; subst k0.
        split; [exact E | ]. split; [rewrite O; apply (Unique k); assumption | ].
        split; [exact Err | right; exact W].
      * intros N. exfalso. exact (N k out K Hp).
      * intros k0 i K0 _ V X. exfalso. rewrite K in K0. inversion K0; subst k0.
        destruct Hp as (_ & [(i' & d & V' & D & _) | (V' & _)]); [ | congruence].
        rewrite V in V'. inversion V'; subst i'. rewrite X in D.
        unfold expiryDate in D. simpl in D. discriminate.
      * intros p content N F. rewrite A.
        rewrite files_writeFileSync_other by exact N.
        rewrite files_mkdirSync_kept by congruence. exact F.
    + (* the directory cannot be made *)
      split; [ | split; [ | split; [ | split; [ | split]]]].
      * split; [intros R; congruence | ].
        intros (k0 & out0 & _ & _ & M0 & _). congruence.
      * intros R. congruence.
      * intros k0 out0 K0 Hp0 _. rewrite K in K0. inversion K0; subst k0.
        split; [exact E | ]. split; [rewrite O; apply (Unique k); assumption | ].
        split; [exact Err | left; exact M].
      * intros N. exfalso. exact (N k out K Hp).
      * intros k0 i K0 _ V X. exfalso. rewrite K in K0. inversion K0; subst k0.
        destruct Hp as (_ & [(i' & d & V' & D & _) | (V' & _)]); [ | congruence].
        rewrite V in V'. inversion V'; subst i'. rewrite X in D.
        unfold expiryDate in D. simpl in D. discriminate.
      * intros p content N F. rewrite A.
        rewrite files_mkdirSync_kept by congruence. exact F.
  - split; [ | split; [ | split; [ | split; [ | split]]]].
    + split; [intros R; contradiction | ].
      intros (k & out & K & Hp & _). exfalso. exact (NP k out K Hp).
    + intros R. contradiction.
    + intros k out K Hp _. exfalso. exact (NP k out K Hp).
    + intros _. split; [exact A | ]. split; [exact O | ].
      destruct Hc as [(_ & E & _) | (k & _ & [(_ & E & _) | [(_ & _ & _ & E & _) | (i & _ & _ & _ & E)]])];
        auto.
    + intros k i K F V X. split; [ | exact A].
      destruct Hc as [(T & _) | (k' & T & Hk)].
      * rewrite K in T. simpl in T.
        rewrite (length_eqb_0_string k (validateKeyFormat_nonempty k F)) in T.
        discriminate.
      * rewrite K in T. simpl in T.
        rewrite (length_eqb_0_string k (validateKeyFormat_nonempty k F)) in T.
        inversion T; subst k'.
        destruct Hk as [(F' & _) | [(_ & V' & _) | (i' & _ & _ & _ & E)]];
          [congruence | congruence | exact E].
    + intros p content N F. rewrite A. exact F.
Qed.

Lemma activate_stores_exactly_when_accepted_witness :
  files (env_after (activate (LH := DemoLicense.host) DemoLicense.env
                      (Some "graph_hdr.pro.sig")))
        "/home/u/.graph/license"
  = File "graph_hdr.pro.sig".
Proof.
  apply (proj1 (proj1 (proj2 (activate_stores_exactly_when_accepted DemoLicense.host
                                DemoLicense.env (Some "graph_hdr.pro.sig")))
                  eq_refl "graph_hdr.pro.sig" eq_refl)).
Defined.

(** X13.  Activation and lookup fit together: after [activate] has stored a
    key, and unless a [GRAPH_LICENSE] variable overrides the files,
    [readLicenseKey] finds that key (trimmed), and for a key without
    surrounding white space [getLicenseTier] reports the tier [activate]
    verified, or free when the key was stored unverified. *)
Theorem activate_then_license_tier :
  forall (LH : LicenseHost) env k dbPath,
    ending (activate env (Some k)) = Returned ->
    truthy (GRAPH_LICENSE env) = None ->
    readLicenseKey (env_after (activate env (Some k))) dbPath = Some (trim k) /\
    (trim k = k ->
     getLicenseTier (env_after (activate env (Some k))) dbPath
     = match verifyLicenseKey env (Some k) with
       | Some i => li_tier i
       | None => Free
       end).
Proof.
  intros LH env k dbPath E G.
  destruct (activate_cases env (Some k))
    as [(k0 & out & K & _ & _ & Hc) | (_ & NE & _)]; [ | contradiction].
  inversion K; subst k0.
  destruct Hc as [(M & W & _ & A & _) | [(_ & _ & C & _) | (_ & C & _)]];
    try congruence.
  rewrite A.
  set (env1 := fst (mkdirSync env globalLicenseDir)) in *.
  set (env2 := fst (writeFileSync env1 globalLicensePath k)).
  destruct (writeFileSync_variables env1 globalLicensePath k) as (Pk & Gl & Dn).
  fold env2 in Pk, Gl, Dn.
  assert (R : readLicenseKey env2 dbPath = Some (trim k)).
  { unfold readLicenseKey. rewrite Gl. cbn [env1 mkdirSync fst GRAPH_LICENSE].
    rewrite G. unfold env2.
    rewrite (files_writeFileSync_done env1 globalLicensePath k W). reflexivity. }
  split; [exact R | ].
  intros T. unfold getLicenseTier. rewrite R, T.
  apply f_equal with (f := fun o => match o with Some i => li_tier i | None => Free end).
  apply verifyLicenseKey_same_env; [rewrite Pk | rewrite Dn]; reflexivity.
Qed.

Lemma activate_then_license_tier_witness :
  getLicenseTier (LH := DemoLicense.host)
    (env_after (activate (LH := DemoLicense.host) DemoLicense.env
                  (Some "graph_hdr.pro.sig"))) None
  = Pro.
Proof.
  apply (proj2 (activate_then_license_tier DemoLicense.host DemoLicense.env
                  "graph_hdr.pro.sig" None eq_refl eq_refl) eq_refl).
Defined.

(* ===================================================================== *)
(** * Properties of the dashboard *)
(* ===================================================================== *)

Module UiFacts.
Import Ui.

(** ** buildTree *)

Lemma find_app : forall (A : Type) (f : A -> bool) (l1 l2 : list A),
  find f (l1 ++ l2)%list
  = match find f l1 with
    | Some x => Some x
    | None => find f l2
    end.
Proof.
  intros A f l1 l2. induction l1 as [ | x rest IH]; simpl.
  - reflexivity.
  - destruct (f x); [reflexivity | exact IH].
Qed.

Lemma mapGet_mapSet : forall m key v key',
  mapGet (mapSet m key v) key'
  = if String.eqb key key' then Some v else mapGet m key'.
Proof.
  induction m as [ | [k old] rest IH]; intros key v key'; simpl.
  - reflexivity.
  - destruct (String.eqb k key) eqn:E; simpl.
    + apply String.eqb_eq in E. subst k.
      destruct (String.eqb key key'); reflexivity.
    + rewrite IH. destruct (String.eqb k key') eqn:E'; [ | reflexivity].
      apply String.eqb_eq in E'. subst key'. rewrite String.eqb_sym, E.
      reflexivity.
Qed.

Lemma mapGet_pushChild : forall m p ref key,
  mapGet (pushChild m p ref) key
  = match mapGet m key with
    | Some (d, kids) =>
        Some (d, if String.eqb p key then (kids ++ [ref])%list else kids)
    | None => None
    end.
Proof.
  induction m as [ | [k [d kids]] rest IH]; intros p ref key; simpl.
  - reflexivity.
  - destruct (String.eqb k p) eqn:E; simpl.
    + apply String.eqb_eq in E. subst k.
      destruct (String.eqb p key) eqn:E'; [reflexivity | ].
      destruct (mapGet rest key) as [[d' kids'] | ]; reflexivity.
    + destruct (String.eqb k key) eqn:E'.
      * apply String.eqb_eq in E'. subst key. rewrite String.eqb_sym, E.
        reflexivity.
      * apply IH.
Qed.

Lemma first_loop : forall (l : list NodeData) m key,
  mapGet (fold_left (fun m n => mapSet m (id n) (n, [])) l m) key
  = match find (fun n => String.eqb (id n) key) (rev l) with
    | Some d => Some (d, [])
    | None => mapGet m key
    end.
Proof.
  induction l as [ | n rest IH]; intros m key; simpl.
  - reflexivity.
  - rewrite IH, find_app.
    destruct (find (fun n0 => String.eqb (id n0) key) (rev rest)); [reflexivity | ].
    simpl. rewrite mapGet_mapSet. destruct (String.eqb (id n) key); reflexivity.
Qed.

Lemma find_rev_existsb : forall (A : Type) (f : A -> bool) (l : list A),
  existsb f l = match find f (rev l) with Some _ => true | None => false end.
Proof.
  intros A f l. induction l as [ | x rest IH]; simpl.
  - reflexivity.
  - rewrite find_app, IH.
    destruct (find f (rev rest)); simpl.
    + apply Bool.orb_true_r.
    + rewrite Bool.orb_false_r. destruct (f x); reflexivity.
Qed.

Lemma second_loop : forall (has : string -> bool) l m roots,
  (forall key, mapHas m key = has key) ->
  let step := fun (st : Arena * list string) n =>
       let '(m, roots) := st in
       let treeNode := id n in
       match truthy (parent n) with
       | Some p =>
           if mapHas m p then (pushChild m p treeNode, roots)
           else (m, (roots ++ [treeNode])%list)
       | None => (m, (roots ++ [treeNode])%list)
       end in
  let attachedBy := fun n =>
       match truthy (parent n) with
       | Some p => has p
       | None => false
       end in
  snd (fold_left step l (m, roots))
  = (roots ++ map id (filter (fun n => negb (attachedBy n)) l))%list
  /\ forall key,
       mapGet (fst (fold_left step l (m, roots))) key
       = match mapGet m key with
         | Some (d, kids) =>
             Some (d, (kids ++ map id (filter (childOf key) l))%list)
         | None => None
         end.
Proof.
  intros has l. induction l as [ | n rest IH]; intros m roots H; cbv zeta.
  - simpl. split; [symmetry; apply app_nil_r | ].
    intros key. destruct (mapGet m key) as [[d kids] | ]; [ | reflexivity].
    rewrite app_nil_r. reflexivity.
  - cbn [fold_left]. cbv beta iota.
    destruct (truthy (parent n)) as [p | ] eqn:T.
    + assert (C : forall key, childOf key n = String.eqb p key).
      { intros key. unfold childOf. rewrite T. reflexivity. }
      destruct (mapHas m p) eqn:M.
      * assert (H' : forall key, mapHas (pushChild m p (id n)) key = has key).
        { intros key. rewrite <- H. unfold mapHas. rewrite mapGet_pushChild.
          destruct (mapGet m key) as [[d kids] | ]; reflexivity. }
        destruct (IH (pushChild m p (id n)) roots H') as [R G].
        cbv zeta in R, G. split.
        -- rewrite R. cbn [filter]. rewrite T, <- (H p), M. reflexivity.
        -- intros key. rewrite G, mapGet_pushChild.
           destruct (mapGet m key) as [[d kids] | ]; [ | reflexivity].
           cbn [filter]. rewrite C.
           destruct (String.eqb p key); [ | reflexivity].
           simpl. rewrite <- app_assoc. reflexivity.
      * destruct (IH m (roots ++ [id n])%list H) as [R G].
        cbv zeta in R, G. split.
        -- rewrite R. cbn [filter]. rewrite T, <- (H p), M.
           simpl. rewrite <- app_assoc. reflexivity.
        -- intros key. rewrite G.
           destruct (mapGet m key) as [[d kids] | ] eqn:K; [ | reflexivity].
           cbn [filter]. rewrite C.
           destruct (String.eqb p key) eqn:E; [ | reflexivity].
           apply String.eqb_eq in E. subst key.
           unfold mapHas in M. rewrite K in M. discriminate.
    + assert (C : forall key, childOf key n = false).
      { intros key. unfold childOf. rewrite T. reflexivity. }
      destruct (IH m (roots ++ [id n])%list H) as [R G].
      cbv zeta in R, G. split.
      * rewrite R. cbn [filter]. rewrite T.
        simpl. rewrite <- app_assoc. reflexivity.
      * intros key. rewrite G.
        destruct (mapGet m key) as [[d kids] | ]; [ | reflexivity].
        cbn [filter]. rewrite C. reflexivity.
Qed.

(** X14.  [buildTree] of the dashboard, for any list of nodes (ids may
    repeat, parents may be missing or form cycles): the roots are, in the
    order of the list, the nodes that name no parent, an empty one, or one
    that is not the id of a listed node; the map holds an entry exactly for
    the listed ids; the entry of an id carries the data of the last listed
    node with that id, and its children are, in the order of the list, all
    the nodes that name this id as parent. *)
Theorem ui_buildTree_links : forall nodes : list NodeData,
  snd (buildTree nodes)
  = map id (filter (fun n => negb (attached nodes n)) nodes)
  /\ (forall key,
        mapHas (fst (buildTree nodes)) key
        = existsb (fun n => String.eqb (id n) key) nodes)
  /\ (forall key d kids,
        mapGet (fst (buildTree nodes)) key = Some (d, kids) ->
        find (fun n => String.eqb (id n) key) (rev nodes) = Some d
        /\ kids = map id (filter (childOf key) nodes)).
Proof.
  intros nodes. unfold buildTree.
  set (m1 := fold_left (fun m n => mapSet m (id n) (n, [])) nodes []).
  assert (H1 : forall key,
             mapHas m1 key = existsb (fun n => String.eqb (id n) key) nodes).
  { intros key. unfold mapHas, m1. rewrite first_loop, find_rev_existsb.
    destruct (find (fun n => String.eqb (id n) key) (rev nodes)); reflexivity. }
  destruct (second_loop (fun key => existsb (fun n => String.eqb (id n) key) nodes)
              nodes m1 [] H1) as [R G].
  cbv zeta in R, G |- *. fold m1.
  split; [ | split].
  - rewrite R. reflexivity.
  - intros key. unfold mapHas. rewrite G. fold (mapHas m1 key).
    rewrite <- H1. unfold mapHas.
    destruct (mapGet m1 key) as [[d kids] | ]; reflexivity.
  - intros key d kids K. rewrite G in K.
    unfold m1 in K. rewrite first_loop in K.
    destruct (find (fun n => String.eqb (id n) key) (rev nodes)) as [d0 | ];
      [ | discriminate].
    simpl in K. inversion K. split; reflexivity.
Qed.

Lemma ui_buildTree_links_witness :
  find (fun n => String.eqb (id n) "r") (rev DemoUi.nodes) = Some DemoUi.root
  /\ ["t"; "d"] = map id (filter (childOf "r") DemoUi.nodes).
Proof.
  apply (proj2 (proj2 (ui_buildTree_links DemoUi.nodes))
           "r" DemoUi.root ["t"; "d"]).
  reflexivity.
Defined.

(** ** collectDescendants *)

Lemma TreeNode_nested_ind : forall P : TreeNode -> Prop,
  (forall d, P (mkTreeNode d None)) ->
  (forall d l, Forall P l -> P (mkTreeNode d (Some l))) ->
  forall t, P t.
Proof.
  intros P HN HS. fix IH 1. intros [d [l | ]].
  - apply HS. induction l as [ | c rest IHl]; constructor; [apply IH | exact IHl].
  - apply HN.
Qed.

Lemma subtree_head : forall t, subtree t = t :: tl (subtree t).
Proof. intros [d kids]. reflexivity. Qed.

Lemma walk_children : forall l acc,
  Forall (fun c => forall acc, walk c acc = (acc ++ tl (subtree c))%list) l ->
  fold_left (fun acc child => walk child (acc ++ [child])%list) l acc
  = (acc ++ flat_map subtree l)%list.
Proof.
  induction l as [ | c rest IH]; intros acc H; simpl.
  - symmetry. apply app_nil_r.
  - inversion H as [ | c' rest' Hc Hrest]; subst.
    rewrite Hc, (IH _ Hrest), (subtree_head c).
    simpl. rewrite <- !app_assoc. reflexivity.
Qed.

Lemma walk_spec : forall t acc, walk t acc = (acc ++ tl (subtree t))%list.
Proof.
  intros t. induction t as [d | d l IH] using TreeNode_nested_ind; intros acc.
  - simpl. symmetry. apply app_nil_r.
  - simpl. apply walk_children. exact IH.
Qed.

Lemma collect_subtree : forall t, (t :: collectDescendants t)%list = subtree t.
Proof.
  intros t. unfold collectDescendants. rewrite walk_spec, (subtree_head t).
  reflexivity.
Qed.

(** X15.  [collectDescendants] returns the proper descendants of a node in
    preorder: every child is directly followed by its own descendants, the
    node itself is left out, and a node without a [children] array has
    none.  So the node followed by [collectDescendants] is the preorder
    listing of the whole subtree. *)
Theorem collectDescendants_preorder : forall t : TreeNode,
  collectDescendants t
  = match children t with
    | Some l => flat_map (fun c => c :: collectDescendants c) l
    | None => []
    end
  /\ (t :: collectDescendants t)%list = subtree t.
Proof.
  intros t. split; [ | apply collect_subtree].
  unfold collectDescendants at 1. rewrite walk_spec.
  destruct t as [d [l | ]]; simpl; [ | reflexivity].
  induction l as [ | c rest IH]; simpl; [reflexivity | ].
  rewrite IH, <- (collect_subtree c). reflexivity.
Qed.

(** ** aggregateIntent *)

Section AggregateFacts.
Context {CK : Clock}.

Lemma loopBody_resolved : forall st tn,
  resolved (data tn) = true -> loopBody st tn = st.
Proof. intros st tn R. unfold loopBody. rewrite R. reflexivity. Qed.

Lemma loopBody_unresolved : forall st tn,
  resolved (data tn) = false ->
  l_openDecisions (loopBody st tn)
  = (l_openDecisions st ++ openDecisionsAt (data tn))%list
  /\ l_untestedAssumptions (loopBody st tn)
     = (l_untestedAssumptions st ++ untestedAssumptionsAt (data tn))%list
  /\ l_unscopedEdgeCases (loopBody st tn)
     = (l_unscopedEdgeCases st ++ unscopedEdgeCasesAt (data tn))%list
  /\ l_unconfirmedDod (loopBody st tn)
     = (l_unconfirmedDod st ++ unconfirmedDodAt (data tn))%list
  /\ l_blockedNodes (loopBody st tn)
     = (l_blockedNodes st ++ blockedAt (data tn))%list
  /\ l_staleNodes (loopBody st tn)
     = (l_staleNodes st ++ staleAt (data tn))%list
  /\ l_phaseCounts (loopBody st tn)
     = bump (l_phaseCounts st) (computeDiscoveryPhase (data tn))
  /\ l_worstPhase (loopBody st tn)
     = if (phaseOrder (computeDiscoveryPhase (data tn))
           <? phaseOrder (l_worstPhase st))%Z
       then computeDiscoveryPhase (data tn) else l_worstPhase st.
Proof.
  intros st tn R.
  unfold loopBody, openDecisionsAt, untestedAssumptionsAt, unscopedEdgeCasesAt,
    unconfirmedDodAt, blockedAt, staleAt, decisionsOf, assumptionsOf,
    edgeCasesOf, dodOf, shortName.
  rewrite R.
  assert (B : (if blocked (data tn)
               then (l_blockedNodes st ++
                     [mkBlockedNode (id (data tn)) (summary (data tn))
                        (blocked_reason (data tn))])%list
               else l_blockedNodes st)
              = (l_blockedNodes st ++
                 (if blocked (data tn)
                  then [mkBlockedNode (id (data tn)) (summary (data tn))
                          (blocked_reason (data tn))]
                  else []))%list).
  { destruct (blocked (data tn)); [reflexivity | symmetry; apply app_nil_r]. }
  assert (S : match daysSince (updated_at (data tn)) with
              | Some age =>
                  if Qle_bool age 3 then l_staleNodes st
                  else (l_staleNodes st ++
                        [mkStaleNode (id (data tn)) (summary (data tn))
                           (mathRound age)])%list
              | None => l_staleNodes st
              end
              = (l_staleNodes st ++
                 match daysSince (updated_at (data tn)) with
                 | Some age =>
                     if Qle_bool age 3 then []
                     else [mkStaleNode (id (data tn)) (summary (data tn))
                             (mathRound age)]
                 | None => []
                 end)%list).
  { destruct (daysSince (updated_at (data tn))) as [age | ];
      [destruct (Qle_bool age 3) | ];
      try reflexivity; symmetry; apply app_nil_r. }
  destruct (discovery_artifacts (data tn)) as [a | ]; cbn [l_openDecisions
    l_untestedAssumptions l_unscopedEdgeCases l_unconfirmedDod l_blockedNodes
    l_staleNodes l_phaseCounts l_worstPhase map filter];
    rewrite ?app_nil_r; repeat split; try reflexivity; assumption.
Qed.

Lemma loop_list_field : forall (A : Type) (proj : Loop -> list A)
    (at' : NodeData -> list A),
  (forall st tn, resolved (data tn) = false ->
     proj (loopBody st tn) = (proj st ++ at' (data tn))%list) ->
  forall l st,
    proj (fold_left loopBody l st)
    = (proj st ++ flat_map at' (unresolvedIn l))%list.
Proof.
  intros A proj at' H. induction l as [ | tn rest IH]; intros st.
  - simpl. symmetry. apply app_nil_r.
  - cbn [fold_left]. rewrite IH. unfold unresolvedIn. cbn [map filter].
    destruct (resolved (data tn)) eqn:R; cbn [negb].
    + rewrite loopBody_resolved by exact R. reflexivity.
    + rewrite (H st tn R). cbn [flat_map]. rewrite <- app_assoc. reflexivity.
Qed.

Lemma aggregate_lists : forall t p,
  openDecisions (aggregateIntent t p)
  = flat_map openDecisionsAt (unresolvedOf t)
  /\ untestedAssumptions (aggregateIntent t p)
     = flat_map untestedAssumptionsAt (unresolvedOf t)
  /\ unscopedEdgeCases (aggregateIntent t p)
     = flat_map unscopedEdgeCasesAt (unresolvedOf t)
  /\ unconfirmedDod (aggregateIntent t p)
     = flat_map unconfirmedDodAt (unresolvedOf t)
  /\ blockedNodes (aggregateIntent t p)
     = flat_map blockedAt (unresolvedOf t)
  /\ staleNodes (aggregateIntent t p)
     = sortStale (flat_map staleAt (unresolvedOf t)).
Proof.
  intros t p. unfold aggregateIntent. cbv zeta.
  cbn [openDecisions untestedAssumptions unscopedEdgeCases unconfirmedDod
       blockedNodes staleNodes].
  rewrite collect_subtree. fold start. fold (unresolvedIn (subtree t)).
  change (unresolvedOf t) with (unresolvedIn (subtree t)).
  repeat split.
  - apply (loop_list_field _ l_openDecisions openDecisionsAt).
    intros st tn R. apply (loopBody_unresolved st tn R).
  - apply (loop_list_field _ l_untestedAssumptions untestedAssumptionsAt).
    intros st tn R. apply (loopBody_unresolved st tn R).
  - apply (loop_list_field _ l_unscopedEdgeCases unscopedEdgeCasesAt).
    intros st tn R. apply (loopBody_unresolved st tn R).
  - apply (loop_list_field _ l_unconfirmedDod unconfirmedDodAt).
    intros st tn R. apply (loopBody_unresolved st tn R).
  - apply (loop_list_field _ l_blockedNodes blockedAt).
    intros st tn R. apply (loopBody_unresolved st tn R).
  - f_equal.
    refine (loop_list_field _ l_staleNodes staleAt _ (subtree t) start).
    intros st tn R. apply (loopBody_unresolved st tn R).
Qed.

Lemma countOf_bump : forall c p q,
  countOf (bump c p) q = countOf c q + (if phase_eqb p q then 1 else 0).
Proof. intros c [] []; simpl; lia. Qed.

Lemma loop_counts : forall l st q,
  countOf (l_phaseCounts (fold_left loopBody l st)) q
  = countOf (l_phaseCounts st) q
    + Z.of_nat (List.length
                  (filter (fun n => phase_eqb (computeDiscoveryPhase n) q)
                          (unresolvedIn l))).
Proof.
  induction l as [ | tn rest IH]; intros st q.
  - simpl. lia.
  - cbn [fold_left]. rewrite IH. unfold unresolvedIn. cbn [map filter].
    destruct (resolved (data tn)) eqn:R; cbn [negb].
    + rewrite loopBody_resolved by exact R. reflexivity.
    + destruct (loopBody_unresolved st tn R) as (_ & _ & _ & _ & _ & _ & C & _).
      rewrite C, countOf_bump. cbn [filter].
      destruct (phase_eqb (computeDiscoveryPhase (data tn)) q);
        cbn [List.length]; lia.
Qed.

Lemma phases_partition : forall l : list NodeData,
  Z.of_nat (List.length (filter (fun n => phase_eqb (computeDiscoveryPhase n) raw) l))
  + Z.of_nat (List.length (filter (fun n => phase_eqb (computeDiscoveryPhase n) decomposed) l))
  + Z.of_nat (List.length (filter (fun n => phase_eqb (computeDiscoveryPhase n) in_review) l))
  + Z.of_nat (List.length (filter (fun n => phase_eqb (computeDiscoveryPhase n) deciding) l))
  + Z.of_nat (List.length (filter (fun n => phase_eqb (computeDiscoveryPhase n) ready) l))
  = Z.of_nat (List.length l).
Proof.
  induction l as [ | n rest IH]; [reflexivity | ].
  cbn [filter]. destruct (computeDiscoveryPhase n); cbn [phase_eqb List.length]; lia.
Qed.

Lemma resolved_split : forall l : list TreeNode,
  (List.length (filter (fun n => resolved (data n)) l)
   + List.length (unresolvedIn l))%nat
  = List.length l.
Proof.
  induction l as [ | tn rest IH]; [reflexivity | ].
  unfold unresolvedIn in *. cbn [map filter].
  destruct (resolved (data tn)); cbn [negb List.length]; lia.
Qed.

Lemma phaseOrder_inj : forall a b, phaseOrder a = phaseOrder b -> a = b.
Proof. intros [] [] H; simpl in H; try reflexivity; discriminate. Qed.

Lemma phaseOrder_ready : forall a, 4 <= phaseOrder a -> a = ready.
Proof. intros [] H; simpl in H; try reflexivity; lia. Qed.

Lemma phaseOrder_deciding : forall a, phaseOrder a <= 0 -> a = deciding.
Proof. intros [] H; simpl in H; try reflexivity; lia. Qed.

Lemma loop_worst : forall l st,
  phaseOrder (l_worstPhase (fold_left loopBody l st))
  <= phaseOrder (l_worstPhase st)
  /\ (forall n, In n (unresolvedIn l) ->
        phaseOrder (l_worstPhase (fold_left loopBody l st))
        <= phaseOrder (computeDiscoveryPhase n))
  /\ (l_worstPhase (fold_left loopBody l st) = l_worstPhase st
      \/ exists n, In n (unresolvedIn l)
                   /\ computeDiscoveryPhase n
                      = l_worstPhase (fold_left loopBody l st)).
Proof.
  induction l as [ | tn rest IH]; intros st.
  - simpl. split; [lia | split; [intros n [] | left; reflexivity]].
  - cbn [fold_left]. destruct (IH (loopBody st tn)) as (A & B & C).
    unfold unresolvedIn. cbn [map filter]. fold (unresolvedIn rest).
    destruct (resolved (data tn)) eqn:R; cbn [negb].
    + rewrite loopBody_resolved in * by exact R. auto.
    + destruct (loopBody_unresolved st tn R) as (_ & _ & _ & _ & _ & _ & _ & W).
      rewrite W in A, C.
      destruct (Z.ltb_spec (phaseOrder (computeDiscoveryPhase (data tn)))
                           (phaseOrder (l_worstPhase st))) as [L | L].
      * split; [lia | split].
        -- intros n [E | I]; [subst n; lia | apply B; exact I].
        -- right. destruct C as [C | (n & I & E)].
           ++ exists (data tn). split; [left; reflexivity | symmetry; exact C].
           ++ exists n. split; [right; exact I | exact E].
      * split; [lia | split].
        -- intros n [E | I]; [subst n; lia | apply B; exact I].
        -- destruct C as [C | (n & I & E)]; [left; exact C | right].
           exists n. split; [right; exact I | exact E].
Qed.

Lemma filter_nil_existsb : forall (A : Type) (f : A -> bool) (l : list A),
  filter f l = [] <-> existsb f l = false.
Proof.
  intros A f l. induction l as [ | x rest IH]; simpl.
  - split; reflexivity.
  - destruct (f x); simpl; [split; discriminate | exact IH].
Qed.

Lemma map_nil_iff : forall (A B : Type) (f : A -> B) (l : list A),
  map f l = [] <-> l = [].
Proof. intros A B f [ | x rest]; simpl; split; congruence. Qed.

Lemma deciding_iff : forall n,
  computeDiscoveryPhase n = deciding <-> openDecisionsAt n <> [].
Proof.
  intros n. unfold computeDiscoveryPhase, openDecisionsAt, decisionsOf.
  rewrite map_nil_iff, filter_nil_existsb.
  destruct (discovery_artifacts n) as [a | ].
  - destruct (existsb (fun d => String.eqb (de_status d) "open")
                      (orElse (decisions a) [])).
    + split; [discriminate | reflexivity].
    + repeat match goal with
             | |- context [if ?c then _ else _] => destruct c
             end;
        split; intros H; try discriminate; contradiction H; reflexivity.
  - simpl. split; [discriminate | intros H; contradiction H; reflexivity].
Qed.

Lemma ready_inv : forall n,
  computeDiscoveryPhase n = ready ->
  openDecisionsAt n = [] /\ untestedAssumptionsAt n = []
  /\ unscopedEdgeCasesAt n = [] /\ unconfirmedDodAt n = [].
Proof.
  intros n. unfold computeDiscoveryPhase, openDecisionsAt, untestedAssumptionsAt,
    unscopedEdgeCasesAt, unconfirmedDodAt, decisionsOf, assumptionsOf,
    edgeCasesOf, dodOf.
  rewrite !map_nil_iff, !filter_nil_existsb.
  destruct (discovery_artifacts n) as [a | ]; [ | discriminate].
  destruct (existsb (fun d => String.eqb (de_status d) "open")
                    (orElse (decisions a) [])); [discriminate | ].
  destruct (0 <? List.length (orElse (assumptions a) []))%nat;
    [ | discriminate].
  destruct (existsb (fun a0 => String.eqb (as_status a0) "untested")
                    (orElse (assumptions a) [])); [discriminate | ].
  destruct (existsb (fun e => isNone (ec_scope e)) (orElse (edge_cases a) []));
    [discriminate | ].
  destruct (List.length (orElse (definition_of_done a) []) =? 0)%nat;
    [discriminate | ].
  destruct (existsb (fun d => isNone (dd_met d))
                    (orElse (definition_of_done a) [])); [discriminate | ].
  intros _. repeat split; reflexivity.
Qed.

Lemma flat_map_nil : forall (A B : Type) (f : A -> list B) (l : list A),
  flat_map f l = [] <-> forall x, In x l -> f x = [].
Proof.
  intros A B f l. induction l as [ | x rest IH]; simpl.
  - split; [intros _ y [] | reflexivity].
  - split.
    + intros H. apply app_eq_nil in H. destruct H as [H1 H2].
      intros y [E | I]; [subst y; exact H1 | apply IH; assumption].
    + intros H. rewrite (H x (or_introl eq_refl)).
      simpl. apply IH. intros y I. apply H. right. exact I.
Qed.

(** X16.  The progress and the phase counts of an intent: [total] is the
    size of the subtree, [resolved] the number of its resolved nodes; the
    count of each discovery phase is the number of unresolved nodes of the
    subtree in that phase; so the five counts add up to [total - resolved],
    and resolved nodes are counted under no phase. *)
Theorem intent_counts_partition : forall (t : TreeNode) (p : string),
  let s := aggregateIntent t p in
  p_total (progress s) = Z.of_nat (List.length (subtree t))
  /\ p_resolved (progress s)
     = Z.of_nat (List.length (filter (fun n => resolved (data n)) (subtree t)))
  /\ (forall phase,
        countOf (phaseCounts s) phase
        = Z.of_nat (List.length
                      (filter (fun n => phase_eqb (computeDiscoveryPhase n) phase)
                              (unresolvedOf t))))
  /\ count_raw (phaseCounts s) + count_decomposed (phaseCounts s)
     + count_in_review (phaseCounts s) + count_deciding (phaseCounts s)
     + count_ready (phaseCounts s)
     = p_total (progress s) - p_resolved (progress s)
  /\ 0 <= p_resolved (progress s) <= p_total (progress s).
Proof.
  intros t p s.
  assert (T : p_total (progress s) = Z.of_nat (List.length (subtree t))).
  { unfold s, aggregateIntent. cbv zeta. cbn [progress p_total].
    rewrite collect_subtree. reflexivity. }
  assert (R : p_resolved (progress s)
              = Z.of_nat (List.length (filter (fun n => resolved (data n))
                                              (subtree t)))).
  { unfold s, aggregateIntent. cbv zeta. cbn [progress p_resolved].
    rewrite collect_subtree. reflexivity. }
  assert (C : forall phase,
             countOf (phaseCounts s) phase
             = Z.of_nat (List.length
                           (filter (fun n => phase_eqb (computeDiscoveryPhase n) phase)
                                   (unresolvedOf t)))).
  { intros phase. unfold s, aggregateIntent. cbv zeta. cbn [phaseCounts].
    rewrite collect_subtree. fold start. rewrite loop_counts.
    destruct phase; reflexivity. }
  pose proof (phases_partition (unresolvedOf t)) as P.
  pose proof (resolved_split (subtree t)) as S.
  fold (unresolvedOf t) in S.
  pose proof (C raw) as C1. pose proof (C decomposed) as C2.
  pose proof (C in_review) as C3. pose proof (C deciding) as C4.
  pose proof (C ready) as C5. cbn [countOf] in C1, C2, C3, C4, C5.
  split; [exact T | split; [exact R | split; [exact C | ]]].
  rewrite T, R, C1, C2, C3, C4, C5. lia.
Qed.

(** X17.  The worst phase of an intent is the phase of smallest
    [phaseOrder] among the unresolved nodes of the subtree, and [ready]
    when there is none.  It agrees with the lists: it is [deciding] exactly
    when some decision is open, and when it is [ready] there is no open
    decision, untested assumption, unscoped edge case or unconfirmed
    criterion anywhere in the intent. *)
Theorem intent_worst_phase : forall (t : TreeNode) (p : string),
  let s := aggregateIntent t p in
  (forall n, In n (unresolvedOf t) ->
     phaseOrder (worstPhase s) <= phaseOrder (computeDiscoveryPhase n))
  /\ (unresolvedOf t <> [] ->
      exists n, In n (unresolvedOf t) /\ computeDiscoveryPhase n = worstPhase s)
  /\ (unresolvedOf t = [] -> worstPhase s = ready)
  /\ (worstPhase s = deciding <-> openDecisions s <> [])
  /\ (worstPhase s = ready ->
      openDecisions s = [] /\ untestedAssumptions s = []
      /\ unscopedEdgeCases s = [] /\ unconfirmedDod s = []).
Proof.
  intros t p s.
  assert (W : worstPhase s = l_worstPhase (fold_left loopBody (subtree t) start)).
  { unfold s, aggregateIntent. cbv zeta. cbn [worstPhase].
    rewrite collect_subtree. reflexivity. }
  destruct (loop_worst (subtree t) start) as (_ & B & C).
  rewrite <- W in B, C. fold (unresolvedOf t) in B, C.
  cbn [start l_worstPhase] in C.
  destruct (aggregate_lists t p) as (L1 & L2 & L3 & L4 & _).
  fold s in L1, L2, L3, L4.
  assert (A : unresolvedOf t <> [] ->
              exists n, In n (unresolvedOf t)
                        /\ computeDiscoveryPhase n = worstPhase s).
  { intros NE. destruct C as [C | C]; [ | exact C].
    destruct (unresolvedOf t) as [ | n rest] eqn:U; [contradiction NE; reflexivity | ].
    exists n. split; [left; reflexivity | ].
    rewrite C. apply phaseOrder_ready.
    specialize (B n (or_introl eq_refl)). rewrite C in B. exact B. }
  split; [exact B | split; [exact A | split; [ | split]]].
  - intros E. destruct C as [C | (n & I & _)]; [exact C | ].
    rewrite E in I. destruct I.
  - rewrite L1. split.
    + intros D F. destruct C as [C | (n & I & E)]; [congruence | ].
      rewrite flat_map_nil in F. specialize (F n I).
      rewrite D in E. apply deciding_iff in E. contradiction.
    + intros F. destruct (flat_map openDecisionsAt (unresolvedOf t)) eqn:M;
        [contradiction F; reflexivity | clear F].
      assert (X : exists n, In n (unresolvedOf t) /\ openDecisionsAt n <> []).
      { clear -M. induction (unresolvedOf t) as [ | n rest IH];
          [discriminate | ].
        simpl in M. destruct (openDecisionsAt n) eqn:O.
        - destruct (IH M) as (m & I & N). exists m. split; [right; exact I | exact N].
        - exists n. split; [left; reflexivity | rewrite O; discriminate]. }
      destruct X as (n & I & N). apply deciding_iff in N.
      apply phaseOrder_deciding. specialize (B n I). rewrite N in B. exact B.
  - intros E. rewrite L1, L2, L3, L4, !flat_map_nil.
    assert (Q : forall n, In n (unresolvedOf t) -> computeDiscoveryPhase n = ready).
    { intros n I. apply phaseOrder_ready. specialize (B n I).
      rewrite E in B. exact B. }
    repeat split; intros n I; apply (ready_inv n (Q n I)).
Qed.

(** *** The stale nodes *)

Lemma insertStale_perm : forall x l, Permutation (insertStale x l) (x :: l).
Proof.
  intros x l. induction l as [ | y rest IH]; simpl.
  - apply Permutation_refl.
  - destruct (sn_daysSince y <? sn_daysSince x)%Z; [apply Permutation_refl | ].
    apply Permutation_trans with (y :: x :: rest)%list;
      [apply perm_skip; exact IH | apply perm_swap].
Qed.

Lemma insertStale_sorted : forall x l,
  StronglySorted descending l -> StronglySorted descending (insertStale x l).
Proof.
  intros x l. induction l as [ | y rest IH]; intros S; simpl.
  - constructor; [constructor | constructor].
  - inversion S as [ | y' rest' Srest Hy]; subst.
    destruct (Z.ltb_spec (sn_daysSince y) (sn_daysSince x)) as [L | L].
    + constructor; [exact S | ].
      constructor; [unfold descending; lia | ].
      apply Forall_forall. intros z I.
      rewrite Forall_forall in Hy. specialize (Hy z I).
      unfold descending in *. lia.
    + constructor; [apply IH; exact Srest | ].
      apply Forall_forall. intros z I.
      apply (Permutation_in _ (insertStale_perm x rest)) in I.
      destruct I as [E | I]; [subst z; exact L | ].
      rewrite Forall_forall in Hy. apply Hy. exact I.
Qed.

Lemma insertStale_stable : forall x l k,
  StronglySorted descending l ->
  filter (fun e => (sn_daysSince e =? k)%Z) (insertStale x l)
  = (filter (fun e => (sn_daysSince e =? k)%Z) l
     ++ (if (sn_daysSince x =? k)%Z then [x] else []))%list.
Proof.
  intros x l k. induction l as [ | y rest IH]; intros S.
  - simpl. destruct (sn_daysSince x =? k)%Z; reflexivity.
  - inversion S as [ | y' rest' Srest Hy]; subst.
    cbn [insertStale].
    destruct (Z.ltb_spec (sn_daysSince y) (sn_daysSince x)) as [L | L].
    + cbn [filter].
      destruct (Z.eqb_spec (sn_daysSince x) k) as [E | E];
        [ | symmetry; apply app_nil_r].
      assert (N : filter (fun e => (sn_daysSince e =? k)%Z) rest = []).
      { apply filter_nil_existsb. apply Bool.not_true_is_false. intros X.
        apply existsb_exists in X. destruct X as (z & I & Z).
        rewrite Forall_forall in Hy. specialize (Hy z I).
        unfold descending in Hy. apply Z.eqb_eq in Z. lia. }
      destruct (Z.eqb_spec (sn_daysSince y) k) as [E' | E']; [lia | ].
      rewrite N. reflexivity.
    + cbn [filter]. rewrite (IH Srest).
      destruct (sn_daysSince y =? k)%Z; [ | reflexivity].
      reflexivity.
Qed.

Lemma sortStale_fold : forall l acc,
  StronglySorted descending acc ->
  StronglySorted descending (fold_left (fun sorted x => insertStale x sorted) l acc)
  /\ Permutation (fold_left (fun sorted x => insertStale x sorted) l acc)
                 (acc ++ l)
  /\ forall k,
       filter (fun e => (sn_daysSince e =? k)%Z)
              (fold_left (fun sorted x => insertStale x sorted) l acc)
       = (filter (fun e => (sn_daysSince e =? k)%Z) acc
          ++ filter (fun e => (sn_daysSince e =? k)%Z) l)%list.
Proof.
  induction l as [ | x rest IH]; intros acc S.
  - simpl. split; [exact S | split].
    + rewrite app_nil_r. apply Permutation_refl.
    + intros k. symmetry. apply app_nil_r.
  - cbn [fold_left].
    destruct (IH (insertStale x acc) (insertStale_sorted x acc S)) as (A & B & C).
    split; [exact A | split].
    + apply Permutation_trans with (insertStale x acc ++ rest)%list; [exact B | ].
      apply Permutation_trans with ((x :: acc) ++ rest)%list.
      * apply Permutation_app_tail. apply insertStale_perm.
      * simpl. apply Permutation_middle.
    + intros k. rewrite C, (insertStale_stable x acc k S). cbn [filter].
      rewrite <- app_assoc. destruct (sn_daysSince x =? k)%Z; reflexivity.
Qed.

Lemma mathRound_near : forall age : Q,
  (age - (1 # 2) < inject_Z (mathRound age))%Q
  /\ (inject_Z (mathRound age) <= age + (1 # 2))%Q.
Proof.
  intros age. unfold mathRound. split.
  - pose proof (Qlt_floor (age + (1 # 2))) as H.
    rewrite inject_Z_plus in H.
    apply Qplus_lt_l with (z := 1%Q).
    eapply Qle_lt_trans; [ | exact H].
    setoid_replace (age - (1 # 2) + 1)%Q with (age + (1 # 2))%Q by ring.
    apply Qle_refl.
  - apply Qfloor_le.
Qed.

Lemma mathRound_stale : forall age : Q,
  Qle_bool age 3 = false -> 3 <= mathRound age.
Proof.
  intros age H. unfold mathRound.
  change 3 with (Qfloor (inject_Z 3)). apply Qfloor_resp_le.
  assert (L : (3 < age)%Q).
  { apply Qnot_le_lt. intros X. apply Qle_bool_iff in X. congruence. }
  apply Qlt_le_weak in L.
  apply Qle_trans with age; [exact L | ].
  setoid_replace age with (age + 0)%Q at 1 by ring.
  apply Qplus_le_r. discriminate.
Qed.

(** X18.  The stale nodes of an intent: one entry for every unresolved
    node of the subtree whose age is more than three days (a node whose
    timestamp cannot be read is never stale), carrying the age rounded to
    the nearest whole day, which is at least 3; the entries are ordered by
    that number, largest first, and entries with the same number keep the
    preorder of their nodes. *)
Theorem intent_stale_nodes : forall (t : TreeNode) (p : string),
  let s := aggregateIntent t p in
  Permutation (staleNodes s) (flat_map staleAt (unresolvedOf t))
  /\ StronglySorted descending (staleNodes s)
  /\ (forall k,
        filter (fun e => (sn_daysSince e =? k)%Z) (staleNodes s)
        = filter (fun e => (sn_daysSince e =? k)%Z) (flat_map staleAt (unresolvedOf t)))
  /\ (forall e, In e (staleNodes s) ->
        3 <= sn_daysSince e
        /\ exists n age,
             In n (unresolvedOf t)
             /\ daysSince (updated_at n) = Some age
             /\ (3 < age)%Q
             /\ e = mkStaleNode (id n) (summary n) (mathRound age)
             /\ (age - (1 # 2) < inject_Z (sn_daysSince e))%Q
             /\ (inject_Z (sn_daysSince e) <= age + (1 # 2))%Q).
Proof.
  intros t p s.
  destruct (aggregate_lists t p) as (_ & _ & _ & _ & _ & L). fold s in L.
  destruct (sortStale_fold (flat_map staleAt (unresolvedOf t)) []
              (SSorted_nil descending)) as (A & B & C).
  fold (sortStale (flat_map staleAt (unresolvedOf t))) in A, B, C.
  rewrite <- L in A, B, C. cbn [app filter] in B, C.
  split; [exact B | split; [exact A | split; [exact C | ]]].
  intros e I. apply (Permutation_in _ B) in I.
  apply in_flat_map in I. destruct I as (n & In_n & Ie).
  unfold staleAt in Ie.
  destruct (daysSince (updated_at n)) as [age | ] eqn:D; [ | destruct Ie].
  destruct (Qle_bool age 3) eqn:Q; [destruct Ie | ].
  destruct Ie as [E | []]. subst e. cbn [sn_daysSince].
  split; [apply mathRound_stale; exact Q | ].
  exists n, age. split; [exact In_n | split; [exact D | split]].
  - apply Qnot_le_lt. intros X. apply Qle_bool_iff in X. congruence.
  - split; [reflexivity | apply mathRound_near].
Qed.

(** *** The latest update *)

Lemma compare_not_Gt_trans : forall a b c : string,
  String.compare a b <> Gt -> String.compare b c <> Gt ->
  String.compare a c <> Gt.
Proof.
  induction a as [ | x a IH]; intros [ | y b] [ | z c]; simpl;
    try congruence.
  unfold Ascii.compare.
  destruct (N.compare_spec (N_of_ascii x) (N_of_ascii y)) as [E1 | L1 | G1];
    destruct (N.compare_spec (N_of_ascii y) (N_of_ascii z)) as [E2 | L2 | G2];
    destruct (N.compare_spec (N_of_ascii x) (N_of_ascii z)) as [E3 | L3 | G3];
    intros H1 H2; try congruence; try lia.
  apply (IH b c); assumption.
Qed.

Lemma string_le_trans : forall a b c,
  string_le a b -> string_le b c -> string_le a c.
Proof.
  unfold string_le, String.leb. intros a b c H1 H2.
  pose proof (compare_not_Gt_trans a b c) as T.
  destruct (String.compare a b); destruct (String.compare b c);
    destruct (String.compare a c); try reflexivity; try discriminate;
    exfalso; apply T; congruence.
Qed.

Lemma string_le_refl : forall a, string_le a a.
Proof.
  intros a. unfold string_le, String.leb.
  assert (E : String.compare a a = Eq).
  { induction a as [ | x a IH]; simpl; [reflexivity | ].
    unfold Ascii.compare. rewrite N.compare_refl. exact IH. }
  rewrite E. reflexivity.
Qed.

Lemma ltb_true_le : forall a b, String.ltb a b = true -> string_le a b.
Proof.
  unfold string_le, String.ltb, String.leb. intros a b.
  destruct (String.compare a b); congruence.
Qed.

Lemma ltb_false_le : forall a b, String.ltb a b = false -> string_le b a.
Proof.
  unfold string_le, String.ltb, String.leb. intros a b.
  rewrite (String.compare_antisym a b).
  destruct (String.compare b a); simpl; congruence.
Qed.

Lemma latest_fold : forall (l : list TreeNode) (init : string),
  string_le init
    (fold_left
       (fun latest n =>
          if String.ltb latest (updated_at (data n))
          then updated_at (data n) else latest) l init)
  /\ (forall n, In n l ->
        string_le (updated_at (data n))
          (fold_left
             (fun latest n =>
                if String.ltb latest (updated_at (data n))
                then updated_at (data n) else latest) l init))
  /\ (fold_left
        (fun latest n =>
           if String.ltb latest (updated_at (data n))
           then updated_at (data n) else latest) l init = init
      \/ exists n, In n l
           /\ updated_at (data n)
              = fold_left
                  (fun latest n =>
                     if String.ltb latest (updated_at (data n))
                     then updated_at (data n) else latest) l init).
Proof.
  induction l as [ | x rest IH]; intros init.
  - simpl. split; [apply string_le_refl | split; [intros n [] | left; reflexivity]].
  - cbn [fold_left].
    destruct (String.ltb init (updated_at (data x))) eqn:L.
    + destruct (IH (updated_at (data x))) as (A & B & C).
      split; [ | split].
      * eapply string_le_trans; [apply ltb_true_le; exact L | exact A].
      * intros n [E | I]; [subst n; exact A | apply B; exact I].
      * right. destruct C as [C | (n & I & E)].
        -- exists x. split; [left; reflexivity | symmetry; exact C].
        -- exists n. split; [right; exact I | exact E].
    + destruct (IH init) as (A & B & C).
      split; [exact A | split].
      * intros n [E | I]; [subst n | apply B; exact I].
        eapply string_le_trans; [apply ltb_false_le; exact L | exact A].
      * destruct C as [C | (n & I & E)]; [left; exact C | right].
        exists n. split; [right; exact I | exact E].
Qed.

(** X19.  [updatedAt] of an intent is the latest [updated_at] of the
    subtree, resolved nodes included: no node of the subtree has a later
    timestamp in the order of strings, and some node of the subtree carries
    exactly this one. *)
Theorem intent_updatedAt_latest : forall (t : TreeNode) (p : string),
  let s := aggregateIntent t p in
  (forall n, In n (subtree t) -> string_le (updated_at (data n)) (updatedAt s))
  /\ exists n, In n (subtree t) /\ updated_at (data n) = updatedAt s.
Proof.
  intros t p s.
  assert (U : updatedAt s
              = fold_left
                  (fun latest n =>
                     if String.ltb latest (updated_at (data n))
                     then updated_at (data n) else latest)
                  (subtree t) (updated_at (data t))).
  { unfold s, aggregateIntent. cbv zeta. cbn [updatedAt].
    rewrite collect_subtree. reflexivity. }
  destruct (latest_fold (subtree t) (updated_at (data t))) as (_ & B & C).
  rewrite <- U in B, C. split; [exact B | ].
  destruct C as [C | C]; [ | exact C].
  exists t. split; [ | symmetry; exact C].
  rewrite (subtree_head t). left. reflexivity.
Qed.

(** *** The signal *)

Lemma filter_nil_forall : forall (A : Type) (f : A -> bool) (l : list A),
  filter f l = [] <-> forall x, In x l -> f x = false.
Proof.
  intros A f l. rewrite filter_nil_existsb. split.
  - intros H x I. destruct (f x) eqn:F; [ | reflexivity].
    rewrite <- H. symmetry. apply existsb_exists. exists x. split; assumption.
  - intros H. apply Bool.not_true_is_false. intros X.
    apply existsb_exists in X. destruct X as (x & I & F).
    rewrite (H x I) in F. discriminate.
Qed.

Lemma quiet_iff : forall n,
  quiet n <->
  blockedAt n = [] /\ staleAt n = [] /\ openDecisionsAt n = []
  /\ untestedAssumptionsAt n = [] /\ unscopedEdgeCasesAt n = []
  /\ unconfirmedDodAt n = [].
Proof.
  intros n. unfold quiet, blockedAt, staleAt, stale, openDecisionsAt,
    untestedAssumptionsAt, unscopedEdgeCasesAt, unconfirmedDodAt.
  rewrite !map_nil_iff, !filter_nil_forall.
  assert (B : blocked n = false
              <-> (if blocked n
                   then [mkBlockedNode (id n) (summary n) (blocked_reason n)]
                   else []) = []).
  { destruct (blocked n); split; congruence. }
  assert (S : match daysSince (updated_at n) with
              | Some age => negb (Qle_bool age 3)
              | None => false
              end = false
              <-> match daysSince (updated_at n) with
                  | Some age =>
                      if Qle_bool age 3 then []
                      else [mkStaleNode (id n) (summary n) (mathRound age)]
                  | None => []
                  end = []).
  { destruct (daysSince (updated_at n)) as [age | ];
      [destruct (Qle_bool age 3) | ]; simpl; split; congruence. }
  rewrite B, S.
  assert (I : forall (A : Type) (o : option A), isNone o = false <-> o <> None).
  { intros A [x | ]; simpl; split; congruence. }
  repeat apply and_iff_compat_l.
  split.
  - intros (D & A & E & K). repeat split; intros x Hx.
    + apply String.eqb_neq. apply D. exact Hx.
    + apply String.eqb_neq. apply A. exact Hx.
    + apply I. apply E. exact Hx.
    + apply I. apply K. exact Hx.
  - intros (D & A & E & K). repeat split; intros x Hx.
    + apply String.eqb_neq. apply D. exact Hx.
    + apply String.eqb_neq. apply A. exact Hx.
    + apply I. apply E. exact Hx.
    + apply I. apply K. exact Hx.
Qed.

Lemma length_flat_map_blocked : forall l : list NodeData,
  List.length (flat_map blockedAt l) = List.length (filter blocked l).
Proof.
  induction l as [ | n rest IH]; [reflexivity | ].
  simpl. unfold blockedAt at 1. destruct (blocked n); simpl; rewrite IH; reflexivity.
Qed.

(** X20.  The signal shown for an intent.  There is none exactly when
    every unresolved node of the subtree is quiet: not blocked, not stale,
    and without an open decision, untested assumption, unscoped edge case
    or unconfirmed criterion; resolved nodes never raise a signal.  A
    blocked unresolved node takes precedence over everything else, and the
    signal then counts the blocked unresolved nodes; with no node blocked,
    an open decision comes next, and the signal counts the open decisions;
    staleness is reported only when nothing else is pending. *)
Theorem intent_signal : forall (t : TreeNode) (p : string),
  let s := aggregateIntent t p in
  (getIntentSignal s = None <-> forall n, In n (unresolvedOf t) -> quiet n)
  /\ ((exists n, In n (unresolvedOf t) /\ blocked n = true) ->
      getIntentSignal s
      = Some (mkSignal blockedSignal
                (List.length (filter blocked (unresolvedOf t))) false))
  /\ ((forall n, In n (unresolvedOf t) -> blocked n = false) ->
      flat_map openDecisionsAt (unresolvedOf t) <> [] ->
      getIntentSignal s
      = Some (mkSignal decisionsSignal
                (List.length (flat_map openDecisionsAt (unresolvedOf t)))
                (negb (List.length (flat_map openDecisionsAt (unresolvedOf t))
                       =? 1)%nat)))
  /\ (forall sig, getIntentSignal s = Some sig ->
      sig_type sig = staleSignal ->
      blockedNodes s = [] /\ openDecisions s = [] /\ untestedAssumptions s = []
      /\ unscopedEdgeCases s = [] /\ unconfirmedDod s = []
      /\ sig_count sig = List.length (staleNodes s)).
Proof.
  intros t p s.
  destruct (aggregate_lists t p) as (L1 & L2 & L3 & L4 & L5 & L6).
  fold s in L1, L2, L3, L4, L5, L6.
  split; [ | split; [ | split]].
  - assert (N : getIntentSignal s = None
                <-> blockedNodes s = [] /\ staleNodes s = []
                    /\ openDecisions s = [] /\ untestedAssumptions s = []
                    /\ unscopedEdgeCases s = [] /\ unconfirmedDod s = []).
    { unfold getIntentSignal.
      destruct (blockedNodes s); destruct (openDecisions s);
        destruct (untestedAssumptions s); destruct (unscopedEdgeCases s);
        destruct (unconfirmedDod s); destruct (staleNodes s); simpl;
        split; intros H; try discriminate; try reflexivity;
        try (repeat split; reflexivity);
        destruct H as (H1 & H2 & H3 & H4 & H5 & H6); discriminate. }
    rewrite N, L1, L2, L3, L4, L5, L6.
    assert (Z : sortStale (flat_map staleAt (unresolvedOf t)) = []
                <-> flat_map staleAt (unresolvedOf t) = []).
    { destruct (sortStale_fold (flat_map staleAt (unresolvedOf t)) []
                  (SSorted_nil descending)) as (_ & P & _).
      fold (sortStale (flat_map staleAt (unresolvedOf t))) in P. simpl in P.
      split; intros E.
      - rewrite E in P. apply Permutation_nil in P. exact P.
      - rewrite E. reflexivity. }
    rewrite Z, !flat_map_nil. split.
    + intros (H1 & H2 & H3 & H4 & H5 & H6) n I. apply quiet_iff.
      repeat split; auto.
    + intros H. repeat split; intros n I; apply (quiet_iff n); apply H; exact I.
  - intros (n & I & B). unfold getIntentSignal. rewrite L5.
    rewrite length_flat_map_blocked.
    assert (X : In n (filter blocked (unresolvedOf t))).
    { apply filter_In. split; assumption. }
    destruct (filter blocked (unresolvedOf t)); [destruct X | reflexivity].
  - intros NB OD. unfold getIntentSignal. rewrite L5, L1.
    assert (X : flat_map blockedAt (unresolvedOf t) = []).
    { apply flat_map_nil. intros n I. unfold blockedAt. rewrite (NB n I).
      reflexivity. }
    rewrite X. simpl.
    destruct (flat_map openDecisionsAt (unresolvedOf t));
      [contradiction OD; reflexivity | reflexivity].
  - intros sig G T. unfold getIntentSignal in G.
    destruct (blockedNodes s); destruct (openDecisions s);
      destruct (untestedAssumptions s); destruct (unscopedEdgeCases s);
      destruct (unconfirmedDod s); destruct (staleNodes s); simpl in G;
      inversion G; subst sig; simpl in T; try discriminate.
    repeat split; reflexivity.
Qed.

End AggregateFacts.

Lemma intent_worst_phase_witness :
  worstPhase (aggregateIntent (CK := DemoUi.clock) DemoUi.tree "demo") = deciding.
Proof.
  destruct (intent_worst_phase (CK := DemoUi.clock) DemoUi.tree "demo")
    as (_ & _ & _ & D & _).
  apply (proj2 D). vm_compute. discriminate.
Defined.

Lemma intent_stale_nodes_witness :
  StronglySorted descending
    (staleNodes (aggregateIntent (CK := DemoUi.clock) DemoUi.tree "demo"))
  /\ 3 <= sn_daysSince (mkStaleNode "r" "node r" 7).
Proof.
  destruct (intent_stale_nodes (CK := DemoUi.clock) DemoUi.tree "demo")
    as (_ & S & _ & H).
  split; [exact S | ].
  assert (I : In (mkStaleNode "r" "node r" 7)
                 (staleNodes (aggregateIntent (CK := DemoUi.clock)
                                DemoUi.tree "demo"))).
  { vm_compute. left. reflexivity. }
  destruct (H _ I) as [G _]. exact G.
Defined.

Lemma intent_updatedAt_latest_witness :
  string_le (updated_at DemoUi.task)
    (updatedAt (aggregateIntent (CK := DemoUi.clock) DemoUi.tree "demo")).
Proof.
  apply (proj1 (intent_updatedAt_latest (CK := DemoUi.clock) DemoUi.tree "demo")
           (mkTreeNode DemoUi.task (Some []))).
  vm_compute. right. left. reflexivity.
Defined.

Lemma intent_signal_witness :
  getIntentSignal (aggregateIntent (CK := DemoUi.clock) DemoUi.tree "demo")
  = Some (mkSignal blockedSignal
            (List.length (filter blocked (unresolvedOf DemoUi.tree))) false).
Proof.
  apply (proj1 (proj2 (intent_signal (CK := DemoUi.clock) DemoUi.tree "demo"))).
  exists DemoUi.task. split; [ | reflexivity].
  vm_compute. right. left. reflexivity.
Defined.

End UiFacts.

(* ===================================================================== *)
(** * Properties of the init command *)
(* ===================================================================== *)

Module InitFacts.

Section WithHosts.
Context {LH : LicenseHost} {IH : InitHost}.

Lemma lookupField_setField_same : forall key v fields,
  lookupField key (setField key v fields) = v.
Proof.
  intros key v fields. induction fields as [ | [k old] rest IH']; simpl.
  - rewrite String.eqb_refl. reflexivity.
  - destruct (String.eqb k key) eqn:E; simpl; rewrite E; [reflexivity | exact IH'].
Qed.

Lemma lookupField_setField_other : forall key v fields k',
  k' <> key ->
  lookupField k' (setField key v fields) = lookupField k' fields.
Proof.
  intros key v fields k' N. induction fields as [ | [k old] rest IH']; simpl.
  - destruct (String.eqb key k') eqn:E; [ | reflexivity].
    apply String.eqb_eq in E. congruence.
  - destruct (String.eqb k key) eqn:E; simpl.
    + apply String.eqb_eq in E. subst k.
      destruct (String.eqb key k') eqn:E'; [ | reflexivity].
      apply String.eqb_eq in E'. congruence.
    + rewrite IH'. reflexivity.
Qed.

Lemma setField_same_value : forall key fields,
  (exists v, In (key, v) fields) ->
  setField key (lookupField key fields) fields = fields.
Proof.
  intros key fields. induction fields as [ | [k old] rest IH']; intros (v & I).
  - destruct I.
  - simpl. destruct (String.eqb k key) eqn:E.
    + reflexivity.
    + f_equal. apply IH'.
      destruct I as [I | I]; [ | exists v; exact I].
      inversion I. subst k. rewrite String.eqb_refl in E. discriminate.
Qed.

Lemma lookupField_In : forall key fields,
  lookupField key fields <> VUndefined -> exists v, In (key, v) fields.
Proof.
  intros key fields. induction fields as [ | [k v] rest IH']; intros H.
  - contradiction H. reflexivity.
  - simpl in H. destruct (String.eqb k key) eqn:E.
    + apply String.eqb_eq in E. subst k. exists v. left. reflexivity.
    + destruct (IH' H) as (w & I). exists w. right. exact I.
Qed.

(** *** What the two statements of the update do *)

Lemma addGraphServer_object : forall fields sf,
  nullish (lookupField "mcpServers" fields) (VObject []) = VObject sf ->
  addGraphServer (VObject fields) (lookupField "mcpServers" fields)
  = Some (VObject (setField "mcpServers"
                     (VObject (setField "graph" MCP_CONFIG sf)) fields)).
Proof.
  intros fields sf S. unfold addGraphServer. cbv zeta. rewrite S. reflexivity.
Qed.

Lemma addGraphServer_array : forall config,
  arrayShaped config = true ->
  exists servers,
    member config "mcpServers" = Some servers /\
    truthyValue (getProp servers "graph") = false /\
    addGraphServer config servers = Some config.
Proof.
  intros config A.
  destruct config as [ | | b | n | s | items | fields]; try discriminate.
  - exists VUndefined. repeat split.
  - simpl in A.
    destruct (lookupField "mcpServers" fields) as [ | | b | n | s | xs | sf] eqn:L;
      try discriminate.
    exists (VArray xs). cbn [member]. rewrite L.
    split; [reflexivity | split; [reflexivity | ]].
    unfold addGraphServer. cbn. rewrite <- L.
    rewrite setField_same_value; [reflexivity | ].
    apply lookupField_In. rewrite L. discriminate.
Qed.

Lemma unusable_spec : forall config,
  unusable config = true <->
  (member config "mcpServers" = None \/
   exists servers,
     member config "mcpServers" = Some servers /\
     truthyValue (getProp servers "graph") = false /\
     addGraphServer config servers = None).
Proof.
  intros config.
  destruct config as [ | | b | n | s | items | fields]; cbn [unusable member].
  - split; [intros _; left; reflexivity | reflexivity].
  - split; [intros _; left; reflexivity | reflexivity].
  - split; [intros _; right; exists VUndefined; repeat split | reflexivity].
  - split; [intros _; right; exists VUndefined; repeat split | reflexivity].
  - split; [intros _; right; exists VUndefined; repeat split | reflexivity].
  - split; [discriminate | ].
    intros [H | (servers & M & _ & A)]; [discriminate | ].
    inversion M; subst servers. discriminate.
  - destruct (lookupField "mcpServers" fields) as [ | | b | n | s | xs | sf] eqn:L;
      cbn [isScalar].
    + split; [discriminate | ].
      intros [H | (servers & M & _ & A)]; [discriminate | ].
      inversion M; subst servers. discriminate.
    + split; [discriminate | ].
      intros [H | (servers & M & _ & A)]; [discriminate | ].
      inversion M; subst servers. discriminate.
    + split; [intros _; right; eexists; repeat split | reflexivity].
    + split; [intros _; right; eexists; repeat split | reflexivity].
    + split; [intros _; right; eexists; repeat split | reflexivity].
    + split; [discriminate | ].
      intros [H | (servers & M & _ & A)]; [discriminate | ].
      inversion M; subst servers. discriminate.
    + split; [discriminate | ].
      intros [H | (servers & M & _ & A)]; [discriminate | ].
      inversion M; subst servers. discriminate.
Qed.

(** *** Step 1 *)

Lemma initConfig_cases : forall env,
  (files env configPath = Missing /\
   initConfig env
   = if snd (writeFileSync env configPath (jsonStringify freshConfig ++ LF)) then
       {| cs_env := fst (writeFileSync env configPath
                           (jsonStringify freshConfig ++ LF));
          cs_stdout := [CreatedLine];
          cs_stderr := [];
          cs_wrote := true;
          cs_threw := false |}
     else
       {| cs_env := fst (writeFileSync env configPath
                           (jsonStringify freshConfig ++ LF));
          cs_stdout := [];
          cs_stderr := [];
          cs_wrote := false;
          cs_threw := true |}) \/
  (configUnusable env /\ initConfig env = skipped env) \/
  (exists text config servers,
      files env configPath = File text /\ jsonParse text = Some config /\
      member config "mcpServers" = Some servers /\
      truthyValue (getProp servers "graph") = true /\
      initConfig env
      = {| cs_env := env; cs_stdout := [ConfiguredLine]; cs_stderr := [];
           cs_wrote := false; cs_threw := false |}) \/
  (exists text config servers config',
      files env configPath = File text /\ jsonParse text = Some config /\
      member config "mcpServers" = Some servers /\
      truthyValue (getProp servers "graph") = false /\
      addGraphServer config servers = Some config' /\
      initConfig env = added env config').
Proof.
  intros env. unfold initConfig, configUnusable, existsSync, readFileSync, added.
  destruct (files env configPath) as [ | text | ] eqn:F.
  - left. split; reflexivity.
  - destruct (jsonParse text) as [config | ] eqn:P.
    + destruct (member config "mcpServers") as [servers | ] eqn:M.
      * destruct (truthyValue (getProp servers "graph")) eqn:G.
        -- right. right. left. exists text, config, servers. auto.
        -- destruct (addGraphServer config servers) as [config' | ] eqn:A.
           ++ right. right. right. exists text, config, servers, config'.
              repeat split; auto.
           ++ right. left. split; [ | reflexivity].
              apply unusable_spec. right. exists servers. auto.
      * right. left. split; [ | reflexivity].
        apply unusable_spec. left. exact M.
    + right. left. split; [exact I | reflexivity].
  - right. left. split; [exact I | reflexivity].
Qed.

Lemma configUnusable_excludes : forall env text config servers,
  configUnusable env ->
  files env configPath = File text -> jsonParse text = Some config ->
  member config "mcpServers" = Some servers ->
  truthyValue (getProp servers "graph") = false /\
  addGraphServer config servers = None.
Proof.
  intros env text config servers U F P M. unfold configUnusable in U.
  rewrite F, P in U. apply unusable_spec in U.
  destruct U as [U | (servers' & M' & G & A)]; [congruence | ].
  rewrite M in M'. inversion M'; subst servers'. split; assumption.
Qed.

Lemma initConfig_env : forall env,
  cs_env (initConfig env) = env
  \/ exists c, cs_env (initConfig env) = fst (writeFileSync env configPath c).
Proof.
  intros env.
  destruct (initConfig_cases env)
    as [(_ & E) | [(_ & E) | [(t & c & sv & _ & _ & _ & _ & E)
                              | (t & c & sv & c' & _ & _ & _ & _ & _ & E)]]];
    rewrite E; unfold added;
    try (left; reflexivity);
    match goal with
    | |- context [if ?b then _ else _] =>
        destruct b; right; eexists; reflexivity
    end.
Qed.

Lemma initConfig_other_files : forall env p,
  p <> configPath -> files (cs_env (initConfig env)) p = files env p.
Proof.
  intros env p N. destruct (initConfig_env env) as [E | (c & E)]; rewrite E.
  - reflexivity.
  - apply files_writeFileSync_other. exact N.
Qed.

Lemma getLicenseTier_same : forall env env',
  GRAPH_LICENSE_PUBLIC_KEY env' = GRAPH_LICENSE_PUBLIC_KEY env ->
  GRAPH_LICENSE env' = GRAPH_LICENSE env ->
  dateNow env' = dateNow env ->
  files env' globalLicensePath = files env globalLicensePath ->
  getLicenseTier env' None = getLicenseTier env None.
Proof.
  intros env env' Pk Gl Dn Fl. unfold getLicenseTier.
  assert (R : readLicenseKey env' None = readLicenseKey env None).
  { unfold readLicenseKey. rewrite Gl, Fl. reflexivity. }
  rewrite R, (verifyLicenseKey_same_env env env'); auto.
Qed.

Lemma initConfig_tier : forall env,
  configPath <> globalLicensePath ->
  getLicenseTier (cs_env (initConfig env)) None = getLicenseTier env None.
Proof.
  intros env N. destruct (initConfig_env env) as [E | (c & E)]; rewrite E.
  - reflexivity.
  - destruct (writeFileSync_variables env configPath c) as (Pk & Gl & Dn).
    apply getLicenseTier_same; auto.
    apply files_writeFileSync_other. congruence.
Qed.

(** *** Steps 2 and 3 *)

Lemma init_output : forall env,
  (exists rest, init_stdout (init env) = (cs_stdout (initConfig env) ++ rest)%list)
  /\ init_stderr (init env) = cs_stderr (initConfig env).
Proof.
  intros env. unfold init. cbv zeta.
  assert (N : forall l : list InitLine, exists rest, l = (l ++ rest)%list).
  { intros l. exists []. symmetry. apply app_nil_r. }
  repeat match goal with
         | |- context [if ?b then _ else _] => destruct b
         | |- context [match handleAgentConfig ?e ?d with _ => _ end] =>
             destruct (handleAgentConfig e d)
         end;
    cbn [init_stdout init_stderr]; split; try reflexivity;
    try (eexists; reflexivity); apply N.
Qed.

(** Whatever [init] does after step 1, it changes the content of no file
    but the agent file. *)
Lemma init_after_step1 : forall env p,
  p <> agentPath ->
  files (cs_env (initConfig env)) p <> Missing ->
  files (init_env (init env)) p = files (cs_env (initConfig env)) p.
Proof.
  intros env p N NM. unfold init. cbv zeta.
  repeat match goal with
         | |- context [if ?b then _ else _] => destruct b
         | |- context [match handleAgentConfig ?e ?d with _ => _ end] =>
             destruct (handleAgentConfig e d)
         end;
    cbn [init_env]; try reflexivity;
    rewrite ?files_writeFileSync_other by exact N;
    apply files_mkdirSync_kept; exact NM.
Qed.

Lemma init_keeps_contents : forall env p content,
  p <> configPath -> p <> agentPath ->
  files env p = File content ->
  files (init_env (init env)) p = File content.
Proof.
  intros env p content Nc Na F.
  rewrite init_after_step1; rewrite ?initConfig_other_files by exact Nc;
    try exact Na; congruence.
Qed.

Lemma init_stdout_lines : forall env line,
  In line (init_stdout (init env)) ->
  In line (cs_stdout (initConfig env))
  \/ In line [AgentExistsLine; AgentCreatedLine; BlankLine; ReadyLine;
              ThenTryLine; ExampleLine; NothingToDoLine].
Proof.
  intros env line. unfold init, summaryLines. cbv zeta.
  repeat match goal with
         | |- context [if ?b then _ else _] => destruct b
         | |- context [match handleAgentConfig ?e ?d with _ => _ end] =>
             destruct (handleAgentConfig e d)
         end;
    cbn [init_stdout]; intros H; try (left; exact H);
    (apply in_app_or in H; destruct H as [H | H]; [left; exact H | right]);
    simpl in H |- *; intuition congruence.
Qed.

Lemma initConfig_update : forall env text config servers config',
  files env configPath = File text ->
  jsonParse text = Some config ->
  member config "mcpServers" = Some servers ->
  truthyValue (getProp servers "graph") = false ->
  addGraphServer config servers = Some config' ->
  initConfig env = added env config'.
Proof.
  intros env text config servers config' F P M G A.
  unfold initConfig, existsSync, readFileSync. rewrite F, P, M, G, A.
  reflexivity.
Qed.

Lemma added_done : forall env config',
  failedWrite env configPath (jsonStringify config' ++ LF) = None ->
  added env config'
  = {| cs_env := setFile env configPath (File (jsonStringify config' ++ LF));
       cs_stdout := [AddedLine];
       cs_stderr := [];
       cs_wrote := true;
       cs_threw := false |}.
Proof.
  intros env config' W. unfold added, writeFileSync. rewrite W. reflexivity.
Qed.

Lemma added_refused : forall env config',
  failedWrite env configPath (jsonStringify config' ++ LF) <> None ->
  exists remains,
    added env config' = skipped (setFile env configPath remains).
Proof.
  intros env config' W. unfold added, writeFileSync.
  destruct (failedWrite env configPath (jsonStringify config' ++ LF)) as [r | ];
    [ | contradiction W; reflexivity].
  exists r. reflexivity.
Qed.

(** What [init] shows of a step 1 that updated the file, or tried to. *)
Lemma init_of_added : forall env config',
  configPath <> agentPath ->
  initConfig env = added env config' ->
  (failedWrite env configPath (jsonStringify config' ++ LF) = None ->
   files (init_env (init env)) configPath = File (jsonStringify config' ++ LF)
   /\ (exists rest, init_stdout (init env) = AddedLine :: rest)
   /\ init_stderr (init env) = [])
  /\ (failedWrite env configPath (jsonStringify config' ++ LF) <> None ->
      init_stderr (init env) = [InvalidJsonLine]
      /\ ~ In AddedLine (init_stdout (init env))
      /\ cs_wrote (initConfig env) = false).
Proof.
  intros env config' D E.
  destruct (init_output env) as [(rest & O) Er].
  split.
  - intros W. rewrite (added_done env config' W) in E.
    rewrite E in O, Er. cbn [cs_stdout cs_stderr] in O, Er.
    split; [ | split; [exists rest; exact O | exact Er]].
    assert (F1 : files (cs_env (initConfig env)) configPath
                 = File (jsonStringify config' ++ LF)).
    { rewrite E. cbn [cs_env]. apply files_setFile_same. }
    rewrite init_after_step1; [exact F1 | exact D | congruence].
  - intros W. destruct (added_refused env config' W) as (r & R).
    rewrite R in E.
    split; [rewrite Er, E; reflexivity | split; [ | rewrite E; reflexivity]].
    intros I. apply init_stdout_lines in I. rewrite E in I.
    cbn [skipped cs_stdout] in I. simpl in I. intuition discriminate.
Qed.

(** X21.  [init] adds the graph server to an existing configuration and
    keeps everything else.  When [.mcp.json] holds an object whose
    [mcpServers] is missing, [null] or an object without a usable [graph]
    entry, [init] writes the same object in which [mcpServers.graph] is the
    graph server entry and every other server and every other top-level key
    is as before.  When the write returns, the file holds that object, the
    run reports the addition first and [init] writes nothing to the error
    stream.  When the write throws, the exception is caught like a parse
    error: the complaint about invalid JSON is printed, no addition is
    reported and [wrote] stays false. *)
Theorem init_adds_graph_server : forall env text fields sf,
  configPath <> agentPath ->
  files env configPath = File text ->
  jsonParse text = Some (VObject fields) ->
  nullish (lookupField "mcpServers" fields) (VObject []) = VObject sf ->
  truthyValue (lookupField "graph" sf) = false ->
  exists fields' sf',
    lookupField "mcpServers" fields' = VObject sf'
    /\ lookupField "graph" sf' = MCP_CONFIG
    /\ (forall k, k <> "graph" -> lookupField k sf' = lookupField k sf)
    /\ (forall k, k <> "mcpServers" ->
          lookupField k fields' = lookupField k fields)
    /\ (failedWrite env configPath (jsonStringify (VObject fields') ++ LF) = None ->
        files (init_env (init env)) configPath
        = File (jsonStringify (VObject fields') ++ LF)
        /\ (exists rest, init_stdout (init env) = AddedLine :: rest)
        /\ init_stderr (init env) = [])
    /\ (failedWrite env configPath (jsonStringify (VObject fields') ++ LF) <> None ->
        init_stderr (init env) = [InvalidJsonLine]
        /\ ~ In AddedLine (init_stdout (init env))
        /\ cs_wrote (initConfig env) = false).
Proof.
  intros env text fields sf D F P S G.
  assert (G' : truthyValue (getProp (lookupField "mcpServers" fields) "graph")
               = false).
  { destruct (lookupField "mcpServers" fields); simpl in S |- *;
      try reflexivity; try discriminate.
    inversion S. subst. exact G. }
  pose proof (initConfig_update env text (VObject fields) _ _ F P eq_refl G'
                (addGraphServer_object fields sf S)) as C.
  exists (setField "mcpServers" (VObject (setField "graph" MCP_CONFIG sf)) fields),
         (setField "graph" MCP_CONFIG sf).
  split; [apply lookupField_setField_same | ].
  split; [apply lookupField_setField_same | ].
  split; [intros k N; apply lookupField_setField_other; exact N | ].
  split; [intros k N; apply lookupField_setField_other; exact N | ].
  exact (init_of_added env _ D C).
Qed.

Lemma initConfig_configured : forall env text config,
  files env configPath = File text ->
  jsonParse text = Some config ->
  truthyValue (getProp (getProp config "mcpServers") "graph") = true ->
  initConfig env
  = {| cs_env := env; cs_stdout := [ConfiguredLine]; cs_stderr := [];
       cs_wrote := false; cs_threw := false |}.
Proof.
  intros env text config F P T.
  unfold initConfig, existsSync, readFileSync. rewrite F, P.
  destruct config; simpl in T |- *; try discriminate.
  rewrite T. reflexivity.
Qed.

(** X22.  [init] in a fresh directory settles after one run.  With neither
    file present, a pro license, and a file system that lets the two files
    be written and the agent directory be made, the first run creates
    [.mcp.json] with the graph server alone and the agent file with the
    agent prompt, changes nothing else but the directories that were made,
    and announces that graph is ready; provided the configuration it wrote
    parses back, a second run finds both in place, changes nothing and
    reports that there is nothing to do. *)
Theorem init_fresh_directory_settles : forall env,
  let text := (jsonStringify freshConfig ++ LF)%string in
  let env1 := fst (writeFileSync env configPath text) in
  let env2 := fst (mkdirSync env1 agentDir) in
  configPath <> agentPath ->
  configPath <> globalLicensePath ->
  files env configPath = Missing ->
  files env agentPath = Missing ->
  getLicenseTier env None = Pro ->
  jsonParse text = Some freshConfig ->
  snd (writeFileSync env configPath text) = true ->
  snd (mkdirSync env1 agentDir) = true ->
  snd (writeFileSync env2 agentPath AGENT_PROMPT) = true ->
  init_ending (init env) = InitReturned
  /\ init_stdout (init env)
     = [CreatedLine; AgentCreatedLine; BlankLine; ReadyLine; BlankLine;
        ThenTryLine; ExampleLine]
  /\ init_stderr (init env) = []
  /\ files (init_env (init env)) configPath = File text
  /\ files (init_env (init env)) agentPath = File AGENT_PROMPT
  /\ (forall p, p <> configPath -> p <> agentPath ->
        files (init_env (init env)) p = files env p
        \/ (files env p = Missing
            /\ files (init_env (init env)) p = Unreadable
            /\ In p (fst (mkdir env1 agentDir))))
  /\ init_ending (init (init_env (init env))) = InitReturned
  /\ init_env (init (init_env (init env))) = init_env (init env)
  /\ init_stdout (init (init_env (init env)))
     = [ConfiguredLine; AgentExistsLine; BlankLine; NothingToDoLine]
  /\ init_stderr (init (init_env (init env))) = [].
Proof.
  intros env text env1 env2 D1 D2 FC FA T RT W1 M W2.
  assert (A : agentPath <> configPath) by congruence.
  assert (C1 : initConfig env
               = {| cs_env := env1; cs_stdout := [CreatedLine]; cs_stderr := [];
                    cs_wrote := true; cs_threw := false |}).
  { unfold initConfig, existsSync. rewrite FC. cbv zeta.
    change (VObject [("mcpServers", VObject [("graph", MCP_CONFIG)])])
      with freshConfig.
    fold text. rewrite W1. reflexivity. }
  assert (F1 : files env1 configPath = File text).
  { apply files_writeFileSync_done. exact W1. }
  assert (H1 : handleAgentConfig env1 None
               = Ok {| agent_file := AGENT_PROMPT;
                       install_path := ".claude/agents/graph.md";
                       instructions :=
                         "Save the agent_file content to .claude/agents/graph.md in your project root. "
                         ++ "Claude Code will automatically discover it and use it when tasks match the agent description." |}).
  { unfold handleAgentConfig.
    replace (getLicenseTier env1 None) with Pro; [reflexivity | ].
    rewrite <- T. symmetry.
    destruct (writeFileSync_variables env configPath text) as (Pk & Gl & Dn).
    apply getLicenseTier_same; auto.
    apply files_writeFileSync_other. congruence. }
  assert (E1 : existsSync env1 agentPath = false).
  { unfold existsSync, env1. rewrite files_writeFileSync_other by exact A.
    rewrite FA. reflexivity. }
  set (env3 := fst (writeFileSync env2 agentPath AGENT_PROMPT)).
  assert (R1 : init env
               = {| init_env := env3;
                    init_stdout := [CreatedLine; AgentCreatedLine; BlankLine;
                                    ReadyLine; BlankLine; ThenTryLine;
                                    ExampleLine];
                    init_stderr := [];
                    init_ending := InitReturned |}).
  { unfold init. cbv zeta. rewrite C1.
    cbn [cs_env cs_stdout cs_stderr cs_wrote cs_threw].
    rewrite E1, H1. cbn [agent_file]. fold env2. rewrite M, W2. reflexivity. }
  assert (F3c : files env3 configPath = File text).
  { unfold env3. rewrite files_writeFileSync_other by exact D1.
    unfold env2. rewrite files_mkdirSync_kept; congruence. }
  assert (F3a : files env3 agentPath = File AGENT_PROMPT).
  { apply files_writeFileSync_done. exact W2. }
  assert (C3 : initConfig env3
               = {| cs_env := env3; cs_stdout := [ConfiguredLine];
                    cs_stderr := []; cs_wrote := false; cs_threw := false |}).
  { apply (initConfig_configured env3 _ freshConfig F3c RT). reflexivity. }
  assert (E3 : existsSync env3 agentPath = true).
  { unfold existsSync. rewrite F3a. reflexivity. }
  assert (R3 : init env3
               = {| init_env := env3;
                    init_stdout := [ConfiguredLine; AgentExistsLine; BlankLine;
                                    NothingToDoLine];
                    init_stderr := [];
                    init_ending := InitReturned |}).
  { unfold init. cbv zeta. rewrite C3.
    cbn [cs_env cs_stdout cs_stderr cs_wrote cs_threw]. rewrite E3. reflexivity. }
  rewrite R1. cbn [init_env init_stdout init_stderr init_ending].
  rewrite R3. cbn [init_env init_stdout init_stderr init_ending].
  repeat split; try reflexivity; try assumption.
  intros p Pc Pa. unfold env3.
  rewrite files_writeFileSync_other by exact Pa.
  destruct (files_mkdirSync env1 agentDir p) as [E | (Mi & U & I)].
  - left. fold env2 in E. rewrite E. unfold env1.
    apply files_writeFileSync_other. exact Pc.
  - right. fold env2 in U. unfold env1 in Mi.
    rewrite files_writeFileSync_other in Mi by exact Pc. auto.
Qed.

(** X23.  When [init] complains about invalid JSON.  The complaint is
    printed exactly when [.mcp.json] exists and either cannot be used (it
    cannot be read, does not parse, or parses to [null], a boolean, a
    number, a string, or an object whose [mcpServers] is a boolean, a number
    or a string) or can be used but the write of the updated configuration
    throws.  A file that cannot be used is left as it is, and [init] goes
    on to the agent file.  In every other case [init] writes nothing to the
    error stream; an exception that escapes it shows in how it ends. *)
Theorem init_skips_unusable_config : forall env,
  configPath <> agentPath ->
  (init_stderr (init env) = [InvalidJsonLine] <->
   configUnusable env \/
   exists text config servers config',
     files env configPath = File text /\ jsonParse text = Some config /\
     member config "mcpServers" = Some servers /\
     truthyValue (getProp servers "graph") = false /\
     addGraphServer config servers = Some config' /\
     failedWrite env configPath (jsonStringify config' ++ LF) <> None)
  /\ (init_stderr (init env) <> [InvalidJsonLine] -> init_stderr (init env) = [])
  /\ (configUnusable env ->
      files (init_env (init env)) configPath = files env configPath
      /\ cs_env (initConfig env) = env
      /\ (files env agentPath <> Missing ->
          init_env (init env) = env
          /\ init_stdout (init env)
             = [AgentExistsLine; BlankLine; NothingToDoLine]
          /\ init_ending (init env) = InitReturned)).
Proof.
  intros env D.
  destruct (init_output env) as [_ O]. rewrite O.
  assert (Skip : configUnusable env -> initConfig env = skipped env).
  { intros U.
    destruct (initConfig_cases env)
      as [(F & _) | [(_ & E) | [(t & c & sv & F & P & M & G & _)
                                | (t & c & sv & c' & F & P & M & G & A & _)]]].
    - unfold configUnusable in U. rewrite F in U. contradiction.
    - exact E.
    - destruct (configUnusable_excludes env t c sv U F P M) as [G' _]. congruence.
    - destruct (configUnusable_excludes env t c sv U F P M) as [_ A']. congruence. }
  split; [ | split].
  - split.
    + intros H.
      destruct (initConfig_cases env)
        as [(F & E) | [(U & _) | [(t & c & sv & _ & _ & _ & _ & E)
                                  | (t & c & sv & c' & F & P & M & G & A & E)]]].
      * rewrite E in H.
        destruct (snd (writeFileSync env configPath (jsonStringify freshConfig ++ LF)));
          discriminate.
      * left. exact U.
      * rewrite E in H. discriminate.
      * right. exists t, c, sv, c'. repeat split; try assumption.
        intros W. rewrite E, (added_done env c' W) in H. discriminate.
    + intros [U | (t & c & sv & c' & F & P & M & G & A & W)].
      * rewrite (Skip U). reflexivity.
      * rewrite (initConfig_update env t c sv c' F P M G A).
        destruct (added_refused env c' W) as (r & R). rewrite R. reflexivity.
  - intros N.
    destruct (initConfig_cases env)
      as [(F & E) | [(U & E) | [(t & c & sv & _ & _ & _ & _ & E)
                                | (t & c & sv & c' & F & P & M & G & A & E)]]];
      rewrite E in N |- *.
    + destruct (snd (writeFileSync env configPath (jsonStringify freshConfig ++ LF)));
        reflexivity.
    + contradiction N. reflexivity.
    + reflexivity.
    + unfold added in *.
      destruct (snd (writeFileSync env configPath (jsonStringify c' ++ LF)));
        [reflexivity | contradiction N; reflexivity].
  - intros U. pose proof (Skip U) as E.
    assert (NM : files env configPath <> Missing).
    { unfold configUnusable in U. intros X. rewrite X in U. exact U. }
    split; [ | split].
    + rewrite init_after_step1;
        [rewrite E; reflexivity | exact D | rewrite E; exact NM].
    + rewrite E. reflexivity.
    + intros A. unfold init. cbv zeta. rewrite E.
      cbn [skipped cs_env cs_stdout cs_stderr cs_wrote cs_threw].
      unfold existsSync. destruct (files env agentPath);
        [contradiction A; reflexivity | | ]; repeat split; reflexivity.
Qed.

(** X24.  An array where the configuration object or its [mcpServers]
    should be never gets the graph server.  [init] then takes the branch
    that adds the server, but the property it sets on the array is not part
    of the serialisation: what it writes is the configuration as it was
    parsed, and when the write returns it reports that it added the server.
    Provided that text parses back, any later run that finds it in the file
    does not find the graph server configured and writes the very same text
    again. *)
Theorem init_array_config_never_settles : forall env text config,
  configPath <> agentPath ->
  files env configPath = File text ->
  jsonParse text = Some config ->
  arrayShaped config = true ->
  jsonParse (jsonStringify config ++ LF) = Some config ->
  truthyValue (getProp (getProp config "mcpServers") "graph") = false
  /\ (failedWrite env configPath (jsonStringify config ++ LF) = None ->
      files (init_env (init env)) configPath = File (jsonStringify config ++ LF)
      /\ exists rest, init_stdout (init env) = AddedLine :: rest)
  /\ (forall later,
        files later configPath = File (jsonStringify config ++ LF) ->
        ~ In ConfiguredLine (init_stdout (init later))
        /\ (failedWrite later configPath (jsonStringify config ++ LF) = None ->
            files (init_env (init later)) configPath
            = File (jsonStringify config ++ LF)
            /\ exists rest, init_stdout (init later) = AddedLine :: rest)).
Proof.
  intros env text config D F P A RT.
  destruct (addGraphServer_array config A) as (servers & M & G & Add).
  assert (G0 : truthyValue (getProp (getProp config "mcpServers") "graph") = false).
  { destruct config as [ | | b | n | s | items | fields]; try discriminate;
      [reflexivity | ].
    simpl in M. inversion M; subst servers. exact G. }
  assert (Step : forall e t,
             files e configPath = File t -> jsonParse t = Some config ->
             ~ In ConfiguredLine (init_stdout (init e))
             /\ (failedWrite e configPath (jsonStringify config ++ LF) = None ->
                 files (init_env (init e)) configPath
                 = File (jsonStringify config ++ LF)
                 /\ exists rest, init_stdout (init e) = AddedLine :: rest)).
  { intros e t Fe Pe.
    pose proof (initConfig_update e t config servers config Fe Pe M G Add) as C.
    destruct (init_of_added e config D C) as [Done _].
    split.
    - intros I. apply init_stdout_lines in I. rewrite C in I. unfold added in I.
      destruct (snd (writeFileSync e configPath (jsonStringify config ++ LF)));
        cbn [skipped cs_stdout] in I; simpl in I; intuition discriminate.
    - intros W. destruct (Done W) as (Fi & O & _). split; assumption. }
  split; [exact G0 | split].
  - apply (Step env text F P).
  - intros later Fl. apply (Step later _ Fl RT).
Qed.

(** X25.  The agent file needs a pro license, and the check comes after
    the configuration has been written.  When step 1 has not thrown and
    [.claude/agents/graph.md] is missing, [init] returns exactly when the
    license is pro and the file system lets the directory be made and the
    file be written; it has then written the agent prompt.  For any other
    license the [free_tier_limit] error escapes: what step 1 did to
    [.mcp.json] stays, no agent file is written and no summary is printed.
    With a pro license and a directory or file that cannot be made, the
    error of the file system escapes, again without a summary.  When the
    agent file exists, [init] returns whatever the license and leaves that
    file alone.  When creating [.mcp.json] throws, [init] ends there with
    that exception, having printed nothing. *)
Theorem init_agent_file_needs_pro : forall env,
  let step := initConfig env in
  let made := mkdirSync (cs_env step) agentDir in
  configPath <> agentPath ->
  configPath <> globalLicensePath ->
  (cs_threw step = false ->
   files env agentPath = Missing ->
   (init_ending (init env) = InitReturned <->
    getLicenseTier env None = Pro /\ snd made = true /\
    snd (writeFileSync (fst made) agentPath AGENT_PROMPT) = true)
   /\ (init_ending (init env) = InitReturned ->
       files (init_env (init env)) agentPath = File AGENT_PROMPT
       /\ In AgentCreatedLine (init_stdout (init env)))
   /\ (getLicenseTier env None = Free ->
       (exists message,
          init_ending (init env) = InitThrew (EngineError "free_tier_limit" message))
       /\ init_env (init env) = cs_env step
       /\ init_stdout (init env) = cs_stdout step
       /\ files (init_env (init env)) agentPath = Missing
       /\ (files env configPath = Missing ->
           files (init_env (init env)) configPath
           = File (jsonStringify freshConfig ++ LF)))
   /\ (getLicenseTier env None = Pro ->
       init_ending (init env) <> InitReturned ->
       init_ending (init env) = InitFileSystemError
       /\ init_stdout (init env) = cs_stdout step))
  /\ (cs_threw step = false ->
      files env agentPath <> Missing ->
      init_ending (init env) = InitReturned
      /\ init_env (init env) = cs_env step
      /\ files (init_env (init env)) agentPath = files env agentPath)
  /\ (cs_threw step = true ->
      files env configPath = Missing
      /\ failedWrite env configPath (jsonStringify freshConfig ++ LF) <> None
      /\ init_ending (init env) = InitFileSystemError
      /\ init_stdout (init env) = []
      /\ init_stderr (init env) = []).
Proof.
  intros env step made D1 D2.
  assert (A : agentPath <> configPath) by congruence.
  pose proof (initConfig_other_files env agentPath A) as FA.
  pose proof (initConfig_tier env D2) as T.
  fold step in FA, T.
  split; [ | split].
  - intros NT M.
    assert (E : existsSync (cs_env step) agentPath = false).
    { unfold existsSync. rewrite FA, M. reflexivity. }
    assert (Shape : init env
              = match handleAgentConfig (cs_env step) None with
                | Ok result =>
                    if snd made then
                      if snd (writeFileSync (fst made) agentPath (agent_file result))
                      then
                        {| init_env :=
                             fst (writeFileSync (fst made) agentPath
                                    (agent_file result));
                           init_stdout := (cs_stdout step ++ [AgentCreatedLine]
                                           ++ summaryLines true)%list;
                           init_stderr := cs_stderr step;
                           init_ending := InitReturned |}
                      else
                        {| init_env :=
                             fst (writeFileSync (fst made) agentPath
                                    (agent_file result));
                           init_stdout := cs_stdout step;
                           init_stderr := cs_stderr step;
                           init_ending := InitFileSystemError |}
                    else
                      {| init_env := fst made;
                         init_stdout := cs_stdout step;
                         init_stderr := cs_stderr step;
                         init_ending := InitFileSystemError |}
                | Throw e =>
                    {| init_env := cs_env step;
                       init_stdout := cs_stdout step;
                       init_stderr := cs_stderr step;
                       init_ending := InitThrew e |}
                | OutOfFuel =>
                    {| init_env := cs_env step;
                       init_stdout := cs_stdout step;
                       init_stderr := cs_stderr step;
                       init_ending := InitOutOfFuel |}
                end).
    { unfold init. cbv zeta. fold step. rewrite NT, E. fold made. reflexivity. }
    rewrite Shape. unfold handleAgentConfig. rewrite T.
    destruct (getLicenseTier env None) eqn:Tier; cbn [agent_file].
    + (* free *)
      cbn [init_ending init_env init_stdout].
      split; [split; [discriminate | intros (X & _); discriminate] | ].
      split; [discriminate | ].
      split; [ | split; [discriminate | reflexivity] ].
      intros _. split; [eexists; reflexivity | ].
      split; [reflexivity | split; [reflexivity | split; [rewrite FA; exact M | ]]].
      intros MC.
      destruct (initConfig_cases env)
        as [(_ & C) | [(U & _) | [(t & c & sv & F & _)
                                  | (t & c & sv & c' & F & _)]]];
        try congruence.
      * fold step in C.
        destruct (snd (writeFileSync env configPath (jsonStringify freshConfig ++ LF)))
          eqn:W; [ | rewrite C in NT; discriminate].
        rewrite C. cbn [cs_env]. apply files_writeFileSync_done. exact W.
      * unfold configUnusable in U. rewrite MC in U. contradiction.
    + (* pro *)
      destruct (snd made) eqn:Mk.
      * destruct (snd (writeFileSync (fst made) agentPath AGENT_PROMPT)) eqn:W;
          cbn [init_ending init_env init_stdout].
        -- split; [split; [intros _; auto | reflexivity] | ].
           split.
           { intros _. split; [apply files_writeFileSync_done; exact W | ].
             apply in_or_app. right. left. reflexivity. }
           split; [discriminate | ].
           intros _ N. contradiction N. reflexivity.
        -- split; [split; [discriminate | intros (_ & _ & X); discriminate] | ].
           split; [discriminate | ].
           split; [discriminate | ]. intros _ _. split; reflexivity.
      * cbn [init_ending init_env init_stdout].
        split; [split; [discriminate | intros (_ & X & _); discriminate] | ].
        split; [discriminate | ].
        split; [discriminate | ]. intros _ _. split; reflexivity.
  - intros NT NM.
    assert (E : existsSync (cs_env step) agentPath = true).
    { unfold existsSync. rewrite FA. destruct (files env agentPath);
        [contradiction NM; reflexivity | reflexivity | reflexivity]. }
    unfold init. cbv zeta. fold step. rewrite NT, E. cbn [init_ending init_env].
    split; [reflexivity | split; [reflexivity | exact FA]].
  - intros Th.
    destruct (initConfig_cases env)
      as [(F & C) | [(_ & C) | [(t & c & sv & _ & _ & _ & _ & C)
                                | (t & c & sv & c' & _ & _ & _ & _ & _ & C)]]];
      fold step in C.
    + destruct (snd (writeFileSync env configPath (jsonStringify freshConfig ++ LF)))
        eqn:W; [rewrite C in Th; discriminate | ].
      split; [exact F | ].
      split; [intros X; apply writeFileSync_done_iff in X; congruence | ].
      unfold init. cbv zeta. fold step. rewrite Th, C.
      repeat split; reflexivity.
    + rewrite C in Th. discriminate.
    + rewrite C in Th. discriminate.
    + rewrite C in Th. unfold added in Th.
      destruct (snd (writeFileSync env configPath (jsonStringify c' ++ LF)));
        discriminate.
Qed.

End WithHosts.

Lemma demo_paths_differ :
  configPath (InitHost := DemoInit.host) <> agentPath (InitHost := DemoInit.host).
Proof. intros H. vm_compute in H. discriminate H. Qed.

Lemma demo_license_elsewhere :
  configPath (InitHost := DemoInit.host)
  <> globalLicensePath (LicenseHost := DemoLicense.host).
Proof. intros H. vm_compute in H. discriminate H. Qed.

Lemma init_adds_graph_server_witness :
  exists rest,
    init_stdout (init (LH := DemoLicense.host) (IH := DemoInit.host)
                   (DemoInit.withConfig "OLD"))
    = AddedLine :: rest.
Proof.
  destruct (init_adds_graph_server (LH := DemoLicense.host) (IH := DemoInit.host)
              (DemoInit.withConfig "OLD") "OLD"
              [("mcpServers", VObject [("other", VString "x")]);
               ("theme", VString "dark")]
              [("other", VString "x")]
              demo_paths_differ eq_refl eq_refl eq_refl eq_refl)
    as (f & s & _ & _ & _ & _ & Done & _).
  destruct (Done eq_refl) as (_ & R & _).
  exact R.
Defined.

Lemma init_fresh_directory_settles_witness :
  init_stdout (init (LH := DemoLicense.host) (IH := DemoInit.host)
                 (init_env (init (LH := DemoLicense.host) (IH := DemoInit.host)
                              DemoInit.licensed)))
  = [ConfiguredLine; AgentExistsLine; BlankLine; NothingToDoLine].
Proof.
  assert (T : getLicenseTier (LH := DemoLicense.host) DemoInit.licensed None = Pro)
    by (vm_compute; reflexivity).
  assert (RT : jsonParse (InitHost := DemoInit.host)
                 (jsonStringify (InitHost := DemoInit.host) freshConfig ++ LF)
               = Some freshConfig)
    by (vm_compute; reflexivity).
  destruct (init_fresh_directory_settles (LH := DemoLicense.host)
              (IH := DemoInit.host) DemoInit.licensed
              demo_paths_differ demo_license_elsewhere eq_refl eq_refl T RT
              eq_refl eq_refl eq_refl)
    as (_ & _ & _ & _ & _ & _ & _ & _ & R & _).
  exact R.
Defined.

Lemma init_skips_unusable_config_witness :
  init_stderr (init (LH := DemoLicense.host) (IH := DemoInit.host)
                 (DemoInit.withConfig "BAD"))
  = [InvalidJsonLine].
Proof.
  apply (proj2 (proj1 (init_skips_unusable_config (LH := DemoLicense.host)
                         (IH := DemoInit.host) (DemoInit.withConfig "BAD")
                         demo_paths_differ))).
  left. vm_compute. exact I.
Defined.

Lemma init_array_config_never_settles_witness :
  exists rest,
    init_stdout (init (LH := DemoLicense.host) (IH := DemoInit.host)
                   (init_env (init (LH := DemoLicense.host) (IH := DemoInit.host)
                                (DemoInit.withConfig ("[]" ++ LF)))))
    = AddedLine :: rest.
Proof.
  assert (P : jsonParse (InitHost := DemoInit.host) ("[]" ++ LF) = Some (VArray []))
    by (vm_compute; reflexivity).
  destruct (init_array_config_never_settles (LH := DemoLicense.host)
              (IH := DemoInit.host) (DemoInit.withConfig ("[]" ++ LF))
              ("[]" ++ LF) (VArray [])
              demo_paths_differ eq_refl P eq_refl P)
    as (_ & First & Later).
  destruct (First eq_refl) as (F1 & _).
  destruct (Later _ F1) as (_ & Again).
  destruct (Again eq_refl) as (_ & R).
  exact R.
Defined.

Lemma init_agent_file_needs_pro_witness :
  (exists message,
      init_ending (init (LH := DemoLicense.host) (IH := DemoInit.host)
                     DemoInit.unlicensed)
      = InitThrew (EngineError "free_tier_limit" message))
  /\ init_ending (init (LH := DemoLicense.host) (IH := DemoInit.host)
                    DemoInit.blocked)
     = InitFileSystemError.
Proof.
  split.
  - assert (T : getLicenseTier (LH := DemoLicense.host) DemoInit.unlicensed None
                = Free)
      by (vm_compute; reflexivity).
    destruct (init_agent_file_needs_pro (LH := DemoLicense.host)
                (IH := DemoInit.host) DemoInit.unlicensed
                demo_paths_differ demo_license_elsewhere) as [H _].
    destruct (H eq_refl eq_refl) as (_ & _ & Fr & _).
    destruct (Fr T) as [R _].
    exact R.
  - assert (T : getLicenseTier (LH := DemoLicense.host) DemoInit.blocked None = Pro)
      by (vm_compute; reflexivity).
    destruct (init_agent_file_needs_pro (LH := DemoLicense.host)
                (IH := DemoInit.host) DemoInit.blocked
                demo_paths_differ demo_license_elsewhere) as [H _].
    destruct (H eq_refl eq_refl) as (R & _ & _ & Stuck).
    apply Stuck; [exact T | ].
    intros E. apply R in E. destruct E as (_ & M & _).
    vm_compute in M. discriminate M.
Defined.

End InitFacts.

(* ===================================================================== *)
(** * The tools used together *)
(* ===================================================================== *)

Lemma eraseProgress_id : forall t,
  TreePlain.tn_id (eraseProgress t) = TreeProgress.tn_id t.
Proof. intros t. destruct t. reflexivity. Qed.

(** X26.  Opening a project and then asking for its tree.  [open] takes
    the project name as it is given, [tree] trims it first.  So after a
    successful [open] of a name without white space at its ends, [tree]
    (either revision, any accepted depth) succeeds for that name and its
    tree starts at the root [open] returned; but for a name with white
    space at an end, [tree] asked for the very same name looks for the
    trimmed one, and fails unless a project of that name exists as well. *)
Theorem open_then_tree :
  forall (RT : Runtime) (NQ : NodeQueries) s input agent P root sm s' depth od,
    handleOpen s input agent = Ok (Opened P root sm, s') ->
    optionalNumber depth "depth" (Some (Fin 1)) (Some (Fin 20)) = Ok od ->
    (trim P = P ->
     exists res plain,
       TreeProgress.handleTree s' (treeRequest (VString P) depth) = Ok res /\
       TreeProgress.tr_project res = P /\
       TreeProgress.tn_id (TreeProgress.tr_tree res) = id root /\
       TreePlain.handleTree s' (treeRequest (VString P) depth) = Ok plain /\
       TreePlain.tr_project plain = P /\
       TreePlain.tn_id (TreePlain.tr_tree plain) = id root) /\
    (trim P <> P ->
     getProjectRoot s' (trim P) = None ->
     exists e e',
       TreeProgress.handleTree s' (treeRequest (VString P) depth) = Throw e /\
       TreePlain.handleTree s' (treeRequest (VString P) depth) = Throw e' /\
       (trim P = "" -> code e = "validation_error" /\ code e' = "validation_error") /\
       (trim P <> "" -> code e = "project_not_found" /\ code e' = "project_not_found")).
Proof.
  intros RT NQ s input agent P root sm s' depth od H D.
  destruct (handleOpen_cases s input agent _ s' H)
    as (given & goal & _ & _ & [(_ & E & _) | (P0 & root0 & T & E & R & _)]);
    [discriminate | ].
  inversion E; subst P0 root0; clear E.
  assert (NE : P <> "").
  { intros X. subst P. destruct given as [g | ]; simpl in T; [ | discriminate].
    destruct (String.length g =? 0)%nat eqn:L; [discriminate | ].
    inversion T. subst g. discriminate. }
  split.
  - intros Tr.
    assert (Q : requireString (getProp (treeRequest (VString P) depth) "project")
                  "project" = Ok P).
    { rewrite getProp_treeRequest_project. unfold requireString. rewrite Tr.
      rewrite (length_eqb_0_string P NE). reflexivity. }
    assert (D' : optionalNumber (getProp (treeRequest (VString P) depth) "depth")
                   "depth" (Some (Fin 1)) (Some (Fin 20)) = Ok od).
    { rewrite getProp_treeRequest_depth. exact D. }
    destruct (treeProgress_handleTree_ok s' _ P od root Q D' R) as (r & B & HT).
    eexists. eexists. split; [exact HT | ].
    split; [reflexivity | ].
    split; [cbn [TreeProgress.tr_tree];
            exact (treeProgress_buildTree_id _ _ _ _ _ _ _ B) | ].
    split; [exact (handleTree_erase_forward _ _ _ HT) | ].
    split; [reflexivity | ].
    cbn [eraseResult TreePlain.tr_tree TreeProgress.tr_tree].
    rewrite eraseProgress_id.
    exact (treeProgress_buildTree_id _ _ _ _ _ _ _ B).
  - intros Tr G.
    unfold TreeProgress.handleTree, TreePlain.handleTree.
    rewrite getProp_treeRequest_project, getProp_treeRequest_depth.
    unfold requireString.
    destruct (String.length (trim P) =? 0)%nat eqn:L.
    + cbn [bind]. eexists. eexists. split; [reflexivity | ].
      split; [reflexivity | ]. split.
      * intros _. split; reflexivity.
      * intros X. apply length_eqb_0_string in X. congruence.
    + cbn [bind]. rewrite D. cbn [bind]. rewrite G.
      eexists. eexists. split; [reflexivity | ].
      split; [reflexivity | ]. split.
      * intros X. rewrite X in L. discriminate.
      * intros _. split; reflexivity.
Qed.

Lemma open_then_tree_witness :
  exists root s',
    handleOpen (NQ := Demo.queries) Demo.store
        (VObject [("project", VString "fresh")]) "first"
      = Ok (Opened "fresh" root
              (getProjectSummary (NodeQueries := Demo.queries) s' "fresh"), s') /\
    exists res,
      TreeProgress.handleTree (RT := Demo.runtime) (NQ := Demo.queries) s'
        (treeRequest (VString "fresh") VUndefined) = Ok res /\
      TreeProgress.tn_id (TreeProgress.tr_tree res) = id root.
Proof.
  eexists. eexists. split; [reflexivity | ].
  destruct (open_then_tree Demo.runtime Demo.queries Demo.store
              (VObject [("project", VString "fresh")]) "first" _ _ _ _
              VUndefined None eq_refl eq_refl)
    as [H _].
  destruct (H eq_refl) as (res & plain & A & _ & B & _).
  exists res. split; [exact A | exact B].
Defined.

Lemma mapM_mapWithStats_outline :
  forall (f : Node -> outcome NodeTree)
         (g : Node -> Stats -> outcome (TreePlain.TreeNode * Stats))
         (children : list Node),
    (forall c, In c children -> forall st,
        bind (f c) (fun t => Ok (outlineOfContext t))
        = bind (g c st) (fun r => Ok (outlineOfTree (fst r)))) ->
    forall st,
      bind (mapM f children) (fun l => Ok (map outlineOfContext l))
      = bind (mapWithStats g children st)
             (fun p => Ok (map outlineOfTree (fst p))).
Proof.
  intros f g children. induction children as [ | c rest IH]; intros H st.
  - reflexivity.
  - simpl. pose proof (H c (or_introl eq_refl) st) as Hc.
    destruct (f c) as [t | e | ]; destruct (g c st) as [[b st1] | e' | ];
      simpl in Hc |- *; try discriminate; try reflexivity;
      try (inversion Hc; reflexivity).
    assert (IH' := IH (fun c' I => H c' (or_intror I)) st1).
    destruct (mapM f rest) as [l | e | ];
      destruct (mapWithStats g rest st1) as [[l' st2] | e' | ];
      simpl in IH' |- *; try discriminate; try reflexivity;
      try (inversion IH'; reflexivity).
    congruence.
Qed.

Lemma builders_same_outline : forall fuel s,
  uniqueIds s ->
  forall node cd md stats,
    In node (nodes s) ->
    bind (buildNodeTree fuel s (id node) cd md)
         (fun t => Ok (outlineOfContext t))
    = bind (TreePlain.buildTree fuel s node cd md stats)
           (fun r => Ok (outlineOfTree (fst r))).
Proof.
  induction fuel as [ | fuel IH]; intros s U node cd md stats I; [reflexivity | ].
  simpl. unfold getNodeOrThrow. rewrite (U node I). simpl.
  destruct (List.length (getChildren s (id node)) =? 0)%nat; [reflexivity | ].
  destruct (belowDepth cd md); [ | reflexivity].
  pose proof (mapM_mapWithStats_outline
                (fun child => buildNodeTree fuel s (id child) (cd + 1) md)
                (fun child => TreePlain.buildTree fuel s child (cd + 1) md)
                (getChildren s (id node))
                (fun c Ic st => IH s U c (cd + 1)%nat md st
                                  (getChildren_stored s (id node) c Ic))
                (countNode node stats)) as M.
  destruct (mapM (fun child => buildNodeTree fuel s (id child) (cd + 1) md)
                 (getChildren s (id node))) as [l | e | ];
    destruct (mapWithStats
                (fun child => TreePlain.buildTree fuel s child (cd + 1) md)
                (getChildren s (id node)) (countNode node stats))
      as [[l' st'] | e' | ];
    simpl in M |- *; try discriminate; try reflexivity;
    try (inversion M; reflexivity).
Qed.

(** X27.  The [context] tool and the [tree] tool draw the same outline.
    In a store whose ids are keys, asking [context] for the root of a
    project and [tree] for the project, with the same depth between 1 and
    10, gives two trees with the same nodes in the same order, the same id,
    summary and resolved flag on each, the same nodes cut off and the same
    child counts on them; they differ only in [state] against [properties]
    (and [progress]). *)
Theorem context_and_tree_same_outline :
  forall (RT : Runtime) (NQ : NodeQueries) s who given depth d P root,
    uniqueIds s ->
    requireString given "project" = Ok P ->
    getProjectRoot s P = Some root ->
    requireString who "node_id" = Ok (id root) ->
    optionalNumber depth "depth" (Some (Fin 0)) (Some (Fin 10)) = Ok (Some d) ->
    optionalNumber depth "depth" (Some (Fin 1)) (Some (Fin 20)) = Ok (Some d) ->
    exists c t t',
      handleContext s (contextRequest who depth) = Ok c /\
      TreePlain.handleTree s (treeRequest given depth) = Ok t /\
      TreeProgress.handleTree s (treeRequest given depth) = Ok t' /\
      outlineOfContext (cr_children c) = outlineOfTree (TreePlain.tr_tree t) /\
      outlineOfContext (cr_children c)
      = outlineOfTree (eraseProgress (TreeProgress.tr_tree t')).
Proof.
  intros RT NQ s who given depth d P root U HP HR HW D0 D1.
  assert (I : In root (nodes s)).
  { unfold getProjectRoot in HR. apply find_some in HR. tauto. }
  destruct (handleContext_ok s (contextRequest who depth) (id root) (Some d) root)
    as (tc & Bc & Hc).
  { rewrite getProp_contextRequest_id. exact HW. }
  { rewrite getProp_contextRequest_depth. exact D0. }
  { exact (U root I). }
  destruct (treeProgress_handleTree_ok s (treeRequest given depth) P (Some d) root)
    as (r & Br & Ht').
  { rewrite getProp_treeRequest_project. exact HP. }
  { rewrite getProp_treeRequest_depth. exact D1. }
  { exact HR. }
  pose proof (handleTree_erase_forward _ _ _ Ht') as Ht.
  pose proof (builders_same_outline (fuelFor (orElse (Some d) (Fin 10))) s U root 0
                (orElse (Some d) (Fin 10)) {| st_total := 0; st_resolved := 0 |} I)
    as E.
  cbn [orElse] in Bc, Br, E.
  rewrite Bc, buildTree_erase, Br in E. simpl in E. inversion E as [E'].
  eexists. eexists. eexists.
  split; [exact Hc | split; [exact Ht | split; [exact Ht' | ]]].
  cbn [cr_children eraseResult TreePlain.tr_tree TreeProgress.tr_tree].
  split; exact E'.
Qed.

Lemma demo_uniqueIds : uniqueIds Demo.store.
Proof.
  intros n I. simpl in I.
  repeat (destruct I as [I | I]; [subst n; reflexivity | ]).
  destruct I.
Qed.

Lemma context_and_tree_same_outline_witness :
  exists c t,
    handleContext (RT := Demo.runtime) Demo.store
      (contextRequest (VString "r") (VNumber (Fin 1))) = Ok c /\
    TreePlain.handleTree (RT := Demo.runtime) Demo.store
      (treeRequest (VString "demo") (VNumber (Fin 1))) = Ok t /\
    outlineOfContext (cr_children c) = outlineOfTree (TreePlain.tr_tree t).
Proof.
  destruct (context_and_tree_same_outline Demo.runtime Demo.queries Demo.store
              (VString "r") (VString "demo") (VNumber (Fin 1)) (Fin 1) "demo"
              (Demo.node "r" None false)
              demo_uniqueIds eq_refl eq_refl eq_refl eq_refl eq_refl)
    as (c & t & t' & A & B & _ & E & _).
  exists c, t. split; [exact A | split; [exact B | exact E]].
Defined.
